(** * i18n bootstrap: family grouping, source-of-truth election, target planning

    A shallow embedding of [hack/i18n/bootstrap.py] of the crater-website
    repository.  The script scans the documentation tree, groups the files
    that are translations of one another into document families, elects one
    member of every family as the basis of the next translation pass and
    hands the work to the translation client.

    Conventions of the embedding:
    - a Python [str] is a [string] holding its UTF-8 bytes; the separators
      the script looks at (['.'], ['/'], [',']) are ASCII, so splitting the
      bytes agrees with splitting the code points, and [str.strip()]
      removes the white space of Unicode, recognised by its encoding;
    - a [pathlib.Path] (POSIX flavour) is a record of its root and its
      components, with [stem] and [suffix] cut at the last dot of the name
      when that dot is neither its first nor its last character;
    - a Python [dict] is an association list in insertion order: assigning to
      an existing key keeps its position, assigning to a new key appends;
    - the file system is seen through the result of [os.walk] on each
      scanned directory, and through [Path.resolve()] and [is_dir()] in the
      search for the project root; creating directories and writing files
      succeed;
    - [get_i18n_config] reads the configuration from the text of the file
      and from what its three regular expressions find there; the part of
      [main] that follows it takes what it returns as parameters: the
      default locale and the scraped pairs of locale code and display name;
    - the translation client [translate_files] is a parameter: it answers a
      call, knowing everything that happened before, by a dictionary of
      results, by raising, or by leaving the process with [sys.exit];
    - [main] runs in a small monad that threads the trace of observable
      events and stops at the first raised exception;
    - of the [print] calls, the announcement of a family and the two skip
      diagnostics are events, and the two reports that print a path of a
      family with [relative_to(PROJECT_ROOT)] raise [ValueError] when the
      path is not below the project root; the others are left out, as they
      change nothing and cannot raise (the scanned directories they name
      are built from the project root). *)

From Stdlib Require Import List String Ascii Bool Arith Lia Permutation.
Import ListNotations.
Open Scope string_scope.
Open Scope list_scope.
Open Scope nat_scope.

(* ===================================================================== *)
(** ** Python string primitives *)
(* ===================================================================== *)

Module PyStr.

(** [s.split(sep)] for a one-character separator: never returns [[]]. *)
Fixpoint split (sep : ascii) (s : string) : list string :=
  match s with
  | EmptyString => [EmptyString]
  | String c r =>
      if Ascii.eqb c sep then EmptyString :: split sep r
      else match split sep r with
           | h :: t => String c h :: t
           | [] => [String c EmptyString]
           end
  end.

(** [sep.join(l)]. *)
Definition join (sep : string) (l : list string) : string :=
  String.concat sep l.

(** [s.rfind(c)], with [None] for Python's [-1]. *)
Fixpoint rfind (c : ascii) (s : string) : option nat :=
  match s with
  | EmptyString => None
  | String a r =>
      match rfind c r with
      | Some i => Some (S i)
      | None => if Ascii.eqb a c then Some 0 else None
      end
  end.

(** [s.endswith(suf)]. *)
Definition endswith (s suf : string) : bool :=
  let n := String.length s in
  let m := String.length suf in
  (m <=? n) && String.eqb (substring (n - m) m s) suf.

(** The white space [str.strip()] removes is the set of code points for
    which [str.isspace()] holds.  Those below 128 are single bytes: *)
Definition is_space (c : ascii) : bool :=
  let n := nat_of_ascii c in
  (n =? 32) || ((9 <=? n) && (n <=? 13)) || ((28 <=? n) && (n <=? 31)).

(** U+0085 and U+00A0 are two bytes in UTF-8; *)
Definition is_space2 (a b : ascii) : bool :=
  (nat_of_ascii a =? 194)
  && ((nat_of_ascii b =? 133) || (nat_of_ascii b =? 160)).

(** U+1680, U+2000 to U+200A, U+2028, U+2029, U+202F, U+205F and U+3000
    are three bytes. *)
Definition is_space3 (a b c : ascii) : bool :=
  let x := nat_of_ascii a in
  let y := nat_of_ascii b in
  let z := nat_of_ascii c in
  ((x =? 225) && (y =? 154) && (z =? 128))
  || ((x =? 226) && (y =? 128)
      && (((128 <=? z) && (z <=? 138))
          || (z =? 168) || (z =? 169) || (z =? 175)))
  || ((x =? 226) && (y =? 129) && (z =? 159))
  || ((x =? 227) && (y =? 128) && (z =? 128)).

(** [s.lstrip()]. *)
Fixpoint lstrip (s : string) : string :=
  match s with
  | EmptyString => EmptyString
  | String a r =>
      if is_space a then lstrip r
      else
        match r with
        | EmptyString => s
        | String b r2 =>
            if is_space2 a b then lstrip r2
            else
              match r2 with
              | EmptyString => s
              | String c r3 => if is_space3 a b c then lstrip r3 else s
              end
        end
  end.

(** Whether a string is made of white space only. *)
Fixpoint blank (s : string) : bool :=
  match s with
  | EmptyString => true
  | String a r =>
      if is_space a then blank r
      else
        match r with
        | EmptyString => false
        | String b r2 =>
            if is_space2 a b then blank r2
            else
              match r2 with
              | EmptyString => false
              | String c r3 => is_space3 a b c && blank r3
              end
        end
  end.

(** [s.rstrip()]: the string without its longest blank end. *)
Fixpoint rstrip (s : string) : string :=
  match s with
  | EmptyString => EmptyString
  | String a r => if blank s then EmptyString else String a (rstrip r)
  end.

(** [s.strip()]. *)
Definition strip (s : string) : string := rstrip (lstrip s).

(** [x in l] for a list of strings. *)
Definition mem (x : string) (l : list string) : bool :=
  existsb (String.eqb x) l.

(** [l[-1]]; the default is returned for an empty list only. *)
Definition last_seg (l : list string) : string := List.last l EmptyString.

(** [l[:-1]]. *)
Definition init_segs (l : list string) : list string := List.removelast l.

End PyStr.

(* ===================================================================== *)
(** ** pathlib.PurePosixPath *)
(* ===================================================================== *)

Module Path.

(** A parsed path: its root ([""] for a relative path, ["/"], or ["//"]
    for exactly two leading slashes, which POSIX keeps apart) and its
    components.  Components are never empty, never ["."] and hold no ['/']
    once they come out of [of_string]. *)
Record t : Type := mk { root : string; parts : list string }.

Definition eq_dec (p q : t) : {p = q} + {p <> q}.
Proof.
  decide equality.
  - apply (list_eq_dec string_dec).
  - apply string_dec.
Defined.

(** Whether the path has a root. *)
Definition absolute (p : t) : bool := negb (String.eqb (root p) "").

(** The root a string starts with. *)
Definition root_of (s : string) : string :=
  match s with
  | String "/" (String "/" (String "/" _)) => "/"
  | String "/" (String "/" _) => "//"
  | String "/" _ => "/"
  | _ => ""
  end.

Definition eqb (p q : t) : bool := if eq_dec p q then true else false.

Definition keep_part (s : string) : bool :=
  negb (String.eqb s "") && negb (String.eqb s ".").

(** [Path(s)]. *)
Definition of_string (s : string) : t :=
  mk (root_of s) (filter keep_part (PyStr.split "/" s)).

(** [str(p)]. *)
Definition to_string (p : t) : string :=
  if absolute p then String.append (root p) (PyStr.join "/" (parts p))
  else match parts p with
       | [] => "."
       | ps => PyStr.join "/" ps
       end.

(** [p / s] for a string operand. *)
Definition join (p : t) (s : string) : t :=
  let q := of_string s in
  if absolute q then q else mk (root p) (parts p ++ parts q).

(** [p / q] for a path operand. *)
Definition join_path (p q : t) : t :=
  if absolute q then q else mk (root p) (parts p ++ parts q).

(** [p.parent]. *)
Definition parent (p : t) : t :=
  mk (root p) (List.removelast (parts p)).

(** [p.name]. *)
Definition name (p : t) : string := List.last (parts p) "".

(** Position of the dot that starts the suffix of a file name:
    [i = name.rfind('.')] with [0 < i < len(name) - 1]. *)
Definition suffix_index (nm : string) : option nat :=
  match PyStr.rfind "." nm with
  | Some i =>
      if (0 <? i) && (i <? String.length nm - 1) then Some i else None
  | None => None
  end.

(** [p.suffix]: the last extension, with its dot, or [""]. *)
Definition suffix (p : t) : string :=
  let nm := name p in
  match suffix_index nm with
  | Some i => substring i (String.length nm - i) nm
  | None => ""
  end.

(** [p.stem]: the name without its suffix. *)
Definition stem (p : t) : string :=
  let nm := name p in
  match suffix_index nm with
  | Some i => substring 0 i nm
  | None => nm
  end.

(** [p.parts]: the root, when there is one, counts as the first part. *)
Definition py_parts (p : t) : list string :=
  if absolute p then root p :: parts p else parts p.

(** [x in l] for a list of paths. *)
Definition mem (p : t) (l : list t) : bool := existsb (eqb p) l.

(** Whether the components [a] are the first components of [b]. *)
Fixpoint starts_with (a b : list string) : bool :=
  match a, b with
  | [], _ => true
  | x :: a', y :: b' => String.eqb x y && starts_with a' b'
  | _ :: _, [] => false
  end.

(** [p.is_relative_to(other)]: same root, and the components of [other]
    come first in [p].  [p.relative_to(other)] raises [ValueError] when it
    does not hold. *)
Definition is_relative_to (p other : t) : bool :=
  String.eqb (root p) (root other) && starts_with (parts other) (parts p).

End Path.

(* ===================================================================== *)
(** ** Python dictionaries, in insertion order *)
(* ===================================================================== *)

Module Dict.

Section WithValue.
Context {V : Type}.

Definition t : Type := list (string * V).

(** [d[k]], [None] standing for [KeyError]. *)
Fixpoint get (k : string) (d : t) : option V :=
  match d with
  | [] => None
  | (k', v) :: r => if String.eqb k k' then Some v else get k r
  end.

(** [k in d]. *)
Definition mem (k : string) (d : t) : bool :=
  match get k d with Some _ => true | None => false end.

(** [d[k] = v]. *)
Fixpoint set (k : string) (v : V) (d : t) : t :=
  match d with
  | [] => [(k, v)]
  | (k', v') :: r =>
      if String.eqb k k' then (k', v) :: r else (k', v') :: set k v r
  end.

(** [{k: v for k, v in items}]: the dictionary of a sequence of items. *)
Definition of_items (items : list (string * V)) : t :=
  fold_left (fun d kv => set (fst kv) (snd kv) d) items [].

(** [list(d.keys())] and [list(d.values())]. *)
Definition keys (d : t) : list string := map fst d.
Definition values (d : t) : list V := map snd d.

End WithValue.

Arguments t : clear implicits.

End Dict.

(* ===================================================================== *)
(** ** The path classifier *)
(* ===================================================================== *)

(** [get_path_prefix_and_lang(file_path_str, default_locale, supported_locales)]:
    the locale-independent prefix of a file and the locale it stands for. *)
Definition get_path_prefix_and_lang
    (file_path_str default_locale : string) (supported_locales : list string)
  : string * string :=
  let file_path := Path.of_string file_path_str in
  let dir_path := Path.parent file_path in
  let base_name := Path.stem file_path in
  let base_name_parts := PyStr.split "." base_name in
  if (1 <? List.length base_name_parts)
     && PyStr.mem (PyStr.last_seg base_name_parts) supported_locales
  then
    let lang := PyStr.last_seg base_name_parts in
    let path_prefix :=
      Path.to_string
        (Path.join dir_path (PyStr.join "." (PyStr.init_segs base_name_parts))) in
    (path_prefix, lang)
  else if PyStr.mem base_name supported_locales then
    let lang := base_name in
    let path_prefix := Path.to_string dir_path in
    (path_prefix, lang)
  else
    let lang := default_locale in
    let path_prefix := Path.to_string (Path.join dir_path base_name) in
    (path_prefix, lang).

(* ===================================================================== *)
(** ** Observable events, exceptions and the monad of [main] *)
(* ===================================================================== *)

(** The keyword arguments of one [translate_files(...)] call. *)
Record translate_call : Type := mk_call {
  file_paths : list string;
  source_language : string;
  source_language_full : string;
  target_languages : list string;
  target_language_full : list string;
  write_to_existing_files : bool
}.

(** What the translation client does with a call: it returns a dictionary
    from locale to generated content, or it raises an exception, or it
    leaves the interpreter with [sys.exit(code)]. *)
Inductive reply : Type :=
| Returned (results : Dict.t string)
| Raised (msg : string)
| Exited (code : nat).

Inductive event : Type :=
| Processing (prefix : string)
| DiagAmbiguous (prefix : string) (langs : list string)
| DiagEmptyFamily (prefix : string)
| Translate (call : translate_call)
| Mkdir (p : Path.t)
| WriteFile (p : Path.t) (content : string).

Inductive exn : Type :=
| SystemExit (code : nat)
| KeyError (key : string)
| BackendError (msg : string)
| ValueError.

(** A computation reads the trace so far and returns the extended trace
    with a value or the exception that stopped it. *)
Definition M (A : Type) : Type := list event -> list event * (A + exn).

Definition ret {A : Type} (a : A) : M A := fun tr => (tr, inl a).

Definition raise {A : Type} (e : exn) : M A := fun tr => (tr, inr e).

Definition bind {A B : Type} (m : M A) (k : A -> M B) : M B :=
  fun tr =>
    match m tr with
    | (tr', inl a) => k a tr'
    | (tr', inr e) => (tr', inr e)
    end.

Definition emit (e : event) : M unit := fun tr => (tr ++ [e], inl tt).

Notation "x <- m ;; k" := (bind m (fun x => k))
  (at level 61, m at next level, right associativity).
Notation "m ;;; k" := (bind m (fun _ => k))
  (at level 61, right associativity).

(** [for x in l: body(x)]; a [continue] in the body is the body's return. *)
Fixpoint for_each {A : Type} (body : A -> M unit) (l : list A) : M unit :=
  match l with
  | [] => ret tt
  | x :: r => body x ;;; for_each body r
  end.

(** [d[k]] where a missing key raises [KeyError]. *)
Definition subscript {V : Type} (d : Dict.t V) (k : string) : M V :=
  match Dict.get k d with
  | Some v => ret v
  | None => raise (KeyError k)
  end.

(** [[d[k] for k in ks]]. *)
Fixpoint subscript_all {V : Type} (d : Dict.t V) (ks : list string)
  : M (list V) :=
  match ks with
  | [] => ret []
  | k :: r => v <- subscript d k ;; vs <- subscript_all d r ;; ret (v :: vs)
  end.

(** The exit status of the process: an uncaught exception other than
    [SystemExit] ends the interpreter with status 1. *)
Definition exit_status (r : unit + exn) : nat :=
  match r with
  | inl _ => 0
  | inr (SystemExit code) => code
  | inr _ => 1
  end.

(** Truth value of a string in a condition. *)
Definition truthy (s : string) : bool := negb (String.eqb s "").

Definition is_empty {A : Type} (l : list A) : bool :=
  match l with [] => true | _ => false end.

(** Outcome of the source-of-truth election for one family. *)
Inductive resolution : Type :=
| Selected (source_of_truth_lang : string) (source_of_truth_path : Path.t)
| SkipAmbiguous (langs : list string)
| SkipEmpty.

(* ===================================================================== *)
(** ** Reading the configuration *)
(* ===================================================================== *)

(** [get_i18n_config()], the first call of [main].  [content] is the text
    of the configuration file, [None] when [open] raises
    [FileNotFoundError].  The regular expressions are seen through what
    they find: [search_default_locale] and [search_supported_locales] give
    the first group of the match of [defaultLocale] and of
    [supportedLocales], [findall_locale_pairs] the pairs found in the
    latter.  When it returns, [main] goes on with its result as
    [default_locale] and [locales_map]. *)
Definition get_i18n_config
    (search_default_locale search_supported_locales : string -> option string)
    (findall_locale_pairs : string -> list (string * string))
    (content : option string) : M (string * Dict.t string) :=
  match content with
  | None => raise (SystemExit 1)
  | Some content =>
      match search_default_locale content with
      | None => raise (SystemExit 1)
      | Some default_locale =>
          match search_supported_locales content with
          | None => raise (SystemExit 1)
          | Some supported_locales_str =>
              let locale_pairs := findall_locale_pairs supported_locales_str in
              let locales_map :=
                Dict.of_items
                  (map (fun kv => (PyStr.strip (fst kv), PyStr.strip (snd kv)))
                     locale_pairs) in
              ret (default_locale, locales_map)
          end
      end
  end.

(* ===================================================================== *)
(** ** Locating the project root *)
(* ===================================================================== *)

(** The three directories that mark the project root. *)
Definition has_markers (is_dir : Path.t -> bool) (current_path : Path.t)
  : bool :=
  is_dir (Path.join current_path "content")
  && is_dir (Path.join current_path "hack")
  && is_dir (Path.join current_path "messages").

(** How the upward search ends; [OutOfFuel] is the model's own. *)
Inductive search_result : Type :=
| Found (project_root : Path.t)
| FileNotFound
| OutOfFuel.

(** The [while True] loop of [find_project_root], one iteration per unit of
    fuel.  The file system is seen through [is_dir]. *)
Fixpoint find_project_root_loop (is_dir : Path.t -> bool) (fuel : nat)
    (current_path : Path.t) : search_result :=
  match fuel with
  | 0 => OutOfFuel
  | S fuel =>
      if has_markers is_dir current_path then Found current_path
      else
        let parent_path := Path.parent current_path in
        if Path.eqb parent_path current_path then FileNotFound
        else find_project_root_loop is_dir fuel parent_path
  end.

(** [find_project_root(start_path)].  [resolve] is [Path.resolve()] on the
    file system at hand: it makes the path absolute and follows symbolic
    links.  A path has one ancestor per component, so one more iteration
    than the resolved path has components is all the loop can use. *)
Definition find_project_root (resolve : Path.t -> Path.t)
    (is_dir : Path.t -> bool) (start_path : Path.t) : search_result :=
  let current_path := resolve start_path in
  find_project_root_loop is_dir (S (List.length (Path.parts current_path)))
    current_path.

(** [q] is [p] or one of its ancestors. *)
Definition ancestor_or_self (q p : Path.t) : Prop :=
  Path.root q = Path.root p
  /\ exists rest, Path.parts p = Path.parts q ++ rest.

(* ===================================================================== *)
(** ** A sample tree *)
(* ===================================================================== *)

(** A small project used to run the script on concrete inputs. *)
Module Sample.

Definition root : Path.t := Path.of_string "/srv/crater-website".

Definition pairs : list (string * string) :=
  [("en", "English"); ("zh", "Chinese"); ("ko", "Korean")].

Definition docs : string := "/srv/crater-website/content/docs".
Definition messages : string := "/srv/crater-website/messages".

(** The walks of [content/docs] and of [messages]. *)
Definition walks : list (list (string * list string)) :=
  [[(docs, ["index.mdx"; "index.zh.mdx"; "notes.txt"])];
   [(messages, ["en.json"; "zh.json"])]].

Definition index_en : Path.t :=
  Path.of_string "/srv/crater-website/content/docs/index.mdx".
Definition index_zh : Path.t :=
  Path.of_string "/srv/crater-website/content/docs/index.zh.mdx".
Definition index_fr : Path.t :=
  Path.of_string "/srv/crater-website/content/docs/index.fr.mdx".
Definition messages_en : Path.t :=
  Path.of_string "/srv/crater-website/messages/en.json".
Definition messages_zh : Path.t :=
  Path.of_string "/srv/crater-website/messages/zh.json".

Definition family_en_zh : Dict.t Path.t :=
  [("en", index_en); ("zh", index_zh)].
Definition family_zh_fr : Dict.t Path.t :=
  [("zh", index_zh); ("fr", index_fr)].

(** The family map the scan of [walks] builds with default locale ["en"]. *)
Definition scanned : Dict.t (Dict.t Path.t) :=
  [("/srv/crater-website/content/docs/index", family_en_zh);
   ("/srv/crater-website/messages",
    [("en", messages_en); ("zh", messages_zh)])].

(** A client that returns a fixed text for every requested locale. *)
Definition echo_client : list event -> translate_call -> reply :=
  fun _ call =>
    Returned (map (fun lang => (lang, "translated")) (target_languages call)).

(** A client that always raises. *)
Definition failing_client : list event -> translate_call -> reply :=
  fun _ _ => Raised "backend unavailable".

(** A client that leaves the process with [sys.exit(3)]. *)
Definition leaving_client : list event -> translate_call -> reply :=
  fun _ _ => Exited 3.

(** A client that answers with an absolute path where a locale is
    expected. *)
Definition straying_client : list event -> translate_call -> reply :=
  fun _ _ => Returned [("/tmp/ko", "translated")].

End Sample.

(* ===================================================================== *)
(** ** More sample data *)
(* ===================================================================== *)

Module Fixture.

(** The directories of a small project tree. *)
Definition is_dir (p : Path.t) : bool :=
  Path.mem p
    (map Path.of_string
       ["/srv"; "/srv/crater-website"; "/srv/crater-website/content";
        "/srv/crater-website/content/docs"; "/srv/crater-website/hack";
        "/srv/crater-website/hack/i18n"; "/srv/crater-website/messages"]).

(** The directory of the script. *)
Definition start_point : Path.t :=
  Path.of_string "/srv/crater-website/hack/i18n".

(** The same directory as the interpreter gives it when the script is
    started from the project directory, and [Path.resolve()] in that
    process, on a tree without symbolic links. *)
Definition script_directory : Path.t := Path.of_string "hack/i18n".
Definition resolve (p : Path.t) : Path.t := Path.join_path Sample.root p.

Definition search_default_locale (content : string) : option string :=
  if String.eqb content "" then None else Some "en".
Definition search_supported_locales (content : string) : option string :=
  if String.eqb content "" then None
  else Some " en: 'English', zh: 'Chinese', ko: 'Korean' ".
Definition findall_locale_pairs (supported_locales_str : string)
  : list (string * string) :=
  if String.eqb supported_locales_str "" then [] else Sample.pairs.

(** A display name written between no-break spaces (U+00A0) and followed
    by an ideographic space (U+3000), in UTF-8. *)
Definition padded_name : string :=
  String (ascii_of_nat 194)
    (String (ascii_of_nat 160)
       ("English"
        ++ String (ascii_of_nat 194)
             (String (ascii_of_nat 160)
                (String (ascii_of_nat 227)
                   (String (ascii_of_nat 128)
                      (String (ascii_of_nat 128) ""))))))%string.

(** A configuration that declares a code twice. *)
Definition repeated_pairs : list (string * string) :=
  [("en", "English"); ("zh", "Chinese"); ("en", "British English")].

(** One page written in two formats. *)
Definition page_md : Path.t :=
  Path.of_string "/srv/crater-website/content/docs/page.md".
Definition page_mdx : Path.t :=
  Path.of_string "/srv/crater-website/content/docs/page.mdx".
Definition two_formats : list (list (string * list string)) :=
  [[(Sample.docs, ["page.md"; "page.mdx"])]].

(** A Chinese page whose name already carries an English marker. *)
Definition notes_zh : Path.t :=
  Path.of_string "/srv/crater-website/content/docs/notes.en.zh.md".

(** The first call of the full scan of the sample. *)
Definition first_call : translate_call :=
  mk_call ["/srv/crater-website/content/docs/index.mdx"] "en" "English"
    ["ko"] ["Korean"] false.

End Fixture.

(* ===================================================================== *)
(** ** The script *)
(* ===================================================================== *)

Section Bootstrap.

(** [PROJECT_ROOT], as [find_project_root] returns it. *)
Variable PROJECT_ROOT : Path.t.

(** What [get_i18n_config] scrapes from the configuration file: the default
    locale and the [(code, display name)] pairs in the order they appear. *)
Variable default_locale : string.
Variable locale_pairs : list (string * string).

(** The translation client.  It may depend on everything that happened
    before the call. *)
Variable translate_files : list event -> translate_call -> reply.

(** [{key.strip(): value.strip() for key, value in locale_pairs}]. *)
Definition locales_map : Dict.t string :=
  Dict.of_items
    (map (fun kv => (PyStr.strip (fst kv), PyStr.strip (snd kv)))
       locale_pairs).

Definition supported_locales : list string := Dict.keys locales_map.

(** *** Step 1: the family builder *)

Definition families : Type := Dict.t (Dict.t Path.t).

Definition is_candidate (file : string) : bool :=
  PyStr.endswith file ".mdx" || PyStr.endswith file ".json"
  || PyStr.endswith file ".md".

(** The body of [for file in files]. *)
Definition add_file (root : string) (doc_families : families) (file : string)
  : families :=
  if negb (is_candidate file) then doc_families
  else
    let file_path := Path.join (Path.of_string root) file in
    let '(path_prefix, lang) :=
      get_path_prefix_and_lang (Path.to_string file_path)
        default_locale supported_locales in
    let doc_families :=
      if negb (Dict.mem path_prefix doc_families)
      then Dict.set path_prefix [] doc_families
      else doc_families in
    match Dict.get path_prefix doc_families with
    | Some files_map =>
        Dict.set path_prefix (Dict.set lang file_path files_map) doc_families
    | None => doc_families
    end.

(** [for root, _, files in os.walk(directory)]: the walk of one directory is
    the list of its [(root, files)] steps. *)
Definition scan_directory (doc_families : families)
    (walk : list (string * list string)) : families :=
  fold_left
    (fun fams step => fold_left (add_file (fst step)) (snd step) fams)
    walk doc_families.

(** [for directory in SCAN_DIRECTORIES], given the walk of each. *)
Definition build_families (walks : list (list (string * list string)))
  : families :=
  fold_left scan_directory walks [].

(** A well-formed family map: the keys are distinct, and every family is a
    non-empty dictionary whose locales are supported or the default. *)
Definition families_wf (doc_families : families) : Prop :=
  NoDup (Dict.keys doc_families)
  /\ forall prefix files_map,
      In (prefix, files_map) doc_families ->
      files_map <> []
      /\ NoDup (Dict.keys files_map)
      /\ forall lang path,
          In (lang, path) files_map ->
          In lang supported_locales \/ lang = default_locale.

(** *** Step 2: the change filter *)

(** The body of [for raw_path_str in raw_paths]. *)
Definition absolute_path (raw_path_str : string) : Path.t :=
  let path_obj := Path.of_string raw_path_str in
  let project_root_name := Path.name PROJECT_ROOT in
  let relative_path :=
    match Path.py_parts path_obj with
    | first :: rest =>
        if String.eqb first project_root_name
        then fold_left Path.join rest (Path.mk "" [])
        else path_obj
    | [] => path_obj
    end in
  Path.join_path PROJECT_ROOT relative_path.

Definition parse_changed_files (changed_files : string) : list Path.t :=
  let raw_paths :=
    map PyStr.strip
      (filter (fun p => truthy (PyStr.strip p))
         (PyStr.split "," changed_files)) in
  map absolute_path raw_paths.

(** [any(path in changed_files_list for path in files_map.values())]. *)
Definition family_is_affected (changed_files_list : list Path.t)
    (files_map : Dict.t Path.t) : bool :=
  existsb (fun path => Path.mem path changed_files_list)
    (Dict.values files_map).

(** The dictionary filled by the loop over [doc_families.items()]. *)
Definition affected_families (doc_families : families)
    (changed_files_list : list Path.t) : families :=
  Dict.of_items
    (filter (fun entry => family_is_affected changed_files_list (snd entry))
       doc_families).

(** *** Step 3.1: the source of truth *)

(** [{lang: path for lang, path in files_map.items()
      if path in changed_files_list}]. *)
Definition family_changed_files (files_map : Dict.t Path.t)
    (changed_files_list : list Path.t) : Dict.t Path.t :=
  Dict.of_items
    (filter (fun entry => Path.mem (snd entry) changed_files_list) files_map).

Definition source_of_truth (files_map : Dict.t Path.t)
    (changed_files_list : list Path.t) : resolution :=
  let family_changed_files :=
    family_changed_files files_map changed_files_list in
  match Dict.get default_locale family_changed_files with
  | Some path => Selected default_locale path
  | None =>
      if List.length family_changed_files =? 1 then
        match family_changed_files with
        | (lang, path) :: _ => Selected lang path
        | [] => SkipEmpty
        end
      else if 1 <? List.length family_changed_files then
        SkipAmbiguous (Dict.keys family_changed_files)
      else
        match Dict.get default_locale files_map with
        | Some path => Selected default_locale path
        | None =>
            match files_map with
            | (lang, path) :: _ => Selected lang path
            | [] => SkipEmpty
            end
        end
  end.

(** *** Step 3.2: the targets *)

Definition targets_to_create (files_map : Dict.t Path.t) : list string :=
  filter (fun lang => negb (Dict.mem lang files_map)) supported_locales.

Definition targets_to_update (files_map : Dict.t Path.t)
    (source_of_truth_lang : string) : list string :=
  filter
    (fun lang =>
       Dict.mem lang files_map && negb (String.eqb lang source_of_truth_lang))
    supported_locales.

(** *** Step 3.3: creation and update *)

(** Where the file of a newly created locale goes. *)
Definition target_path (prefix : string) (source_of_truth_path : Path.t)
    (lang : string) : Path.t :=
  let source_suffix := Path.suffix source_of_truth_path in
  if PyStr.mem (Path.stem source_of_truth_path) supported_locales then
    Path.join (Path.of_string prefix) (String.append lang source_suffix)
  else if String.eqb lang default_locale then
    Path.of_string (String.append prefix source_suffix)
  else
    Path.of_string
      (String.append prefix
         (String.append "." (String.append lang source_suffix))).

(** [p.relative_to(PROJECT_ROOT)], evaluated for a [print]: it raises
    [ValueError] for a path that is not below the project root. *)
Definition relative_to_root (p : Path.t) : M unit :=
  if Path.is_relative_to p PROJECT_ROOT then ret tt else raise ValueError.

(** The body of [for lang, content in creation_results.items()]: the
    parent directories, the file, then the report of the created file. *)
Definition write_created (prefix : string) (source_of_truth_path : Path.t)
    (entry : string * string) : M unit :=
  let target_path := target_path prefix source_of_truth_path (fst entry) in
  emit (Mkdir (Path.parent target_path)) ;;;
  emit (WriteFile target_path (snd entry)) ;;;
  relative_to_root target_path.

(** The events of writing the created files of one family. *)
Definition creation_writes (prefix : string) (source_of_truth_path : Path.t)
    (creation_results : Dict.t string) : list event :=
  flat_map
    (fun entry =>
       let destination :=
         target_path prefix source_of_truth_path (fst entry) in
       [Mkdir (Path.parent destination); WriteFile destination (snd entry)])
    creation_results.

(** The events that reach the translation client or the file system. *)
Definition is_io (ev : event) : Prop :=
  match ev with
  | Translate _ | Mkdir _ | WriteFile _ _ => True
  | _ => False
  end.

(** One call of the translation client. *)
Definition call_translate_files (call : translate_call) : M (Dict.t string) :=
  fun tr =>
    match translate_files tr call with
    | Returned results => (tr ++ [Translate call], inl results)
    | Raised msg => (tr ++ [Translate call], inr (BackendError msg))
    | Exited code => (tr ++ [Translate call], inr (SystemExit code))
    end.

Definition create_missing (prefix : string) (files_map : Dict.t Path.t)
    (source_of_truth_lang : string) (source_of_truth_path : Path.t) : M unit :=
  let targets_to_create := targets_to_create files_map in
  if negb (is_empty targets_to_create) then
    full <- subscript locales_map source_of_truth_lang ;;
    targets_full <- subscript_all locales_map targets_to_create ;;
    creation_results <-
      call_translate_files
        (mk_call [Path.to_string source_of_truth_path] source_of_truth_lang
           full targets_to_create targets_full false) ;;
    for_each (write_created prefix source_of_truth_path) creation_results
  else ret tt.

Definition update_existing (files_map : Dict.t Path.t)
    (source_of_truth_lang : string) (source_of_truth_path : Path.t) : M unit :=
  let targets_to_update := targets_to_update files_map source_of_truth_lang in
  if negb (is_empty targets_to_update) then
    target_paths <- subscript_all files_map targets_to_update ;;
    let paths_for_update :=
      Path.to_string source_of_truth_path :: map Path.to_string target_paths in
    full <- subscript locales_map source_of_truth_lang ;;
    targets_full <- subscript_all locales_map targets_to_update ;;
    call_translate_files
      (mk_call paths_for_update source_of_truth_lang full targets_to_update
         targets_full true) ;;;
    ret tt
  else ret tt.

(** The body of [for prefix, files_map in doc_families.items()]. *)
Definition process_family (changed_files_list : list Path.t)
    (entry : string * Dict.t Path.t) : M unit :=
  let prefix := fst entry in
  let files_map := snd entry in
  emit (Processing prefix) ;;;
  match source_of_truth files_map changed_files_list with
  | SkipAmbiguous langs => emit (DiagAmbiguous prefix langs)
  | SkipEmpty => emit (DiagEmptyFamily prefix)
  | Selected source_of_truth_lang source_of_truth_path =>
      relative_to_root source_of_truth_path ;;;
      create_missing prefix files_map source_of_truth_lang
        source_of_truth_path ;;;
      update_existing files_map source_of_truth_lang source_of_truth_path
  end.

(** [main(args)], given [args.changed_files] and the walks of the scanned
    directories. *)
Definition main (changed_files : string)
    (walks : list (list (string * list string))) : M unit :=
  let doc_families := build_families walks in
  let changed_files_list : list Path.t := [] in
  step2 <-
    (if truthy changed_files then
       let changed_files_list := parse_changed_files changed_files in
       let affected_families :=
         affected_families doc_families changed_files_list in
       let doc_families := affected_families in
       if is_empty doc_families then raise (SystemExit 0)
       else ret (changed_files_list, doc_families)
     else ret (changed_files_list, doc_families)) ;;
  for_each (process_family (fst step2)) (snd step2).

(** The change set and the family map that step 2 hands to step 3. *)
Definition changed_files_list (changed_files : string) : list Path.t :=
  if truthy changed_files then parse_changed_files changed_files else [].

Definition filter_by_changes (doc_families : families)
    (changed_files : string) : families :=
  if truthy changed_files
  then affected_families doc_families (parse_changed_files changed_files)
  else doc_families.


(** *** Views of the scan used to state its properties *)

(** The files the scan accepts, as the paths its loop builds, in the order
    it meets them. *)
Definition scanned_paths (walks : list (list (string * list string)))
  : list Path.t :=
  flat_map
    (fun walk =>
       flat_map
         (fun step =>
            map (fun file => Path.join (Path.of_string (fst step)) file)
              (filter is_candidate (snd step)))
         walk)
    walks.

(** The family key and the locale of a path. *)
Definition classify (file_path : Path.t) : string * string :=
  get_path_prefix_and_lang (Path.to_string file_path)
    default_locale supported_locales.

(** What the loop body does to the family map for an accepted file. *)
Definition insert_path (doc_families : families) (file_path : Path.t)
  : families :=
  let classified := classify file_path in
  let files_map :=
    match Dict.get (fst classified) doc_families with
    | Some files_map => files_map
    | None => []
    end in
  Dict.set (fst classified)
    (Dict.set (snd classified) file_path files_map) doc_families.

(** The file a family map holds under a family key and a locale. *)
Definition slot (doc_families : families) (prefix lang : string)
  : option Path.t :=
  match Dict.get prefix doc_families with
  | Some files_map => Dict.get lang files_map
  | None => None
  end.

(** *** Views of a run used to state its properties *)

(** What a call of the translation client owes to the family it is made
    for: the source is the elected entry of the family, the display names
    are those of the configuration, a creation call asks for all the
    supported locales the family lacks and names the source file only, an
    update call asks for all the other supported locales the family has and
    names their files after the source file. *)
Definition call_for_family (changed : list Path.t)
    (files_map : Dict.t Path.t) (call : translate_call) : Prop :=
  exists source_of_truth_path,
    source_of_truth files_map changed
    = Selected (source_language call) source_of_truth_path
    /\ Dict.get (source_language call) locales_map
       = Some (source_language_full call)
    /\ map (fun lang => Dict.get lang locales_map) (target_languages call)
       = map Some (target_language_full call)
    /\ if write_to_existing_files call
       then
         target_languages call
         = targets_to_update files_map (source_language call)
         /\ exists target_paths,
             map (fun lang => Dict.get lang files_map) (target_languages call)
             = map Some target_paths
             /\ file_paths call
                = Path.to_string source_of_truth_path
                  :: map Path.to_string target_paths
       else
         target_languages call = targets_to_create files_map
         /\ file_paths call = [Path.to_string source_of_truth_path].

(** Every written file comes right after the creation of its parent
    directories. *)
Definition prepared_writes (tr : list event) : Prop :=
  forall p content l1 l2,
    tr = l1 ++ WriteFile p content :: l2 ->
    exists l0, l1 = l0 ++ [Mkdir (Path.parent p)].

(** How a step of a family that calls the translation client can stop
    short: the source-of-truth locale has no display name, the client
    raises, or the client leaves the process. *)
Definition stops_short (lang : string) (tr : list event)
    (run : list event * (unit + exn)) : Prop :=
  (Dict.get lang locales_map = None /\ run = (tr, inr (KeyError lang)))
  \/ (exists call msg,
         translate_files tr call = Raised msg
         /\ run = (tr ++ [Translate call], inr (BackendError msg)))
  \/ (exists call code,
         translate_files tr call = Exited code
         /\ run = (tr ++ [Translate call], inr (SystemExit code))).

(** *** Well-formed strings and paths used to state properties *)

(** Whether a character occurs in a string. *)
Fixpoint occurs (c : ascii) (s : string) : bool :=
  match s with
  | EmptyString => false
  | String a r => Ascii.eqb a c || occurs c r
  end.

Definition free_of (c : ascii) (s : string) : Prop := occurs c s = false.

(** [name] is [stem] followed by [ext], the way [pathlib] cuts a file name:
    the extension starts at the last dot of the name when that dot is
    neither its first nor its last character, and there is no extension
    otherwise. *)
Definition cut_at_extension (name stem ext : string) : Prop :=
  name = (stem ++ ext)%string
  /\ ((exists e,
          ext = String "." e /\ e <> "" /\ free_of "." e /\ stem <> "")
      \/ (ext = ""
          /\ forall b e,
              name = (b ++ String "." e)%string -> free_of "." e ->
              b = "" \/ e = "")).

(** A component as [Path(...)] keeps them: not empty, not ["."], without
    ['/']. *)
Definition clean_part (s : string) : Prop :=
  s <> "" /\ s <> "." /\ free_of "/" s.

(** A path as [Path(...)] builds them. *)
Definition clean_path (p : Path.t) : Prop :=
  (Path.root p = "" \/ Path.root p = "/" \/ Path.root p = "//")
  /\ Forall clean_part (Path.parts p).

(** The family keys announced in a trace, in order. *)
Definition announced (tr : list event) : list string :=
  flat_map
    (fun ev => match ev with Processing prefix => [prefix] | _ => [] end)
    tr.

(* ===================================================================== *)
(** ** Facts about the primitives *)
(* ===================================================================== *)

Lemma pystr_mem_In (x : string) (l : list string) :
  PyStr.mem x l = true <-> In x l.
Proof.
  unfold PyStr.mem. rewrite existsb_exists. split.
  - intros [y [Hy He]]. apply String.eqb_eq in He. now subst.
  - intros H. exists x. split; [exact H | apply String.eqb_refl].
Qed.

Lemma pystr_mem_false (x : string) (l : list string) :
  PyStr.mem x l = false <-> ~ In x l.
Proof.
  rewrite <- pystr_mem_In. destruct (PyStr.mem x l); split; congruence.
Qed.

Lemma path_eqb_eq (p q : Path.t) : Path.eqb p q = true <-> p = q.
Proof.
  unfold Path.eqb. destruct (Path.eq_dec p q); split; congruence.
Qed.

Lemma path_mem_In (p : Path.t) (l : list Path.t) :
  Path.mem p l = true <-> In p l.
Proof.
  unfold Path.mem. rewrite existsb_exists. split.
  - intros [q [Hq He]]. apply path_eqb_eq in He. now subst.
  - intros H. exists p. split; [exact H | now apply path_eqb_eq].
Qed.

Lemma split_not_nil (sep : ascii) (s : string) : PyStr.split sep s <> [].
Proof.
  destruct s as [|c r]; simpl; [discriminate|].
  destruct (Ascii.eqb c sep); [discriminate|].
  destruct (PyStr.split sep r); discriminate.
Qed.

(** Joining the segments of a split with the separator gives the string
    back: the segments of a stem are a decomposition of it. *)
Lemma join_split (sep : ascii) (s : string) :
  PyStr.join (String sep EmptyString) (PyStr.split sep s) = s.
Proof.
  unfold PyStr.join. induction s as [|c r IH]; simpl; [reflexivity|].
  destruct (Ascii.eqb c sep) eqn:E.
  - apply Ascii.eqb_eq in E. subst c.
    destruct (PyStr.split sep r) eqn:S; [now apply split_not_nil in S|].
    simpl in *. now rewrite IH.
  - destruct (PyStr.split sep r) as [|h t] eqn:S; [now apply split_not_nil in S|].
    destruct t; simpl in *; now rewrite <- IH.
Qed.

Section DictFacts.
Context {V : Type}.
Implicit Types (d : Dict.t V) (k : string) (v : V).

Lemma dict_get_In k v d : Dict.get k d = Some v -> In (k, v) d.
Proof.
  induction d as [|[k' v'] r IH]; simpl; [discriminate|].
  destruct (String.eqb k k') eqn:E.
  - apply String.eqb_eq in E. intros [= ->]. subst. now left.
  - intros H. right. now apply IH.
Qed.

Lemma dict_In_mem k v d : In (k, v) d -> Dict.mem k d = true.
Proof.
  unfold Dict.mem. induction d as [|[k' v'] r IH]; simpl; [tauto|].
  intros [H|H].
  - injection H as -> ->. now rewrite String.eqb_refl.
  - destruct (String.eqb k k'); [reflexivity | now apply IH].
Qed.

Lemma dict_mem_keys k d : Dict.mem k d = true <-> In k (Dict.keys d).
Proof.
  unfold Dict.mem, Dict.keys. induction d as [|[k' v'] r IH]; simpl.
  - split; [discriminate | tauto].
  - destruct (String.eqb k k') eqn:E.
    + apply String.eqb_eq in E. subst. tauto.
    + apply String.eqb_neq in E. rewrite IH. split; [tauto|].
      intros [H|H]; [congruence | exact H].
Qed.

Lemma dict_mem_get k d :
  Dict.mem k d = true -> exists v, Dict.get k d = Some v.
Proof.
  unfold Dict.mem. destruct (Dict.get k d) as [v|]; [eauto | discriminate].
Qed.

Lemma dict_get_none_keys k d : Dict.get k d = None <-> ~ In k (Dict.keys d).
Proof.
  rewrite <- dict_mem_keys. unfold Dict.mem.
  destruct (Dict.get k d); split; congruence.
Qed.

Lemma dict_set_not_nil k v d : Dict.set k v d <> [].
Proof.
  destruct d as [|[k' v'] r]; simpl; [discriminate|].
  destruct (String.eqb k k'); discriminate.
Qed.

Lemma dict_set_absent k v d :
  Dict.get k d = None -> Dict.set k v d = d ++ [(k, v)].
Proof.
  induction d as [|[k' v'] r IH]; simpl; [reflexivity|].
  destruct (String.eqb k k'); [discriminate|].
  intros H. now rewrite IH.
Qed.

Lemma dict_set_keys_present k v d :
  Dict.mem k d = true -> Dict.keys (Dict.set k v d) = Dict.keys d.
Proof.
  unfold Dict.mem, Dict.keys. induction d as [|[k' v'] r IH]; simpl; [discriminate|].
  destruct (String.eqb k k') eqn:E; simpl; [reflexivity|].
  intros H. now rewrite IH.
Qed.

Lemma dict_set_In k v d k' v' :
  In (k', v') (Dict.set k v d) -> (k' = k /\ v' = v) \/ In (k', v') d.
Proof.
  induction d as [|[k0 v0] r IH]; simpl.
  - intros [H|[]]. injection H as <- <-. now left.
  - destruct (String.eqb k k0) eqn:E; simpl.
    + apply String.eqb_eq in E. subst k0.
      intros [H|H]; [injection H as <- <-; now left | right; now right].
    + intros [H|H]; [right; now left|].
      destruct (IH H) as [?|?]; [now left | right; now right].
Qed.

Lemma dict_get_set_same k v d : Dict.get k (Dict.set k v d) = Some v.
Proof.
  induction d as [|[k0 v0] r IH]; simpl.
  - now rewrite String.eqb_refl.
  - destruct (String.eqb k k0) eqn:E; simpl; rewrite E; [reflexivity | exact IH].
Qed.

Lemma dict_set_keys_nodup k v d :
  NoDup (Dict.keys d) -> NoDup (Dict.keys (Dict.set k v d)).
Proof.
  intros H. destruct (Dict.mem k d) eqn:E.
  - now rewrite dict_set_keys_present.
  - assert (G : Dict.get k d = None).
    { unfold Dict.mem in E. destruct (Dict.get k d); congruence. }
    rewrite (dict_set_absent _ _ _ G). unfold Dict.keys. rewrite map_app. simpl.
    apply NoDup_app; [exact H | repeat constructor; simpl; tauto |].
    intros x Hx [Hk|[]]. subst x. now apply dict_get_none_keys in G.
Qed.

(** On a dictionary, that is with distinct keys, a filtering
    comprehension keeps the entry of a key exactly when it passes. *)
Lemma dict_get_filter (f : string * V -> bool) k d :
  NoDup (Dict.keys d) ->
  Dict.get k (filter f d)
  = match Dict.get k d with
    | Some v => if f (k, v) then Some v else None
    | None => None
    end.
Proof.
  induction d as [|[k' v'] r IH]; simpl; [reflexivity|].
  intros H. inversion H as [|? ? Hn Hr]; subst.
  destruct (String.eqb k k') eqn:E.
  - apply String.eqb_eq in E. subst k'.
    destruct (f (k, v')) eqn:F; simpl.
    + now rewrite String.eqb_refl.
    + rewrite (IH Hr).
      assert (G : Dict.get k r = None) by now apply dict_get_none_keys.
      now rewrite G.
  - destruct (f (k', v')); simpl; [rewrite E|]; now apply IH.
Qed.

(** A dictionary built from items has distinct keys. *)
Lemma dict_of_items_keys_nodup (items : list (string * V)) :
  NoDup (Dict.keys (Dict.of_items items)).
Proof.
  unfold Dict.of_items.
  assert (G : forall (l : list (string * V)) d,
             NoDup (Dict.keys d) ->
             NoDup (Dict.keys
                      (fold_left (fun d kv => Dict.set (fst kv) (snd kv) d)
                         l d))).
  { induction l as [|kv r IH]; intros d Hd; simpl; [exact Hd|].
    apply IH. now apply dict_set_keys_nodup. }
  apply G. constructor.
Qed.

(** The items of a dictionary have distinct keys, and a comprehension over
    items with distinct keys is the list of the items it keeps. *)
Lemma dict_of_items_distinct (items : list (string * V)) :
  NoDup (Dict.keys items) -> Dict.of_items items = items.
Proof.
  unfold Dict.of_items.
  assert (G : forall (l : list (string * V)) d,
             NoDup (Dict.keys (d ++ l)) ->
             fold_left (fun d kv => Dict.set (fst kv) (snd kv) d) l d
             = d ++ l).
  { induction l as [|[k v] r IH]; intros d Hd; simpl.
    - now rewrite app_nil_r.
    - assert (Hn : Dict.get k d = None).
      { apply dict_get_none_keys. unfold Dict.keys in *.
        rewrite map_app in Hd. simpl in Hd.
        apply NoDup_remove_2 in Hd. intros Hin. apply Hd.
        apply in_or_app. now left. }
      rewrite (dict_set_absent _ _ _ Hn), IH.
      + now rewrite <- app_assoc.
      + now rewrite <- app_assoc. }
  intros H. now apply (G items []).
Qed.

Lemma dict_of_items_In (items : list (string * V)) k v :
  In (k, v) (Dict.of_items items) -> In (k, v) items.
Proof.
  unfold Dict.of_items.
  assert (G : forall (l : list (string * V)) d,
             In (k, v) (fold_left (fun d kv => Dict.set (fst kv) (snd kv) d)
                          l d) ->
             In (k, v) d \/ In (k, v) l).
  { induction l as [|[k0 v0] r IH]; intros d H; simpl in *; [now left|].
    destruct (IH _ H) as [Hd|Hr]; [|right; now right].
    apply dict_set_In in Hd. destruct Hd as [[-> ->]|Hd];
      [right; now left | now left]. }
  intros H. destruct (G items [] H) as [[]|?]. assumption.
Qed.

Lemma dict_filter_keys_nodup (f : string * V -> bool) d :
  NoDup (Dict.keys d) -> NoDup (Dict.keys (filter f d)).
Proof.
  unfold Dict.keys. induction d as [|[k v] r IH]; simpl; [constructor|].
  intros H. inversion H as [|? ? Hn Hr]; subst.
  destruct (f (k, v)); simpl; [|now apply IH].
  constructor; [|now apply IH].
  intros Hin. apply Hn. apply in_map_iff in Hin.
  destruct Hin as [[k' v'] [E Hin]]. simpl in E. subst k'.
  apply filter_In in Hin. apply in_map_iff. now exists (k, v').
Qed.

Lemma dict_comprehension_filter (f : string * V -> bool) d :
  NoDup (Dict.keys d) -> Dict.of_items (filter f d) = filter f d.
Proof.
  intros H. now apply dict_of_items_distinct, dict_filter_keys_nodup.
Qed.

End DictFacts.



(* ===================================================================== *)
(** ** Loops in the monad *)
(* ===================================================================== *)

Lemma for_each_cons {A : Type} (body : A -> M unit) x l tr :
  for_each body (x :: l) tr
  = match body x tr with
    | (tr', inl _) => for_each body l tr'
    | (tr', inr e) => (tr', inr e)
    end.
Proof. reflexivity. Qed.

Lemma for_each_app {A : Type} (body : A -> M unit) l1 l2 tr :
  for_each body (l1 ++ l2) tr
  = match for_each body l1 tr with
    | (tr', inl _) => for_each body l2 tr'
    | (tr', inr e) => (tr', inr e)
    end.
Proof.
  revert tr. induction l1 as [|x r IH]; intros tr; [reflexivity|].
  simpl app. rewrite !for_each_cons.
  destruct (body x tr) as [tr' [u|e]]; [apply IH | reflexivity].
Qed.

Lemma bind_value {A B : Type} (m : M A) (k : A -> M B) tr tr' a :
  m tr = (tr', inl a) -> bind m k tr = k a tr'.
Proof. intros H. unfold bind. now rewrite H. Qed.

Lemma bind_raised {A B : Type} (m : M A) (k : A -> M B) tr tr' e :
  m tr = (tr', inr e) -> bind m k tr = (tr', inr e).
Proof. intros H. unfold bind. now rewrite H. Qed.

Lemma subscript_some {V : Type} (d : Dict.t V) k v tr :
  Dict.get k d = Some v -> subscript d k tr = (tr, inl v).
Proof. intros H. unfold subscript. now rewrite H. Qed.

Lemma subscript_none {V : Type} (d : Dict.t V) k tr :
  Dict.get k d = None -> subscript d k tr = (tr, inr (KeyError k)).
Proof. intros H. unfold subscript. now rewrite H. Qed.

(* ===================================================================== *)
(** ** The source-of-truth resolver *)
(* ===================================================================== *)

Lemma family_changed_files_filter files_map changed :
  NoDup (Dict.keys files_map) ->
  family_changed_files files_map changed
  = filter (fun entry => Path.mem (snd entry) changed) files_map.
Proof. intros H. now apply dict_comprehension_filter. Qed.

Lemma family_changed_files_incl files_map changed lang path :
  In (lang, path) (family_changed_files files_map changed) ->
  In (lang, path) files_map /\ In path changed.
Proof.
  unfold family_changed_files. intros H. apply dict_of_items_In in H.
  apply filter_In in H. simpl in H. now rewrite path_mem_In in H.
Qed.

Lemma family_changed_files_In files_map changed lang path :
  NoDup (Dict.keys files_map) ->
  In (lang, path) (family_changed_files files_map changed)
  <-> In (lang, path) files_map /\ In path changed.
Proof.
  intros H. rewrite (family_changed_files_filter _ _ H), filter_In. simpl.
  now rewrite path_mem_In.
Qed.

(** The default-locale entry of the changed members, on a dictionary. *)
Lemma changed_default files_map changed :
  NoDup (Dict.keys files_map) ->
  Dict.get default_locale (family_changed_files files_map changed)
  = match Dict.get default_locale files_map with
    | Some path => if Path.mem path changed then Some path else None
    | None => None
    end.
Proof.
  intros H. rewrite (family_changed_files_filter _ _ H).
  now rewrite dict_get_filter.
Qed.

Lemma changed_default_absent files_map changed :
  NoDup (Dict.keys files_map) ->
  (forall path,
      Dict.get default_locale files_map = Some path -> ~ In path changed) ->
  Dict.get default_locale (family_changed_files files_map changed) = None.
Proof.
  intros Hd Hn. rewrite (changed_default _ _ Hd).
  destruct (Dict.get default_locale files_map) as [p|]; [|reflexivity].
  destruct (Path.mem p changed) eqn:E; [|reflexivity].
  apply path_mem_In in E. now apply Hn in E.
Qed.

(** A selected source of truth is always an entry of the family. *)
Lemma source_of_truth_In files_map changed lang path :
  source_of_truth files_map changed = Selected lang path ->
  In (lang, path) files_map.
Proof.
  unfold source_of_truth.
  destruct (Dict.get default_locale (family_changed_files files_map changed))
    as [p|] eqn:G.
  - intros [= <- <-]. apply dict_get_In in G.
    now apply family_changed_files_incl in G.
  - destruct (family_changed_files files_map changed) as [|[l p] r] eqn:F.
    + simpl. destruct (Dict.get default_locale files_map) as [p|] eqn:D.
      * intros [= <- <-]. now apply dict_get_In.
      * destruct files_map as [|[l p] r]; [discriminate|].
        intros [= <- <-]. now left.
    + assert (Hin : In (l, p) files_map).
      { apply (family_changed_files_incl files_map changed). rewrite F.
        now left. }
      destruct r as [|e r']; simpl.
      * now intros [= <- <-].
      * discriminate.
Qed.

(** C1.  For every document family (a dictionary from locale to path) and
    change set, the resolver follows the decision order, where the changed
    members are the entries of the family whose path is in the change set:
    - if the default-locale file of the family is in the change set, it is
      selected;
    - else if exactly one member is in the change set, that member is
      selected;
    - else if no member is in the change set, the default-locale member is
      selected when the family has one, otherwise the first-enumerated
      member. *)
Theorem source_of_truth_decision_order
    (files_map : Dict.t Path.t) (changed : list Path.t) :
  NoDup (Dict.keys files_map) ->
  let changed_members := family_changed_files files_map changed in
  (forall lang path,
      In (lang, path) changed_members
      <-> In (lang, path) files_map /\ In path changed) /\
  (forall path,
      Dict.get default_locale files_map = Some path -> In path changed ->
      source_of_truth files_map changed = Selected default_locale path) /\
  ((forall path,
       Dict.get default_locale files_map = Some path -> ~ In path changed) ->
   forall lang path,
     changed_members = [(lang, path)] ->
     source_of_truth files_map changed = Selected lang path) /\
  (changed_members = [] ->
   (forall path,
       Dict.get default_locale files_map = Some path ->
       source_of_truth files_map changed = Selected default_locale path) /\
   (Dict.get default_locale files_map = None ->
    forall lang path rest,
      files_map = (lang, path) :: rest ->
      source_of_truth files_map changed = Selected lang path)).
Proof.
  intros Hd changed_members.
  split; [intros; now apply family_changed_files_In|].
  split; [|split].
  - intros path Hg Hin. unfold source_of_truth.
    rewrite (changed_default _ _ Hd), Hg.
    apply path_mem_In in Hin. now rewrite Hin.
  - intros Hn lang path Hone. unfold source_of_truth.
    rewrite (changed_default_absent _ _ Hd Hn).
    fold changed_members. now rewrite Hone.
  - intros Hnone. unfold source_of_truth. fold changed_members.
    rewrite Hnone. simpl. split.
    + intros path Hg. now rewrite Hg.
    + intros Hg lang path rest ->. simpl in Hg |- *.
      destruct (String.eqb default_locale lang); [discriminate|].
      now rewrite Hg.
Qed.

(** C2.  For every family whose default-locale member is not in the change
    set and that has two or more members in the change set, the resolver
    selects nothing: it reports the changed locales, the loop body emits the
    diagnostic and no other event, and the loop goes on with the families
    that follow, wherever the family stands in the enumeration. *)
Theorem ambiguous_family_is_skipped
    (prefix : string) (files_map : Dict.t Path.t) (changed : list Path.t) :
  NoDup (Dict.keys files_map) ->
  (forall path,
      Dict.get default_locale files_map = Some path -> ~ In path changed) ->
  2 <= List.length (family_changed_files files_map changed) ->
  let langs := Dict.keys (family_changed_files files_map changed) in
  source_of_truth files_map changed = SkipAmbiguous langs /\
  (forall lang path, source_of_truth files_map changed <> Selected lang path) /\
  (forall tr,
      process_family changed (prefix, files_map) tr
      = (tr ++ [Processing prefix; DiagAmbiguous prefix langs], inl tt)) /\
  (forall before rest tr tr',
      for_each (process_family changed) before tr = (tr', inl tt) ->
      for_each (process_family changed)
        (before ++ (prefix, files_map) :: rest) tr
      = for_each (process_family changed) rest
          (tr' ++ [Processing prefix; DiagAmbiguous prefix langs])).
Proof.
  intros Hd Hn Hlen langs.
  assert (Hs : source_of_truth files_map changed = SkipAmbiguous langs).
  { unfold source_of_truth. rewrite (changed_default_absent _ _ Hd Hn).
    destruct (List.length (family_changed_files files_map changed) =? 1) eqn:E1.
    - apply Nat.eqb_eq in E1. lia.
    - destruct (1 <? List.length (family_changed_files files_map changed)) eqn:E2.
      + reflexivity.
      + apply Nat.ltb_ge in E2. lia. }
  assert (Hp : forall tr,
             process_family changed (prefix, files_map) tr
             = (tr ++ [Processing prefix; DiagAmbiguous prefix langs], inl tt)).
  { intros tr. unfold process_family, bind, emit. simpl. rewrite Hs.
    now rewrite <- app_assoc. }
  split; [exact Hs|]. split; [intros l p; rewrite Hs; discriminate|].
  split; [exact Hp|].
  intros before rest tr tr' Hb.
  rewrite for_each_app, Hb, for_each_cons, Hp. reflexivity.
Qed.


(* ===================================================================== *)
(** ** The target planner *)
(* ===================================================================== *)

Lemma locales_map_keys_nodup : NoDup supported_locales.
Proof. apply dict_of_items_keys_nodup. Qed.

Lemma targets_to_create_In files_map l :
  In l (targets_to_create files_map)
  <-> In l supported_locales /\ Dict.mem l files_map = false.
Proof.
  unfold targets_to_create. rewrite filter_In.
  destruct (Dict.mem l files_map); simpl; intuition congruence.
Qed.

Lemma targets_to_update_In files_map lang l :
  In l (targets_to_update files_map lang)
  <-> In l supported_locales /\ Dict.mem l files_map = true /\ l <> lang.
Proof.
  unfold targets_to_update. rewrite filter_In, andb_true_iff, negb_true_iff.
  now rewrite String.eqb_neq.
Qed.

(** C5.  For every family whose elected source of truth has a supported
    locale, the locales to create, the locales to update and the
    source-of-truth locale are pairwise disjoint and cover the supported
    locales: every supported locale is in exactly one of the three, and the
    three together are the supported locales, each once. *)
Theorem targets_partition
    (files_map : Dict.t Path.t) (changed : list Path.t)
    (lang : string) (path : Path.t) :
  source_of_truth files_map changed = Selected lang path ->
  In lang supported_locales ->
  let create := targets_to_create files_map in
  let update := targets_to_update files_map lang in
  (forall l, In l create -> ~ In l update) /\
  ~ In lang create /\
  ~ In lang update /\
  (forall l, In l supported_locales <-> In l create \/ In l update \/ l = lang) /\
  NoDup (create ++ update ++ [lang]) /\
  Permutation supported_locales (create ++ update ++ [lang]).
Proof.
  intros Hs Hsup create update.
  assert (Hmem : Dict.mem lang files_map = true).
  { apply source_of_truth_In in Hs. now apply dict_In_mem in Hs. }
  assert (D1 : forall l, In l create -> ~ In l update).
  { intros l Hc Hu. apply targets_to_create_In in Hc.
    apply targets_to_update_In in Hu. intuition congruence. }
  assert (D2 : ~ In lang create).
  { intros Hc. apply targets_to_create_In in Hc. intuition congruence. }
  assert (D3 : ~ In lang update).
  { intros Hu. apply targets_to_update_In in Hu. intuition congruence. }
  assert (Cov : forall l,
             In l supported_locales <-> In l create \/ In l update \/ l = lang).
  { intros l. unfold create, update.
    rewrite targets_to_create_In, targets_to_update_In. split.
    - intros H. destruct (Dict.mem l files_map) eqn:E; [|now left].
      destruct (string_dec l lang) as [->|Hne]; [now right; right|].
      right; left. tauto.
    - intros [[H _] | [[H _] | E]]; [assumption | assumption | now subst l]. }
  assert (ND : NoDup (create ++ update ++ [lang])).
  { apply NoDup_app.
    - apply NoDup_filter, locales_map_keys_nodup.
    - apply NoDup_app.
      + apply NoDup_filter, locales_map_keys_nodup.
      + repeat constructor. simpl. tauto.
      + intros x Hx [<-|[]]. now apply D3.
    - intros x Hx Hin. apply in_app_or in Hin. destruct Hin as [Hu|[<-|[]]].
      + now apply (D1 x).
      + now apply D2. }
  repeat split; try assumption; try apply Cov.
  apply NoDup_Permutation; [apply locales_map_keys_nodup | exact ND |].
  intros l. rewrite (Cov l), !in_app_iff. simpl. intuition.
Qed.


(* ===================================================================== *)
(** ** What the body of the family loop can do *)
(* ===================================================================== *)

Lemma relative_to_root_run p tr :
  relative_to_root p tr
  = (tr, if Path.is_relative_to p PROJECT_ROOT then inl tt else inr ValueError).
Proof.
  unfold relative_to_root. now destruct (Path.is_relative_to p PROJECT_ROOT).
Qed.

Lemma write_created_trace prefix source_of_truth_path entry tr :
  write_created prefix source_of_truth_path entry tr
  = (tr ++ creation_writes prefix source_of_truth_path [entry],
     if Path.is_relative_to
          (target_path prefix source_of_truth_path (fst entry)) PROJECT_ROOT
     then inl tt else inr ValueError).
Proof.
  unfold write_created, creation_writes, bind, emit. simpl.
  rewrite relative_to_root_run. now rewrite <- app_assoc.
Qed.

Lemma creation_writes_app prefix source_of_truth_path a b :
  creation_writes prefix source_of_truth_path (a ++ b)
  = creation_writes prefix source_of_truth_path a
    ++ creation_writes prefix source_of_truth_path b.
Proof. unfold creation_writes. apply flat_map_app. Qed.

(** The loop over the created files writes them all when every destination
    is below the project root, and stops with [ValueError] right after
    writing the first one that is not. *)
Lemma write_loop_cases prefix source_of_truth_path creation_results tr :
  let run :=
    for_each (write_created prefix source_of_truth_path) creation_results tr in
  (run = (tr ++ creation_writes prefix source_of_truth_path creation_results,
          inl tt)
   /\ forall entry,
       In entry creation_results ->
       Path.is_relative_to
         (target_path prefix source_of_truth_path (fst entry)) PROJECT_ROOT
       = true)
  \/ (exists done entry rest,
         creation_results = done ++ entry :: rest
         /\ (forall x,
                In x done ->
                Path.is_relative_to
                  (target_path prefix source_of_truth_path (fst x))
                  PROJECT_ROOT
                = true)
         /\ Path.is_relative_to
              (target_path prefix source_of_truth_path (fst entry))
              PROJECT_ROOT
            = false
         /\ run
            = (tr ++ creation_writes prefix source_of_truth_path
                       (done ++ [entry]),
               inr ValueError)).
Proof.
  cbv zeta. revert tr.
  induction creation_results as [|entry r IH]; intros tr.
  - left. split; [|intros ? []]. simpl. unfold ret. now rewrite app_nil_r.
  - rewrite for_each_cons, write_created_trace.
    destruct (Path.is_relative_to
                (target_path prefix source_of_truth_path (fst entry))
                PROJECT_ROOT) eqn:R.
    + destruct (IH (tr ++ creation_writes prefix source_of_truth_path [entry]))
        as [[E H]|[done [x [rest [E [Hd [Hx Hr]]]]]]].
      * left. split.
        -- rewrite E, <- app_assoc.
           now rewrite <- (creation_writes_app _ _ [entry] r).
        -- intros y [<-|Hy]; [exact R | now apply H].
      * right. exists (entry :: done), x, rest. split; [now rewrite E|].
        split; [intros y [<-|Hy]; [exact R | now apply Hd]|].
        split; [exact Hx|].
        rewrite Hr, <- app_assoc.
        now rewrite <- (creation_writes_app _ _ [entry] (done ++ [x])).
    + right. exists [], entry, r. repeat split; trivial. intros ? [].
Qed.

Lemma write_loop_written prefix source_of_truth_path creation_results tr :
  exists written,
    fst (for_each (write_created prefix source_of_truth_path)
           creation_results tr)
    = tr ++ creation_writes prefix source_of_truth_path written.
Proof.
  destruct (write_loop_cases prefix source_of_truth_path creation_results tr)
    as [[E _]|[done [entry [rest [_ [_ [_ E]]]]]]];
    cbv zeta in E; rewrite E; eexists; reflexivity.
Qed.

Lemma subscript_all_total {V : Type} (d : Dict.t V) ks tr :
  (forall k, In k ks -> Dict.mem k d = true) ->
  exists vs, subscript_all d ks tr = (tr, inl vs).
Proof.
  induction ks as [|k r IH]; intros H; simpl.
  - now exists [].
  - destruct (dict_mem_get k d (H k (or_introl eq_refl))) as [v Hv].
    destruct IH as [vs Hvs]; [intros k' Hk'; apply H; now right|].
    exists (v :: vs).
    rewrite (bind_value _ _ _ _ _ (subscript_some d k v tr Hv)).
    now rewrite (bind_value _ _ _ _ _ Hvs).
Qed.

Lemma supported_in_locales_map k :
  In k supported_locales -> Dict.mem k locales_map = true.
Proof. intros H. now apply dict_mem_keys. Qed.

Lemma call_returned call results tr :
  translate_files tr call = Returned results ->
  call_translate_files call tr = (tr ++ [Translate call], inl results).
Proof. intros H. unfold call_translate_files. now rewrite H. Qed.

Lemma call_raised call msg tr :
  translate_files tr call = Raised msg ->
  call_translate_files call tr
  = (tr ++ [Translate call], inr (BackendError msg)).
Proof. intros H. unfold call_translate_files. now rewrite H. Qed.

Lemma call_exited call code tr :
  translate_files tr call = Exited code ->
  call_translate_files call tr
  = (tr ++ [Translate call], inr (SystemExit code)).
Proof. intros H. unfold call_translate_files. now rewrite H. Qed.

(** The ways the creation step of a family can go. *)
Lemma create_missing_cases prefix files_map lang path tr :
  let run := create_missing prefix files_map lang path tr in
  run = (tr, inl tt)
  \/ stops_short lang tr run
  \/ (exists call results,
         translate_files tr call = Returned results
         /\ run = (tr ++ Translate call :: creation_writes prefix path results,
                   inl tt))
  \/ (exists call results done entry rest,
         translate_files tr call = Returned results
         /\ results = done ++ entry :: rest
         /\ Path.is_relative_to (target_path prefix path (fst entry))
              PROJECT_ROOT = false
         /\ run = (tr ++ Translate call
                         :: creation_writes prefix path (done ++ [entry]),
                   inr ValueError)).
Proof.
  unfold create_missing, stops_short.
  destruct (is_empty (targets_to_create files_map)); simpl; [now left|].
  destruct (Dict.get lang locales_map) as [full|] eqn:G.
  2:{ right; left; left. split; [reflexivity|].
      now rewrite (bind_raised _ _ _ _ _ (subscript_none _ _ tr G)). }
  rewrite (bind_value _ _ _ _ _ (subscript_some _ _ _ tr G)).
  destruct (subscript_all_total locales_map (targets_to_create files_map) tr)
    as [vs Hvs].
  { intros k Hk. apply supported_in_locales_map.
    now apply targets_to_create_In in Hk. }
  rewrite (bind_value _ _ _ _ _ Hvs).
  match goal with
  | |- context [call_translate_files ?c] =>
      set (call := c); destruct (translate_files tr call)
        as [results|msg|code] eqn:T
  end.
  - rewrite (bind_value _ _ _ _ _ (call_returned _ _ _ T)).
    destruct (write_loop_cases prefix path results (tr ++ [Translate call]))
      as [[E _]|[done [entry [rest [E [_ [Hx Hr]]]]]]]; cbv zeta in *.
    + right; right; left. exists call, results. split; [exact T|].
      rewrite E. now rewrite <- app_assoc.
    + right; right; right. exists call, results, done, entry, rest.
      split; [exact T|]. split; [exact E|]. split; [exact Hx|].
      rewrite Hr. now rewrite <- app_assoc.
  - right; left; right; left. exists call, msg. split; [exact T|].
    now rewrite (bind_raised _ _ _ _ _ (call_raised _ _ _ T)).
  - right; left; right; right. exists call, code. split; [exact T|].
    now rewrite (bind_raised _ _ _ _ _ (call_exited _ _ _ T)).
Qed.

(** The ways the update step of a family can go. *)
Lemma update_existing_cases files_map lang path tr :
  let run := update_existing files_map lang path tr in
  run = (tr, inl tt)
  \/ stops_short lang tr run
  \/ (exists call results,
         translate_files tr call = Returned results
         /\ run = (tr ++ [Translate call], inl tt)).
Proof.
  unfold update_existing, stops_short.
  destruct (is_empty (targets_to_update files_map lang)); simpl; [now left|].
  destruct (subscript_all_total files_map (targets_to_update files_map lang) tr)
    as [ps Hps].
  { intros k Hk. now apply targets_to_update_In in Hk. }
  rewrite (bind_value _ _ _ _ _ Hps).
  destruct (Dict.get lang locales_map) as [full|] eqn:G.
  2:{ right; left; left. split; [reflexivity|].
      now rewrite (bind_raised _ _ _ _ _ (subscript_none _ _ tr G)). }
  rewrite (bind_value _ _ _ _ _ (subscript_some _ _ _ tr G)).
  destruct (subscript_all_total locales_map (targets_to_update files_map lang) tr)
    as [vs Hvs].
  { intros k Hk. apply supported_in_locales_map.
    now apply targets_to_update_In in Hk. }
  rewrite (bind_value _ _ _ _ _ Hvs).
  match goal with
  | |- context [call_translate_files ?c] =>
      set (call := c); destruct (translate_files tr call)
        as [results|msg|code] eqn:T
  end.
  - right; right. exists call, results. split; [exact T|].
    now rewrite (bind_value _ _ _ _ _ (call_returned _ _ _ T)).
  - right; left; right; left. exists call, msg. split; [exact T|].
    now rewrite (bind_raised _ _ _ _ _ (call_raised _ _ _ T)).
  - right; left; right; right. exists call, code. split; [exact T|].
    now rewrite (bind_raised _ _ _ _ _ (call_exited _ _ _ T)).
Qed.


Lemma process_family_unfold changed prefix files_map tr :
  process_family changed (prefix, files_map) tr
  = match source_of_truth files_map changed with
    | SkipAmbiguous langs =>
        (tr ++ [Processing prefix; DiagAmbiguous prefix langs], inl tt)
    | SkipEmpty => (tr ++ [Processing prefix; DiagEmptyFamily prefix], inl tt)
    | Selected lang path =>
        if Path.is_relative_to path PROJECT_ROOT then
          match create_missing prefix files_map lang path
                  (tr ++ [Processing prefix]) with
          | (tr1, inl _) => update_existing files_map lang path tr1
          | (tr1, inr e) => (tr1, inr e)
          end
        else (tr ++ [Processing prefix], inr ValueError)
    end.
Proof.
  unfold process_family. simpl fst. simpl snd.
  rewrite (bind_value _ _ tr (tr ++ [Processing prefix]) tt eq_refl).
  destruct (source_of_truth files_map changed) as [lang path|langs|].
  - unfold bind at 1. rewrite relative_to_root_run.
    now destruct (Path.is_relative_to path PROJECT_ROOT).
  - unfold emit. now rewrite <- app_assoc.
  - unfold emit. now rewrite <- app_assoc.
Qed.

Lemma creation_writes_io prefix path results ev :
  In ev (creation_writes prefix path results) -> is_io ev.
Proof.
  unfold creation_writes. rewrite in_flat_map.
  intros [entry [_ [<-|[<-|[]]]]]; exact I.
Qed.

Lemma source_of_truth_empty files_map changed :
  source_of_truth files_map changed = SkipEmpty -> files_map = [].
Proof.
  unfold source_of_truth.
  destruct (Dict.get default_locale (family_changed_files files_map changed));
    [discriminate|].
  destruct (family_changed_files files_map changed) as [|[l p] [|e r]]; simpl;
    try discriminate.
  destruct (Dict.get default_locale files_map); [discriminate|].
  destruct files_map as [|[l p] r]; [reflexivity | discriminate].
Qed.

(** The events one iteration adds: the announcement of the family, one of
    the two skip diagnostics (the empty-family one for an empty family
    only), or calls and writes. *)
Lemma process_family_events changed prefix files_map tr ev :
  In ev (fst (process_family changed (prefix, files_map) tr)) ->
  In ev tr
  \/ ev = Processing prefix
  \/ (exists langs, ev = DiagAmbiguous prefix langs)
  \/ (ev = DiagEmptyFamily prefix /\ files_map = [])
  \/ is_io ev.
Proof.
  rewrite process_family_unfold.
  destruct (source_of_truth files_map changed) as [lang path|langs|] eqn:S.
  - intros H.
    assert (C : forall tr0 tr1 r,
               create_missing prefix files_map lang path tr0 = (tr1, r) ->
               In ev tr1 -> In ev tr0 \/ is_io ev).
    { intros tr0 tr1 r E Hin.
      destruct (create_missing_cases prefix files_map lang path tr0)
        as [R|[[[_ R]|[[c [m [_ R]]]|[c [m [_ R]]]]]
              |[[c [res [_ R]]]
               |[c [res [done [entry [rest [_ [_ [_ R]]]]]]]]]]];
        cbv zeta in R; rewrite R in E; injection E as <- <-;
        try (now left).
      all: apply in_app_or in Hin; destruct Hin as [?|[<-|Hw]];
        [now left | right; exact I | right].
      all: try (now apply creation_writes_io in Hw).
      all: destruct Hw. }
    assert (U : forall tr0 tr1 r,
               update_existing files_map lang path tr0 = (tr1, r) ->
               In ev tr1 -> In ev tr0 \/ is_io ev).
    { intros tr0 tr1 r E Hin.
      destruct (update_existing_cases files_map lang path tr0)
        as [R|[[[_ R]|[[c [m [_ R]]]|[c [m [_ R]]]]]|[c [res [_ R]]]]];
        cbv zeta in R; rewrite R in E; injection E as <- <-;
        try (now left).
      all: apply in_app_or in Hin; destruct Hin as [?|[<-|[]]];
        [now left | right; exact I]. }
    assert (P : In ev (tr ++ [Processing prefix]) ->
                In ev tr \/ ev = Processing prefix).
    { intros Hin. apply in_app_or in Hin.
      destruct Hin as [?|[<-|[]]]; [now left | now right]. }
    assert (Fin : In ev (tr ++ [Processing prefix]) \/ is_io ev).
    { destruct (Path.is_relative_to path PROJECT_ROOT); [|now left].
      destruct (create_missing prefix files_map lang path
                  (tr ++ [Processing prefix])) as [tr1 [[]|e]] eqn:E.
      - destruct (update_existing files_map lang path tr1) as [tr2 r2] eqn:E2.
        simpl in H. destruct (U _ _ _ E2 H) as [H1|?]; [|now right].
        apply (C _ _ _ E H1).
      - simpl in H. apply (C _ _ _ E H). }
    destruct Fin as [Hin|Hio]; [|tauto].
    destruct (P Hin); tauto.
  - simpl. intros H. apply in_app_or in H.
    destruct H as [?|[<-|[<-|[]]]]; [tauto | tauto |].
    right; right; left. now exists langs.
  - simpl. intros H. apply in_app_or in H.
    destruct H as [?|[<-|[<-|[]]]]; [tauto | tauto |].
    right; right; right; left. split; [reflexivity|].
    now apply source_of_truth_empty in S.
Qed.

(** An exception of the loop body is the failure of the last call to the
    translation client, the [KeyError] of a source-of-truth locale without
    a display name, the exit of the translation client during the last
    call, or the [ValueError] of a path that is not below the project root:
    the source of truth, before any call, or the file written last. *)
Lemma process_family_raises changed prefix files_map tr e :
  snd (process_family changed (prefix, files_map) tr) = inr e ->
  (exists msg tr' call,
      e = BackendError msg
      /\ fst (process_family changed (prefix, files_map) tr)
         = tr' ++ [Translate call]
      /\ translate_files tr' call = Raised msg)
  \/ (exists lang path,
         source_of_truth files_map changed = Selected lang path
         /\ Dict.get lang locales_map = None
         /\ e = KeyError lang)
  \/ (exists code tr' call,
         e = SystemExit code
         /\ fst (process_family changed (prefix, files_map) tr)
            = tr' ++ [Translate call]
         /\ translate_files tr' call = Exited code)
  \/ (e = ValueError
      /\ exists lang path,
          source_of_truth files_map changed = Selected lang path
          /\ ((Path.is_relative_to path PROJECT_ROOT = false
               /\ fst (process_family changed (prefix, files_map) tr)
                  = tr ++ [Processing prefix])
              \/ (exists tr' created content,
                     Path.is_relative_to (target_path prefix path created)
                       PROJECT_ROOT = false
                     /\ fst (process_family changed (prefix, files_map) tr)
                        = tr' ++ [WriteFile (target_path prefix path created)
                                    content]))).
Proof.
  rewrite process_family_unfold.
  destruct (source_of_truth files_map changed) as [lang path|langs|] eqn:S;
    [|discriminate|discriminate].
  destruct (Path.is_relative_to path PROJECT_ROOT) eqn:Rel.
  2:{ simpl. intros [= <-]. right; right; right. split; [reflexivity|].
      exists lang, path. split; [reflexivity|]. left. now split. }
  assert (U : forall tr0,
             snd (update_existing files_map lang path tr0) = inr e ->
             (exists msg tr' call,
                 e = BackendError msg
                 /\ fst (update_existing files_map lang path tr0)
                    = tr' ++ [Translate call]
                 /\ translate_files tr' call = Raised msg)
             \/ (Dict.get lang locales_map = None /\ e = KeyError lang)
             \/ (exists code tr' call,
                    e = SystemExit code
                    /\ fst (update_existing files_map lang path tr0)
                       = tr' ++ [Translate call]
                    /\ translate_files tr' call = Exited code)).
  { intros tr0.
    destruct (update_existing_cases files_map lang path tr0)
      as [R|[[[G R]|[[c [m [T R]]]|[c [m [T R]]]]]|[c [res [_ R]]]]];
      cbv zeta in R; rewrite R; simpl; try discriminate.
    - intros [= <-]. right; left. now split.
    - intros [= <-]. left. now exists m, tr0, c.
    - intros [= <-]. right; right. now exists m, tr0, c. }
  destruct (create_missing_cases prefix files_map lang path
              (tr ++ [Processing prefix]))
    as [R|[[[G R]|[[c [m [T R]]]|[c [m [T R]]]]]
          |[[c [res [_ R]]]
           |[c [res [done [entry [rest [_ [_ [Hx R]]]]]]]]]]];
    cbv zeta in R; rewrite R.
  - intros H. destruct (U _ H) as [?|[[? ?]|?]];
      [now left | right; left; now exists lang, path | now right; right; left].
  - simpl. intros [= <-]. right; left. now exists lang, path.
  - simpl. intros [= <-]. left. now exists m, (tr ++ [Processing prefix]), c.
  - simpl. intros [= <-]. right; right; left.
    now exists m, (tr ++ [Processing prefix]), c.
  - intros H. destruct (U _ H) as [?|[[? ?]|?]];
      [now left | right; left; now exists lang, path | now right; right; left].
  - simpl. intros [= <-]. right; right; right. split; [reflexivity|].
    exists lang, path. split; [reflexivity|]. right.
    exists ((tr ++ [Processing prefix])
              ++ Translate c :: creation_writes prefix path done
              ++ [Mkdir (Path.parent (target_path prefix path (fst entry)))]),
      (fst entry), (snd entry).
    split; [exact Hx|].
    rewrite creation_writes_app. unfold creation_writes at 2. simpl.
    rewrite <- !app_assoc. simpl. now rewrite <- !app_assoc.
Qed.

(** Invariants of a loop: what every iteration preserves on the trace
    holds at the end, and what holds of every exception an iteration can
    raise holds of the exception of the loop. *)
Lemma for_each_invariant {A : Type} (body : A -> M unit) (l : list A)
    (P : list event -> Prop) (Q : exn -> Prop) :
  (forall x tr, In x l -> P tr ->
                P (fst (body x tr))
                /\ (forall e, snd (body x tr) = inr e -> Q e)) ->
  forall tr, P tr ->
             P (fst (for_each body l tr))
             /\ (forall e, snd (for_each body l tr) = inr e -> Q e).
Proof.
  induction l as [|x r IH]; intros H tr Ptr.
  - simpl. split; [exact Ptr | discriminate].
  - rewrite for_each_cons.
    destruct (H x tr (or_introl eq_refl) Ptr) as [P1 Q1].
    destruct (body x tr) as [tr1 [u|e1]]; simpl in P1, Q1.
    + apply IH; [|exact P1]. intros y tr' Hy. apply H. now right.
    + simpl. split; [exact P1|]. intros e [= <-]. now apply Q1.
Qed.


(* ===================================================================== *)
(** ** The family builder *)
(* ===================================================================== *)

Lemma dict_set_set {V : Type} k (v w : V) (d : Dict.t V) :
  Dict.set k v (Dict.set k w d) = Dict.set k v d.
Proof.
  induction d as [|[k0 v0] r IH]; simpl.
  - now rewrite String.eqb_refl.
  - destruct (String.eqb k k0) eqn:E; simpl; rewrite E; [reflexivity|].
    now rewrite IH.
Qed.

(** The two assignments of the loop body amount to one update of the
    family of the file, starting from the empty family for a new key. *)
Lemma add_file_eq root doc_families file :
  add_file root doc_families file
  = if negb (is_candidate file) then doc_families
    else
      let file_path := Path.join (Path.of_string root) file in
      let classified :=
        get_path_prefix_and_lang (Path.to_string file_path)
          default_locale supported_locales in
      let files_map :=
        match Dict.get (fst classified) doc_families with
        | Some files_map => files_map
        | None => []
        end in
      Dict.set (fst classified)
        (Dict.set (snd classified) file_path files_map) doc_families.
Proof.
  unfold add_file. destruct (negb (is_candidate file)); [reflexivity|].
  cbv zeta.
  destruct (get_path_prefix_and_lang _ default_locale supported_locales)
    as [path_prefix lang].
  simpl fst. simpl snd. unfold Dict.mem, families, Dict.t in *.
  destruct (Dict.get path_prefix doc_families) as [files_map|] eqn:G; simpl.
  - now rewrite G.
  - rewrite dict_get_set_same. apply dict_set_set.
Qed.

Lemma classified_locale file_path_str default supported :
  let lang := snd (get_path_prefix_and_lang file_path_str default supported) in
  In lang supported \/ lang = default.
Proof.
  unfold get_path_prefix_and_lang.
  destruct (1 <? _); simpl.
  - destruct (PyStr.mem (PyStr.last_seg _) supported) eqn:S; simpl.
    + left. now apply pystr_mem_In.
    + destruct (PyStr.mem (Path.stem _) supported) eqn:B; simpl;
        [left; now apply pystr_mem_In | now right].
  - destruct (PyStr.mem (Path.stem _) supported) eqn:B; simpl;
      [left; now apply pystr_mem_In | now right].
Qed.

(** What holds of the empty map and is kept by the loop body holds of the
    scanned families. *)
Lemma build_families_ind (I : families -> Prop) :
  I [] ->
  (forall root doc_families file,
      I doc_families -> I (add_file root doc_families file)) ->
  forall walks, I (build_families walks).
Proof.
  intros H0 Hstep walks. unfold build_families.
  assert (F : forall root files fams,
             I fams -> I (fold_left (add_file root) files fams)).
  { intros root files. induction files as [|f r IH]; intros fams Hf; simpl;
      [exact Hf | apply IH, Hstep, Hf]. }
  assert (W : forall walk fams, I fams -> I (scan_directory fams walk)).
  { unfold scan_directory. induction walk as [|[root files] r IH];
      intros fams Hf; simpl; [exact Hf | apply IH, F, Hf]. }
  generalize dependent (@nil (string * Dict.t Path.t)).
  induction walks as [|w r IH]; intros fams Hf; simpl;
    [exact Hf | apply IH, W, Hf].
Qed.

Lemma build_families_wf walks : families_wf (build_families walks).
Proof.
  apply build_families_ind.
  - split; [constructor | intros ? ? []].
  - intros root fams file [Hk Hf]. rewrite add_file_eq.
    destruct (negb (is_candidate file)); [now split|]. cbv zeta.
    set (file_path := Path.join (Path.of_string root) file).
    pose proof (classified_locale (Path.to_string file_path)
                  default_locale supported_locales) as Hl.
    cbv zeta in Hl.
    destruct (get_path_prefix_and_lang (Path.to_string file_path)
                default_locale supported_locales) as [prefix lang].
    simpl in Hl |- *.
    split; [now apply dict_set_keys_nodup|].
    intros prefix' fm Hin. apply dict_set_In in Hin.
    destruct Hin as [[-> ->]|Hin]; [|now apply (Hf prefix')].
    assert (Hold : NoDup (Dict.keys
                            match Dict.get prefix fams with
                            | Some files_map => files_map
                            | None => []
                            end)
                   /\ forall l p,
                       In (l, p) match Dict.get prefix fams with
                                 | Some files_map => files_map
                                 | None => []
                                 end ->
                       In l supported_locales \/ l = default_locale).
    { destruct (Dict.get prefix fams) as [fm0|] eqn:G.
      - apply dict_get_In in G. destruct (Hf _ _ G) as [_ [? ?]]. now split.
      - split; [constructor | intros ? ? []]. }
    destruct Hold as [Hnd Hloc].
    split; [apply dict_set_not_nil|].
    split; [now apply dict_set_keys_nodup|].
    intros l p Hlp. apply dict_set_In in Hlp.
    destruct Hlp as [[-> _]|Hlp]; [exact Hl | now apply (Hloc l p)].
Qed.

Lemma filter_by_changes_incl doc_families changed_files entry :
  In entry (filter_by_changes doc_families changed_files) ->
  In entry doc_families.
Proof.
  unfold filter_by_changes, affected_families.
  destruct (truthy changed_files); [|tauto].
  destruct entry as [prefix files_map].
  intros H. apply dict_of_items_In in H. now apply filter_In in H.
Qed.

(** [main] in terms of what step 2 hands over. *)
Lemma main_unfold changed_files walks tr :
  main changed_files walks tr
  = let doc_families :=
      filter_by_changes (build_families walks) changed_files in
    if truthy changed_files && is_empty doc_families
    then (tr, inr (SystemExit 0))
    else for_each (process_family (changed_files_list changed_files))
           doc_families tr.
Proof.
  unfold main, filter_by_changes, changed_files_list.
  destruct (truthy changed_files); simpl.
  - destruct (is_empty _) eqn:E; reflexivity.
  - reflexivity.
Qed.


(* ===================================================================== *)
(** ** The change filter and the run *)
(* ===================================================================== *)

Lemma family_is_affected_iff changed (files_map : Dict.t Path.t) :
  family_is_affected changed files_map = true
  <-> exists lang path, In (lang, path) files_map /\ In path changed.
Proof.
  unfold family_is_affected, Dict.values. rewrite existsb_exists. split.
  - intros [path [Hin Hm]]. apply in_map_iff in Hin.
    destruct Hin as [[lang p] [E Hin]]. simpl in E. subst p.
    exists lang, path. split; [exact Hin | now apply path_mem_In].
  - intros [lang [path [Hin Hc]]]. exists path. split.
    + apply in_map_iff. now exists (lang, path).
    + now apply path_mem_In.
Qed.

Lemma truthy_iff (s : string) : truthy s = true <-> s <> "".
Proof.
  unfold truthy. rewrite negb_true_iff. apply String.eqb_neq.
Qed.

(** C6, as the code has it.  The filter is gated on the argument, not on
    the change set parsed from it.  With no argument (the empty string) the
    change set is empty and the family map goes on unchanged (full-scan
    mode).  With an argument, the filter keeps, in order, exactly the
    families that have at least one member path in the parsed change set;
    in particular it keeps none when the argument holds no path at all. *)
Theorem filter_by_changes_gate
    (doc_families : families) (changed_files : string) :
  NoDup (Dict.keys doc_families) ->
  (changed_files = "" ->
   changed_files_list changed_files = []
   /\ filter_by_changes doc_families changed_files = doc_families) /\
  (changed_files <> "" ->
   changed_files_list changed_files = parse_changed_files changed_files
   /\ filter_by_changes doc_families changed_files
      = filter
          (fun entry =>
             family_is_affected (parse_changed_files changed_files)
               (snd entry))
          doc_families
   /\ (forall prefix files_map,
          In (prefix, files_map) (filter_by_changes doc_families changed_files)
          <-> In (prefix, files_map) doc_families
              /\ exists lang path,
                  In (lang, path) files_map
                  /\ In path (parse_changed_files changed_files))
   /\ (parse_changed_files changed_files = [] ->
       filter_by_changes doc_families changed_files = [])).
Proof.
  intros Hd.
  unfold changed_files_list, filter_by_changes, affected_families. split.
  - intros ->. now split.
  - intros Hne. apply truthy_iff in Hne. rewrite Hne.
    rewrite (dict_comprehension_filter _ _ Hd).
    split; [reflexivity|]. split; [reflexivity|]. split.
    + intros prefix files_map. rewrite filter_In. simpl.
      now rewrite family_is_affected_iff.
    + intros ->. clear Hd.
      induction doc_families as [|[k fm] r IH]; [reflexivity|].
      simpl. unfold family_is_affected at 1.
      assert (E : existsb (fun path : Path.t => Path.mem path [])
                    (Dict.values fm) = false).
      { induction (Dict.values fm); [reflexivity | assumption]. }
      rewrite E. exact IH.
Qed.

(** C8.  Whenever the family map that step 2 hands over is empty, the run
    ends with a success status and emits nothing: from the empty trace, no
    call to the translation client is issued, be it for creation or for
    update. *)
Theorem empty_filter_short_circuit
    (changed_files : string) (walks : list (list (string * list string))) :
  filter_by_changes (build_families walks) changed_files = [] ->
  (forall tr, fst (main changed_files walks tr) = tr) /\
  exit_status (snd (main changed_files walks [])) = 0 /\
  (forall call, ~ In (Translate call) (fst (main changed_files walks []))).
Proof.
  intros H.
  assert (G : forall tr, fst (main changed_files walks tr) = tr
                         /\ exit_status (snd (main changed_files walks tr)) = 0).
  { intros tr. rewrite main_unfold. cbv zeta. rewrite H. simpl is_empty.
    destruct (truthy changed_files); simpl; now split. }
  split; [intros tr; apply G|]. split; [apply G|].
  intros call. now rewrite (proj1 (G [])).
Qed.

(** The families a loop announces are families of the list it runs over. *)
Lemma for_each_processing changed (l : families) tr p :
  In (Processing p) (fst (for_each (process_family changed) l tr)) ->
  In (Processing p) tr \/ In p (Dict.keys l).
Proof.
  intros H.
  destruct (for_each_invariant (process_family changed) l
              (fun tr' => In (Processing p) tr' ->
                          In (Processing p) tr \/ In p (Dict.keys l))
              (fun _ => True)) with (tr := tr) as [G _].
  - intros [prefix fm] tr' Hin Ptr. split; [|trivial].
    intros Hev. apply process_family_events in Hev.
    destruct Hev as [?|[E|[[? E]|[[E _]|Hio]]]];
      [now apply Ptr | | discriminate | discriminate | destruct Hio].
    injection E as ->. right. apply in_map_iff. now exists (prefix, fm).
  - tauto.
  - now apply G.
Qed.

(** C7, as the code has it.  No handler surrounds the calls to the
    translation client: when it raises while a family is processed, the
    exception leaves the loop.  The run ends there with that exception and
    a failure status, right after the failing call; the families before
    were processed and none of the families after is attempted. *)
Theorem backend_failure_stops_the_run
    (changed : list Path.t) (before rest : families)
    (prefix : string) (files_map : Dict.t Path.t)
    (tr tr1 tr2 : list event) (msg : string) :
  for_each (process_family changed) before tr = (tr1, inl tt) ->
  process_family changed (prefix, files_map) tr1
  = (tr2, inr (BackendError msg)) ->
  for_each (process_family changed) (before ++ (prefix, files_map) :: rest) tr
  = (tr2, inr (BackendError msg)) /\
  exit_status (inr (BackendError msg)) = 1 /\
  (exists tr' call,
      tr2 = tr' ++ [Translate call] /\ translate_files tr' call = Raised msg) /\
  (forall p,
      In (Processing p) tr2 ->
      In (Processing p) tr \/ In p (Dict.keys before) \/ p = prefix).
Proof.
  intros Hb Hp.
  split; [now rewrite for_each_app, Hb, for_each_cons, Hp|].
  split; [reflexivity|]. split.
  - destruct (process_family_raises changed prefix files_map tr1
                (BackendError msg))
      as [[m [tr' [c [E [F T]]]]]
         |[[l [q [_ [_ E]]]]|[[n [? [? [E _]]]]|[E _]]]];
      [now rewrite Hp | | discriminate | discriminate | discriminate].
    injection E as <-. rewrite Hp in F. simpl in F. now exists tr', c.
  - intros p Hin.
    assert (E : fst (for_each (process_family changed)
                       (before ++ [(prefix, files_map)]) tr) = tr2).
    { rewrite for_each_app, Hb, for_each_cons, Hp. reflexivity. }
    rewrite <- E in Hin. apply for_each_processing in Hin.
    destruct Hin as [?|Hin]; [now left|]. right.
    unfold Dict.keys in *. rewrite map_app in Hin. apply in_app_or in Hin.
    destruct Hin as [?|[<-|[]]]; [now left | now right].
Qed.

(** C9.  Every family the scan builds holds at least one entry, so the
    resolver never takes its empty-family branch on it, and no run emits
    the empty-family diagnostic. *)
Theorem scanned_families_nonempty
    (walks : list (list (string * list string))) :
  (forall prefix files_map,
      In (prefix, files_map) (build_families walks) ->
      files_map <> []
      /\ forall changed, source_of_truth files_map changed <> SkipEmpty) /\
  (forall changed_files p,
      ~ In (DiagEmptyFamily p) (fst (main changed_files walks []))).
Proof.
  assert (N : forall prefix files_map,
             In (prefix, files_map) (build_families walks) -> files_map <> []).
  { intros prefix files_map Hin.
    now apply (proj2 (build_families_wf walks)) in Hin. }
  split.
  - intros prefix files_map Hin. split; [now apply (N prefix)|].
    intros changed Hs. apply source_of_truth_empty in Hs.
    now apply (N prefix files_map).
  - intros changed_files p. rewrite main_unfold. cbv zeta.
    destruct (truthy changed_files && is_empty _); [simpl; tauto|].
    destruct (for_each_invariant
                (process_family (changed_files_list changed_files))
                (filter_by_changes (build_families walks) changed_files)
                (fun tr => ~ In (DiagEmptyFamily p) tr)
                (fun _ => True)) with (tr := @nil event) as [G _].
    + intros [prefix fm] tr Hin Ptr. split; [|trivial].
      intros Hev. apply process_family_events in Hev.
      destruct Hev as [?|[E|[[? E]|[[_ E]|Hio]]]];
        [now apply Ptr | discriminate | discriminate | | destruct Hio].
      apply filter_by_changes_incl in Hin. now apply (N prefix fm).
    + simpl. tauto.
    + exact G.
Qed.

(* ===================================================================== *)
(** ** Display-name lookups *)
(* ===================================================================== *)

(** With the default locale among the supported ones, the source of truth
    elected for a scanned family has a supported locale. *)
Lemma selected_locale_supported walks changed_files prefix files_map lang path :
  In default_locale supported_locales ->
  In (prefix, files_map)
     (filter_by_changes (build_families walks) changed_files) ->
  source_of_truth files_map (changed_files_list changed_files)
  = Selected lang path ->
  In lang supported_locales
  /\ In lang (Dict.keys files_map)
  /\ exists full, Dict.get lang locales_map = Some full.
Proof.
  intros Hd Hin Hs. apply filter_by_changes_incl in Hin.
  apply source_of_truth_In in Hs.
  destruct (proj2 (build_families_wf walks) _ _ Hin) as [_ [_ Hloc]].
  assert (Hsup : In lang supported_locales).
  { destruct (Hloc _ _ Hs) as [?| ->]; assumption. }
  split; [exact Hsup|]. split.
  - apply dict_mem_keys. now apply dict_In_mem in Hs.
  - apply dict_mem_get. now apply supported_in_locales_map.
Qed.

(** Under the same precondition no run ends in a [KeyError]. *)
Lemma main_no_key_error walks changed_files tr key :
  In default_locale supported_locales ->
  snd (main changed_files walks tr) <> inr (KeyError key).
Proof.
  intros Hd. rewrite main_unfold. cbv zeta.
  destruct (truthy changed_files && is_empty _); [simpl; discriminate|].
  destruct (for_each_invariant
              (process_family (changed_files_list changed_files))
              (filter_by_changes (build_families walks) changed_files)
              (fun _ => True)
              (fun e => forall k, e <> KeyError k)) with (tr := tr) as [_ G].
  - intros [prefix fm] tr' Hin _. split; [trivial|].
    intros e He k ->. apply process_family_raises in He.
    destruct He
      as [[m [? [? [E _]]]]
         |[[lang [path [Hs [Hg _]]]]|[[n [? [? [E _]]]]|[E _]]]];
      [discriminate| |discriminate|discriminate].
    destruct (selected_locale_supported _ _ _ _ _ _ Hd Hin Hs)
      as [_ [_ [full Hf]]]. congruence.
  - trivial.
  - intros H. now apply (G _ H key).
Qed.

(* ===================================================================== *)
(** ** The search for the project root *)
(* ===================================================================== *)

Lemma parent_fixpoint (p : Path.t) :
  Path.eqb (Path.parent p) p = true <-> Path.parts p = [].
Proof.
  rewrite path_eqb_eq. destruct p as [r ps]. unfold Path.parent. simpl.
  split.
  - intros [= H]. destruct ps as [|x l] using rev_ind; [reflexivity|].
    rewrite removelast_last in H.
    apply (f_equal (@List.length string)) in H.
    rewrite length_app in H. simpl in H. lia.
  - intros ->. reflexivity.
Qed.

Lemma ancestor_or_self_refl (p : Path.t) : ancestor_or_self p p.
Proof. split; [reflexivity|]. exists []. now rewrite app_nil_r. Qed.

Lemma ancestor_of_parent (q p : Path.t) :
  ancestor_or_self q (Path.parent p) -> ancestor_or_self q p.
Proof.
  destruct p as [r ps]. unfold ancestor_or_self, Path.parent. simpl.
  intros [Hr [rest Hp]]. split; [exact Hr|].
  destruct ps as [|x l] using rev_ind.
  - exists rest. exact Hp.
  - rewrite removelast_last in Hp. exists (rest ++ [x]).
    now rewrite Hp, app_assoc.
Qed.

(** An ancestor-or-self of [p] is [p] or an ancestor-or-self of its
    parent. *)
Lemma ancestor_or_self_cases (q p : Path.t) :
  ancestor_or_self q p -> q = p \/ ancestor_or_self q (Path.parent p).
Proof.
  destruct p as [r ps], q as [rq qs].
  unfold ancestor_or_self, Path.parent. simpl.
  intros [-> [rest Hp]]. destruct rest as [|x l] using rev_ind.
  - left. now rewrite app_nil_r in Hp; subst.
  - right. split; [reflexivity|]. exists l.
    rewrite Hp, app_assoc. now rewrite removelast_last.
Qed.

Lemma find_project_root_loop_spec (is_dir : Path.t -> bool) :
  forall fuel current_path,
    List.length (Path.parts current_path) < fuel ->
    match find_project_root_loop is_dir fuel current_path with
    | Found project_root =>
        ancestor_or_self project_root current_path
        /\ has_markers is_dir project_root = true
        /\ forall q,
            ancestor_or_self q current_path ->
            List.length (Path.parts project_root)
            < List.length (Path.parts q) ->
            has_markers is_dir q = false
    | FileNotFound =>
        forall q, ancestor_or_self q current_path ->
                  has_markers is_dir q = false
    | OutOfFuel => False
    end.
Proof.
  induction fuel as [|fuel IH]; intros current_path Hlen; [lia|].
  simpl. destruct (has_markers is_dir current_path) eqn:Hm.
  - split; [apply ancestor_or_self_refl|]. split; [exact Hm|].
    intros q [_ [rest Hp]] Hlt. rewrite Hp, length_app in Hlt. lia.
  - destruct (Path.eqb (Path.parent current_path) current_path) eqn:He.
    + apply parent_fixpoint in He. intros q [Hr [rest Hp]].
      rewrite He in Hp. symmetry in Hp. apply app_eq_nil in Hp.
      destruct Hp as [Hq _]. destruct q as [rq qs], current_path as [r ps].
      simpl in *. subst. exact Hm.
    + assert (Hne : Path.parts current_path <> []).
      { intros E. apply parent_fixpoint in E. congruence. }
      assert (Hpl : List.length (Path.parts (Path.parent current_path)) < fuel).
      { destruct current_path as [r ps]. unfold Path.parent. simpl in *.
        destruct ps as [|x l] using rev_ind; [congruence|].
        rewrite removelast_last. rewrite length_app in Hlen. simpl in Hlen.
        lia. }
      specialize (IH _ Hpl).
      destruct (find_project_root_loop is_dir fuel (Path.parent current_path))
        as [root| |].
      * destruct IH as [Ha [Hk Hnear]]. split; [now apply ancestor_of_parent|].
        split; [exact Hk|]. intros q Hq Hlt.
        destruct (ancestor_or_self_cases _ _ Hq) as [->|Hq'];
          [exact Hm | now apply Hnear].
      * intros q Hq.
        destruct (ancestor_or_self_cases _ _ Hq) as [->|Hq'];
          [exact Hm | now apply IH].
      * exact IH.
Qed.

(** X1.  [find_project_root] always ends.  The search starts from the
    resolved start path, [start_path.resolve()].  When it returns a
    directory, that directory is the resolved start path or one of its
    ancestors, it holds the three marker directories [content], [hack] and
    [messages], and no directory between it and the resolved start path
    does: it is the nearest marked one.  It raises [FileNotFoundError]
    exactly when neither the resolved start path nor any of its ancestors
    is marked. *)
Theorem find_project_root_nearest
    (resolve : Path.t -> Path.t) (is_dir : Path.t -> bool)
    (start_path : Path.t) :
  let resolved := resolve start_path in
  find_project_root resolve is_dir start_path <> OutOfFuel /\
  (forall project_root,
      find_project_root resolve is_dir start_path = Found project_root ->
      ancestor_or_self project_root resolved
      /\ is_dir (Path.join project_root "content") = true
      /\ is_dir (Path.join project_root "hack") = true
      /\ is_dir (Path.join project_root "messages") = true
      /\ forall q,
          ancestor_or_self q resolved ->
          List.length (Path.parts project_root) < List.length (Path.parts q) ->
          has_markers is_dir q = false) /\
  (find_project_root resolve is_dir start_path = FileNotFound
   <-> forall q, ancestor_or_self q resolved ->
                 has_markers is_dir q = false).
Proof.
  intros resolved.
  pose proof (find_project_root_loop_spec is_dir
                (S (List.length (Path.parts resolved))) resolved
                (Nat.lt_succ_diag_r _)) as H.
  change (find_project_root_loop is_dir
            (S (List.length (Path.parts resolved))) resolved)
    with (find_project_root resolve is_dir start_path) in H.
  destruct (find_project_root resolve is_dir start_path) as [root| |] eqn:E.
  - destruct H as [Ha [Hm Hnear]]. split; [discriminate|]. split.
    + intros project_root [= <-]. split; [exact Ha|].
      unfold has_markers in Hm. apply andb_prop in Hm. destruct Hm as [Hm H3].
      apply andb_prop in Hm. destruct Hm as [H1 H2]. now repeat split.
    + split; [discriminate|]. intros Hall.
      rewrite (Hall root Ha) in Hm. discriminate.
  - split; [discriminate|]. split; [discriminate|]. now split.
  - contradiction.
Qed.

(* ===================================================================== *)
(** ** What the scan records *)
(* ===================================================================== *)

Lemma dict_get_set_other {V : Type} k k' (v : V) (d : Dict.t V) :
  k <> k' -> Dict.get k (Dict.set k' v d) = Dict.get k d.
Proof.
  intros Hne. induction d as [|[k0 v0] r IH]; simpl.
  - apply String.eqb_neq in Hne. now rewrite Hne.
  - destruct (String.eqb k' k0) eqn:E; simpl.
    + apply String.eqb_eq in E. subst k0.
      apply String.eqb_neq in Hne. now rewrite Hne.
    + now rewrite IH.
Qed.

Lemma dict_In_get {V : Type} k (v : V) (d : Dict.t V) :
  NoDup (Dict.keys d) -> In (k, v) d -> Dict.get k d = Some v.
Proof.
  induction d as [|[k0 v0] r IH]; simpl; [tauto|].
  intros Hd [H|H]; inversion Hd as [|? ? Hn Hr]; subst.
  - injection H as -> ->. now rewrite String.eqb_refl.
  - destruct (String.eqb k k0) eqn:E; [|now apply IH].
    apply String.eqb_eq in E. subst k0. exfalso. apply Hn.
    unfold Dict.keys. apply in_map_iff. now exists (k, v).
Qed.

Lemma add_file_insert root doc_families file :
  add_file root doc_families file
  = if is_candidate file
    then insert_path doc_families (Path.join (Path.of_string root) file)
    else doc_families.
Proof.
  rewrite add_file_eq. destruct (is_candidate file); reflexivity.
Qed.

(** The scan is one pass of [insert_path] over the accepted files. *)
Lemma build_families_fold walks :
  build_families walks = fold_left insert_path (scanned_paths walks) [].
Proof.
  unfold build_families, scanned_paths.
  assert (F : forall root files fams,
             fold_left (add_file root) files fams
             = fold_left insert_path
                 (map (fun file => Path.join (Path.of_string root) file)
                    (filter is_candidate files)) fams).
  { intros root files. induction files as [|f r IH]; intros fams;
      [reflexivity|].
    simpl. rewrite add_file_insert. destruct (is_candidate f); simpl;
      apply IH. }
  assert (W : forall walk fams,
             scan_directory fams walk
             = fold_left insert_path
                 (flat_map
                    (fun step =>
                       map (fun file => Path.join (Path.of_string (fst step)) file)
                         (filter is_candidate (snd step)))
                    walk) fams).
  { unfold scan_directory. induction walk as [|step r IH]; intros fams;
      [reflexivity|].
    simpl. rewrite fold_left_app, <- F. apply IH. }
  generalize (@nil (string * Dict.t Path.t)).
  induction walks as [|w r IH]; intros fams; [reflexivity|].
  simpl. rewrite fold_left_app, <- W. apply IH.
Qed.

Lemma scanned_paths_In walks file_path :
  In file_path (scanned_paths walks)
  <-> exists walk root files file,
      In walk walks /\ In (root, files) walk /\ In file files
      /\ is_candidate file = true
      /\ file_path = Path.join (Path.of_string root) file.
Proof.
  unfold scanned_paths. rewrite in_flat_map. split.
  - intros [walk [Hw H]]. apply in_flat_map in H.
    destruct H as [[root files] [Hs H]]. apply in_map_iff in H.
    destruct H as [file [E H]]. apply filter_In in H. simpl in *.
    exists walk, root, files, file. now repeat split.
  - intros [walk [root [files [file [Hw [Hs [Hf [Hc ->]]]]]]]].
    exists walk. split; [exact Hw|]. apply in_flat_map.
    exists (root, files). split; [exact Hs|]. apply in_map_iff.
    exists file. split; [reflexivity|]. apply filter_In. now split.
Qed.

(** Inserting a file fills the slot of its classification and leaves the
    other slots as they were. *)
Lemma slot_insert_path doc_families file_path prefix lang :
  slot (insert_path doc_families file_path) prefix lang
  = if (String.eqb prefix (fst (classify file_path))
        && String.eqb lang (snd (classify file_path)))%bool
    then Some file_path
    else slot doc_families prefix lang.
Proof.
  unfold slot, insert_path. cbv zeta.
  destruct (classify file_path) as [p l]. simpl fst. simpl snd.
  destruct (String.eqb prefix p) eqn:Ep.
  - apply String.eqb_eq in Ep. subst p. rewrite dict_get_set_same.
    destruct (String.eqb lang l) eqn:El; simpl.
    + apply String.eqb_eq in El. subst l. apply dict_get_set_same.
    + apply String.eqb_neq in El. rewrite (dict_get_set_other _ _ _ _ El).
      unfold families, Dict.t in *.
      destruct (Dict.get prefix doc_families); reflexivity.
  - apply String.eqb_neq in Ep. simpl.
    now rewrite (dict_get_set_other _ _ _ _ Ep).
Qed.

Lemma classify_eqb file_path prefix lang :
  (String.eqb prefix (fst (classify file_path))
   && String.eqb lang (snd (classify file_path)))%bool = true
  <-> classify file_path = (prefix, lang).
Proof.
  destruct (classify file_path) as [p l]. simpl.
  rewrite andb_true_iff, !String.eqb_eq. split.
  - intros [-> ->]. reflexivity.
  - intros [= -> ->]. now split.
Qed.

(** After a pass over a list of files, a slot holds the last file of the
    list that classifies to it. *)
Lemma slot_fold (paths : list Path.t) prefix lang file_path :
  slot (fold_left insert_path paths []) prefix lang = Some file_path
  <-> exists before after,
      paths = before ++ file_path :: after
      /\ classify file_path = (prefix, lang)
      /\ forall q, In q after -> classify q <> (prefix, lang).
Proof.
  induction paths as [|x l IH] using rev_ind.
  - simpl. unfold slot. simpl. split; [discriminate|].
    intros [before [after [H _]]]. now destruct before.
  - rewrite fold_left_app. simpl. rewrite slot_insert_path.
    destruct (String.eqb prefix (fst (classify x))
              && String.eqb lang (snd (classify x)))%bool eqn:E.
    + apply classify_eqb in E. split.
      * intros [= <-]. exists l, []. split; [reflexivity|].
        split; [exact E | intros q []].
      * intros [before [after [Hl [Hc Hafter]]]].
        destruct after as [|y a] using rev_ind.
        -- apply app_inj_tail in Hl. destruct Hl as [_ ->]. reflexivity.
        -- clear IHa. rewrite app_comm_cons, app_assoc in Hl.
           apply app_inj_tail in Hl. destruct Hl as [_ ->].
           exfalso. apply (Hafter y); [|exact E].
           apply in_or_app. right. now left.
    + rewrite IH. split.
      * intros [before [after [-> [Hc Hafter]]]].
        exists before, (after ++ [x]). split; [now rewrite <- app_assoc|].
        split; [exact Hc|]. intros q Hq. apply in_app_or in Hq.
        destruct Hq as [Hq|[<-|[]]]; [now apply Hafter|].
        intros Hx. apply classify_eqb in Hx. congruence.
      * intros [before [after [Hl [Hc Hafter]]]].
        destruct after as [|y a] using rev_ind.
        -- apply app_inj_tail in Hl. destruct Hl as [_ ->].
           apply classify_eqb in Hc. congruence.
        -- clear IHa. rewrite app_comm_cons, app_assoc in Hl.
           apply app_inj_tail in Hl. destruct Hl as [-> ->].
           exists before, a. split; [reflexivity|]. split; [exact Hc|].
           intros q Hq. apply Hafter. apply in_or_app. now left.
Qed.

(** In a scanned family map, holding an entry is filling a slot. *)
Lemma scanned_member_slot walks prefix lang file_path :
  (exists files_map,
      In (prefix, files_map) (build_families walks)
      /\ In (lang, file_path) files_map)
  <-> slot (build_families walks) prefix lang = Some file_path.
Proof.
  destruct (build_families_wf walks) as [Hk Hf]. unfold slot. split.
  - intros [files_map [Hin Hm]].
    rewrite (dict_In_get _ _ _ Hk Hin).
    apply dict_In_get; [|exact Hm]. now apply (Hf prefix files_map).
  - destruct (Dict.get prefix (build_families walks)) as [files_map|] eqn:G;
      [|discriminate].
    intros Hg. exists files_map. split; now apply dict_get_In.
Qed.

(** X2.  Last write wins.  A scanned family holds a file under a locale
    exactly when that file is the last one, in the order of the scan, whose
    classification is that family key and that locale: a later file with
    the same classification replaces an earlier one. *)
Theorem scan_last_write_wins
    (walks : list (list (string * list string)))
    (prefix lang : string) (file_path : Path.t) :
  (exists files_map,
      In (prefix, files_map) (build_families walks)
      /\ In (lang, file_path) files_map)
  <-> exists before after,
      scanned_paths walks = before ++ file_path :: after
      /\ classify file_path = (prefix, lang)
      /\ forall q, In q after -> classify q <> (prefix, lang).
Proof.
  rewrite scanned_member_slot, build_families_fold. apply slot_fold.
Qed.

(** X3.  The scan is sound and leaves no accepted file out.  Every entry
    of a scanned family is a walked file with one of the three accepted
    extensions, joined to the directory it was found in, and it sits under
    the family key and the locale of its own classification.  Conversely
    the family and the locale of every accepted walked file exist in the
    family map.  Family keys are distinct, and a family holds at most one
    file per locale. *)
Theorem scan_sound_and_complete
    (walks : list (list (string * list string))) :
  (forall prefix files_map lang file_path,
      In (prefix, files_map) (build_families walks) ->
      In (lang, file_path) files_map ->
      classify file_path = (prefix, lang)
      /\ exists walk root files file,
          In walk walks /\ In (root, files) walk /\ In file files
          /\ is_candidate file = true
          /\ file_path = Path.join (Path.of_string root) file) /\
  (forall walk root files file,
      In walk walks -> In (root, files) walk -> In file files ->
      is_candidate file = true ->
      let classified := classify (Path.join (Path.of_string root) file) in
      exists files_map file_path,
        In (fst classified, files_map) (build_families walks)
        /\ In (snd classified, file_path) files_map) /\
  NoDup (Dict.keys (build_families walks)) /\
  (forall prefix files_map,
      In (prefix, files_map) (build_families walks) ->
      NoDup (Dict.keys files_map)).
Proof.
  split; [|split; [|split]].
  - intros prefix files_map lang file_path Hin Hm.
    assert (Hs : slot (build_families walks) prefix lang = Some file_path).
    { apply scanned_member_slot. now exists files_map. }
    rewrite build_families_fold in Hs. apply slot_fold in Hs.
    destruct Hs as [before [after [Hl [Hc _]]]]. split; [exact Hc|].
    apply scanned_paths_In. rewrite Hl. apply in_or_app. right. now left.
  - intros walk root files file Hw Hs Hf Hc classified.
    assert (Hin : In (Path.join (Path.of_string root) file)
                    (scanned_paths walks)).
    { apply scanned_paths_In. now exists walk, root, files, file. }
    assert (G : forall paths,
               In (Path.join (Path.of_string root) file) paths ->
               exists file_path,
                 slot (fold_left insert_path paths [])
                   (fst classified) (snd classified) = Some file_path).
    { induction paths as [|x l IH] using rev_ind; [intros []|].
      intros Hx. rewrite fold_left_app. simpl. rewrite slot_insert_path.
      destruct (String.eqb (fst classified) (fst (classify x))
                && String.eqb (snd classified) (snd (classify x)))%bool
        eqn:E; [now exists x|].
      apply in_app_or in Hx. destruct Hx as [Hx|[->|[]]]; [now apply IH|].
      unfold classified in E. rewrite !String.eqb_refl in E. discriminate. }
    destruct (G _ Hin) as [file_path Hslot].
    rewrite <- build_families_fold in Hslot.
    apply scanned_member_slot in Hslot.
    destruct Hslot as [files_map [H1 H2]]. now exists files_map, file_path.
  - apply build_families_wf.
  - intros prefix files_map Hin.
    now apply (proj2 (build_families_wf walks) prefix files_map).
Qed.

(* ===================================================================== *)
(** ** More on the resolver *)
(* ===================================================================== *)

(** X4.  The source of truth of a family is always one of its entries, and
    whenever at least one file of the family is in the change set the
    elected file is itself in the change set: an unchanged file is never
    taken as the basis while a changed one exists. *)
Theorem source_of_truth_prefers_changed
    (files_map : Dict.t Path.t) (changed : list Path.t)
    (lang : string) (path : Path.t) :
  NoDup (Dict.keys files_map) ->
  source_of_truth files_map changed = Selected lang path ->
  In (lang, path) files_map
  /\ ((exists l p, In (l, p) files_map /\ In p changed) -> In path changed).
Proof.
  intros Hd Hs. split; [now apply source_of_truth_In in Hs|].
  intros [l [p [Hin Hc]]].
  assert (Hm : In (l, p) (family_changed_files files_map changed)).
  { apply family_changed_files_In; [exact Hd | now split]. }
  unfold source_of_truth in Hs.
  destruct (Dict.get default_locale (family_changed_files files_map changed))
    as [q|] eqn:G.
  - injection Hs as <- <-. apply dict_get_In in G.
    now apply family_changed_files_incl in G.
  - destruct (family_changed_files files_map changed) as [|[l1 p1] r] eqn:F;
      [destruct Hm|].
    destruct r as [|e r']; simpl in Hs; [|discriminate].
    injection Hs as <- <-.
    apply (family_changed_files_incl files_map changed l1 p1).
    rewrite F. now left.
Qed.

(** X5.  Why a family is skipped.  The resolver reports an empty family
    exactly when the family has no entry.  It reports an ambiguity exactly
    when the default-locale file is not in the change set and two or more
    members are; the locales it reports are then the locales of the changed
    members, in family order.  When no member is in the change set, as in
    full-scan mode, a non-empty family is never skipped. *)
Theorem source_of_truth_skip_reasons
    (files_map : Dict.t Path.t) (changed : list Path.t) :
  NoDup (Dict.keys files_map) ->
  let changed_members :=
    filter (fun entry => Path.mem (snd entry) changed) files_map in
  (source_of_truth files_map changed = SkipEmpty <-> files_map = []) /\
  (forall langs,
      source_of_truth files_map changed = SkipAmbiguous langs
      <-> (forall path,
              Dict.get default_locale files_map = Some path ->
              ~ In path changed)
          /\ 2 <= List.length changed_members
          /\ langs = Dict.keys changed_members) /\
  (changed_members = [] -> files_map <> [] ->
   exists lang path, source_of_truth files_map changed = Selected lang path).
Proof.
  intros Hd changed_members.
  assert (F : family_changed_files files_map changed = changed_members)
    by now apply family_changed_files_filter.
  assert (D : Dict.get default_locale changed_members
              = match Dict.get default_locale files_map with
                | Some path => if Path.mem path changed then Some path else None
                | None => None
                end).
  { rewrite <- F. now apply changed_default. }
  split; [|split].
  - split; [apply source_of_truth_empty|]. intros ->. reflexivity.
  - intros langs. unfold source_of_truth. rewrite F, D. split.
    + intros H.
      destruct (Dict.get default_locale files_map) as [p|] eqn:G.
      * destruct (Path.mem p changed) eqn:M; [discriminate|].
        destruct (List.length changed_members =? 1) eqn:E1.
        { destruct changed_members as [|[l q] r]; discriminate. }
        destruct (1 <? List.length changed_members) eqn:E2.
        -- injection H as <-. apply Nat.ltb_lt in E2.
           split; [|split; [lia | reflexivity]].
           intros path [= <-] Hin. apply path_mem_In in Hin. congruence.
        -- destruct files_map as [|[l q] r]; discriminate.
      * destruct (List.length changed_members =? 1) eqn:E1.
        { destruct changed_members as [|[l q] r]; discriminate. }
        destruct (1 <? List.length changed_members) eqn:E2.
        -- injection H as <-. apply Nat.ltb_lt in E2.
           split; [discriminate | split; [lia | reflexivity]].
        -- destruct files_map as [|[l q] r]; discriminate.
    + intros [Hn [Hlen ->]].
      assert (N : match Dict.get default_locale files_map with
                  | Some path =>
                      if Path.mem path changed then Some path else None
                  | None => None
                  end = None).
      { destruct (Dict.get default_locale files_map) as [p|]; [|reflexivity].
        destruct (Path.mem p changed) eqn:M; [|reflexivity].
        apply path_mem_In in M. now apply Hn in M. }
      rewrite N.
      destruct (List.length changed_members =? 1) eqn:E1;
        [apply Nat.eqb_eq in E1; lia|].
      destruct (1 <? List.length changed_members) eqn:E2;
        [reflexivity | apply Nat.ltb_ge in E2; lia].
  - intros Hnone Hne. unfold source_of_truth. rewrite F, Hnone. simpl.
    destruct (Dict.get default_locale files_map) as [p|];
      [now exists default_locale, p|].
    destruct files_map as [|[l q] r]; [congruence | now exists l, q].
Qed.

(* ===================================================================== *)
(** ** The calls and the writes of a run *)
(* ===================================================================== *)

Lemma subscript_all_values {V : Type} (d : Dict.t V) ks tr tr' vs :
  subscript_all d ks tr = (tr', inl vs) ->
  tr' = tr /\ map (fun k => Dict.get k d) ks = map Some vs.
Proof.
  revert vs. induction ks as [|k r IH]; intros vs; simpl.
  - unfold ret. intros [= <- <-]. now split.
  - unfold bind at 1, subscript.
    destruct (Dict.get k d) as [v|] eqn:G; [|discriminate].
    unfold ret at 1. unfold bind.
    destruct (subscript_all d r tr) as [tr1 [ws|e]] eqn:S; [|discriminate].
    unfold ret. intros [= <- <-].
    destruct (IH ws eq_refl) as [-> Hm]. split; [reflexivity|].
    simpl. now rewrite Hm.
Qed.

Lemma is_empty_false {A : Type} (l : list A) :
  is_empty l = false <-> l <> [].
Proof. destruct l; simpl; split; congruence. Qed.

Lemma creation_writes_no_call prefix path results call :
  ~ In (Translate call) (creation_writes prefix path results).
Proof.
  unfold creation_writes. rewrite in_flat_map.
  intros [entry [_ [H|[H|[]]]]]; discriminate.
Qed.

(** The call of the creation step, when there is one. *)
Lemma create_missing_call changed prefix files_map lang path tr call :
  source_of_truth files_map changed = Selected lang path ->
  In (Translate call) (fst (create_missing prefix files_map lang path tr)) ->
  In (Translate call) tr
  \/ (call_for_family changed files_map call
      /\ write_to_existing_files call = false
      /\ target_languages call <> []).
Proof.
  intros Hs. unfold create_missing.
  destruct (is_empty (targets_to_create files_map)) eqn:Em; simpl;
    [now left|].
  apply is_empty_false in Em.
  destruct (Dict.get lang locales_map) as [full|] eqn:G.
  2:{ rewrite (bind_raised _ _ _ _ _ (subscript_none _ _ tr G)). now left. }
  rewrite (bind_value _ _ _ _ _ (subscript_some _ _ _ tr G)).
  destruct (subscript_all_total locales_map (targets_to_create files_map) tr)
    as [vs Hvs].
  { intros k Hk. apply supported_in_locales_map.
    now apply targets_to_create_In in Hk. }
  rewrite (bind_value _ _ _ _ _ Hvs).
  apply subscript_all_values in Hvs. destruct Hvs as [_ Hnames].
  assert (Hcall : call_for_family changed files_map
                    (mk_call [Path.to_string path] lang full
                       (targets_to_create files_map) vs false)).
  { exists path. simpl. now repeat split. }
  match goal with
  | |- context [call_translate_files ?c] =>
      destruct (translate_files tr c) as [results|msg|code] eqn:T
  end.
  - rewrite (bind_value _ _ _ _ _ (call_returned _ _ _ T)).
    match goal with
    | |- context [for_each ?b results ?t] =>
        destruct (write_loop_written prefix path results t) as [written W]
    end.
    rewrite W. intros Hin.
    apply in_app_or in Hin. destruct Hin as [Hin|Hin].
    + apply in_app_or in Hin. destruct Hin as [?|[E|[]]]; [now left|].
      injection E as <-. right. now split.
    + now apply creation_writes_no_call in Hin.
  - rewrite (bind_raised _ _ _ _ _ (call_raised _ _ _ T)). simpl.
    intros Hin. apply in_app_or in Hin. destruct Hin as [?|[E|[]]]; [now left|].
    injection E as <-. right. now split.
  - rewrite (bind_raised _ _ _ _ _ (call_exited _ _ _ T)). simpl.
    intros Hin. apply in_app_or in Hin. destruct Hin as [?|[E|[]]]; [now left|].
    injection E as <-. right. now split.
Qed.

(** The call of the update step, when there is one. *)
Lemma update_existing_call changed files_map lang path tr call :
  source_of_truth files_map changed = Selected lang path ->
  In (Translate call) (fst (update_existing files_map lang path tr)) ->
  In (Translate call) tr
  \/ (call_for_family changed files_map call
      /\ write_to_existing_files call = true
      /\ target_languages call <> []).
Proof.
  intros Hs. unfold update_existing.
  destruct (is_empty (targets_to_update files_map lang)) eqn:Em; simpl;
    [now left|].
  apply is_empty_false in Em.
  destruct (subscript_all_total files_map (targets_to_update files_map lang) tr)
    as [ps Hps].
  { intros k Hk. now apply targets_to_update_In in Hk. }
  rewrite (bind_value _ _ _ _ _ Hps).
  apply subscript_all_values in Hps. destruct Hps as [_ Hpaths].
  destruct (Dict.get lang locales_map) as [full|] eqn:G.
  2:{ rewrite (bind_raised _ _ _ _ _ (subscript_none _ _ tr G)). now left. }
  rewrite (bind_value _ _ _ _ _ (subscript_some _ _ _ tr G)).
  destruct (subscript_all_total locales_map (targets_to_update files_map lang) tr)
    as [vs Hvs].
  { intros k Hk. apply supported_in_locales_map.
    now apply targets_to_update_In in Hk. }
  rewrite (bind_value _ _ _ _ _ Hvs).
  apply subscript_all_values in Hvs. destruct Hvs as [_ Hnames].
  assert (Hcall : call_for_family changed files_map
                    (mk_call (Path.to_string path :: map Path.to_string ps)
                       lang full (targets_to_update files_map lang) vs true)).
  { exists path. simpl. split; [exact Hs|]. split; [exact G|].
    split; [exact Hnames|]. split; [reflexivity|]. now exists ps. }
  match goal with
  | |- context [call_translate_files ?c] =>
      destruct (translate_files tr c) as [results|msg|code] eqn:T
  end.
  - rewrite (bind_value _ _ _ _ _ (call_returned _ _ _ T)). simpl.
    intros Hin. apply in_app_or in Hin. destruct Hin as [?|[E|[]]]; [now left|].
    injection E as <-. right. now split.
  - rewrite (bind_raised _ _ _ _ _ (call_raised _ _ _ T)). simpl.
    intros Hin. apply in_app_or in Hin. destruct Hin as [?|[E|[]]]; [now left|].
    injection E as <-. right. now split.
  - rewrite (bind_raised _ _ _ _ _ (call_exited _ _ _ T)). simpl.
    intros Hin. apply in_app_or in Hin. destruct Hin as [?|[E|[]]]; [now left|].
    injection E as <-. right. now split.
Qed.

(** The calls one iteration adds are calls for its family. *)
Lemma process_family_call changed prefix files_map tr call :
  In (Translate call) (fst (process_family changed (prefix, files_map) tr)) ->
  In (Translate call) tr
  \/ (call_for_family changed files_map call
      /\ target_languages call <> []).
Proof.
  rewrite process_family_unfold.
  destruct (source_of_truth files_map changed) as [lang path|langs|] eqn:S.
  - assert (P : In (Translate call) (tr ++ [Processing prefix]) ->
                In (Translate call) tr).
    { intros Hin. apply in_app_or in Hin.
      destruct Hin as [?|[?|[]]]; [assumption | discriminate]. }
    destruct (Path.is_relative_to path PROJECT_ROOT);
      [|intros Hin; left; now apply P].
    destruct (create_missing prefix files_map lang path
                (tr ++ [Processing prefix])) as [tr1 r1] eqn:E.
    assert (C : In (Translate call) tr1 ->
                In (Translate call) tr
                \/ (call_for_family changed files_map call
                    /\ target_languages call <> [])).
    { intros Hin.
      destruct (create_missing_call changed prefix files_map lang path
                  (tr ++ [Processing prefix]) call S) as [H|[H [_ Hne]]];
        [now rewrite E | left; now apply P | right; now split]. }
    destruct r1 as [[]|e]; [|exact C].
    intros Hin.
    destruct (update_existing_call changed files_map lang path tr1 call S Hin)
      as [H|[H [_ Hne]]]; [now apply C | right; now split].
  - simpl. intros H. left. apply in_app_or in H.
    destruct H as [?|[?|[?|[]]]]; [assumption | discriminate | discriminate].
  - simpl. intros H. left. apply in_app_or in H.
    destruct H as [?|[?|[?|[]]]]; [assumption | discriminate | discriminate].
Qed.

(** X6.  Every call of the translation client in a run is made for one of
    the families that step 2 hands over, and for that family: its source is
    the elected source of truth, with the display name of the
    configuration; its targets are not empty, hold no locale twice, never
    hold the source locale and are supported locales whose display names
    are passed in the same order; a creation call (not writing to existing
    files) asks for exactly the supported locales the family lacks and
    names the source file alone; an update call asks for exactly the other
    supported locales the family has and names their files after the
    source file. *)
Theorem calls_are_well_formed
    (changed_files : string) (walks : list (list (string * list string)))
    (call : translate_call) :
  In (Translate call) (fst (main changed_files walks [])) ->
  exists prefix files_map,
    In (prefix, files_map)
       (filter_by_changes (build_families walks) changed_files)
    /\ call_for_family (changed_files_list changed_files) files_map call
    /\ target_languages call <> []
    /\ NoDup (target_languages call)
    /\ ~ In (source_language call) (target_languages call)
    /\ forall lang,
        In lang (target_languages call) -> In lang supported_locales.
Proof.
  rewrite main_unfold. cbv zeta.
  destruct (truthy changed_files && is_empty _); [intros []|].
  intros Hin.
  set (fams := filter_by_changes (build_families walks) changed_files) in *.
  set (changed := changed_files_list changed_files) in *.
  assert (G : exists prefix files_map,
             In (prefix, files_map) fams
             /\ call_for_family changed files_map call
             /\ target_languages call <> []).
  { destruct (for_each_invariant (process_family changed) fams
                (fun tr =>
                   In (Translate call) tr ->
                   exists prefix files_map,
                     In (prefix, files_map) fams
                     /\ call_for_family changed files_map call
                     /\ target_languages call <> [])
                (fun _ => True)) with (tr := @nil event) as [G _].
    - intros [prefix fm] tr Hf Ptr. split; [|trivial].
      intros Hc. apply process_family_call in Hc.
      destruct Hc as [Hc|[Hc Hne]]; [now apply Ptr|].
      now exists prefix, fm.
    - intros [].
    - now apply G. }
  destruct G as [prefix [files_map [Hf [Hc Hne]]]].
  exists prefix, files_map. split; [exact Hf|]. split; [exact Hc|].
  split; [exact Hne|].
  destruct Hc as [path [Hs [_ [_ Hmode]]]].
  assert (Hmem : Dict.mem (source_language call) files_map = true).
  { apply source_of_truth_In in Hs. now apply dict_In_mem in Hs. }
  destruct (write_to_existing_files call).
  - destruct Hmode as [-> _]. split; [|split].
    + apply NoDup_filter, locales_map_keys_nodup.
    + intros H. apply targets_to_update_In in H. tauto.
    + intros lang H. now apply targets_to_update_In in H.
  - destruct Hmode as [-> _]. split; [|split].
    + apply NoDup_filter, locales_map_keys_nodup.
    + intros H. apply targets_to_create_In in H. intuition congruence.
    + intros lang H. now apply targets_to_create_In in H.
Qed.

Lemma prepared_writes_app (a b : list event) :
  prepared_writes a -> prepared_writes b -> prepared_writes (a ++ b).
Proof.
  intros Ha Hb p c l1 l2 E. apply app_eq_app in E.
  destruct E as [l [[E1 E2]|[E1 E2]]].
  - destruct l as [|x l'].
    + simpl in E2. rewrite app_nil_r in E1. subst a.
      destruct (Hb p c [] l2 (eq_sym E2)) as [l0 H0].
      now destruct l0.
    + simpl in E2. injection E2 as E3 E4. subst x.
      now apply (Ha p c l1 l').
  - destruct (Hb p c l l2 E2) as [l0 ->]. exists (a ++ l0).
    now rewrite E1, app_assoc.
Qed.

Lemma prepared_writes_nil : prepared_writes [].
Proof. intros p c l1 l2 E. now destruct l1. Qed.

Lemma prepared_writes_other (ev : event) :
  (forall p c, ev <> WriteFile p c) -> prepared_writes [ev].
Proof.
  intros H p c l1 l2 E. destruct l1 as [|x l1]; simpl in E.
  - injection E as E _. now apply H in E.
  - injection E as _ E. now destruct l1.
Qed.

Lemma prepared_writes_pair (p : Path.t) (content : string) :
  prepared_writes [Mkdir (Path.parent p); WriteFile p content].
Proof.
  intros q c l1 l2 E. destruct l1 as [|x l1]; simpl in E; [discriminate|].
  injection E as <- E. destruct l1 as [|y l1]; simpl in E.
  - injection E as <- _ _. now exists [].
  - injection E as _ E. now destruct l1.
Qed.

Lemma prepared_creation_writes prefix path results :
  prepared_writes (creation_writes prefix path results).
Proof.
  induction results as [|entry r IH]; [apply prepared_writes_nil|].
  change (creation_writes prefix path (entry :: r))
    with ([Mkdir (Path.parent (target_path prefix path (fst entry)));
           WriteFile (target_path prefix path (fst entry)) (snd entry)]
          ++ creation_writes prefix path r).
  apply prepared_writes_app; [apply prepared_writes_pair | exact IH].
Qed.

Lemma process_family_prepared changed prefix files_map tr :
  prepared_writes tr ->
  prepared_writes (fst (process_family changed (prefix, files_map) tr)).
Proof.
  intros Htr. rewrite process_family_unfold.
  assert (Hp : prepared_writes (tr ++ [Processing prefix])).
  { apply prepared_writes_app; [exact Htr|].
    apply prepared_writes_other. discriminate. }
  assert (U : forall lang path tr0,
             prepared_writes tr0 ->
             prepared_writes (fst (update_existing files_map lang path tr0))).
  { intros lang path tr0 H0.
    destruct (update_existing_cases files_map lang path tr0)
      as [R|[[[_ R]|[[c [m [_ R]]]|[c [m [_ R]]]]]|[c [res [_ R]]]]];
      cbv zeta in R; rewrite R; simpl; try assumption;
      (apply prepared_writes_app; [exact H0|];
       apply prepared_writes_other; discriminate). }
  assert (W : forall c path written,
             prepared_writes
               ((tr ++ [Processing prefix])
                  ++ Translate c :: creation_writes prefix path written)).
  { intros c path written. apply prepared_writes_app; [exact Hp|].
    change (Translate c :: creation_writes prefix path written)
      with ([Translate c] ++ creation_writes prefix path written).
    apply prepared_writes_app;
      [apply prepared_writes_other; discriminate
      | apply prepared_creation_writes]. }
  destruct (source_of_truth files_map changed) as [lang path|langs|].
  - destruct (Path.is_relative_to path PROJECT_ROOT); [|exact Hp].
    destruct (create_missing_cases prefix files_map lang path
                (tr ++ [Processing prefix]))
      as [R|[[[_ R]|[[c [m [_ R]]]|[c [m [_ R]]]]]
            |[[c [res [_ R]]]
             |[c [res [done [entry [rest [_ [_ [_ R]]]]]]]]]]];
      cbv zeta in R; rewrite R.
    + now apply U.
    + exact Hp.
    + simpl. apply prepared_writes_app; [exact Hp|].
      apply prepared_writes_other. discriminate.
    + simpl. apply prepared_writes_app; [exact Hp|].
      apply prepared_writes_other. discriminate.
    + apply U, W.
    + simpl. apply W.
  - simpl. apply prepared_writes_app; [exact Htr|].
    change [Processing prefix; DiagAmbiguous prefix langs]
      with ([Processing prefix] ++ [DiagAmbiguous prefix langs]).
    apply prepared_writes_app; apply prepared_writes_other; discriminate.
  - simpl. apply prepared_writes_app; [exact Htr|].
    change [Processing prefix; DiagEmptyFamily prefix]
      with ([Processing prefix] ++ [DiagEmptyFamily prefix]).
    apply prepared_writes_app; apply prepared_writes_other; discriminate.
Qed.

(** X7.  In every run, whatever the translation client answers, each file
    the script writes comes right after the creation of the parent
    directories of that very file: no write is ever attempted before its
    directory has been made. *)
Theorem writes_follow_mkdir
    (changed_files : string) (walks : list (list (string * list string)))
    (p : Path.t) (content : string) (l1 l2 : list event) :
  fst (main changed_files walks []) = l1 ++ WriteFile p content :: l2 ->
  exists l0, l1 = l0 ++ [Mkdir (Path.parent p)].
Proof.
  assert (G : prepared_writes (fst (main changed_files walks []))).
  { rewrite main_unfold. cbv zeta.
    destruct (truthy changed_files && is_empty _);
      [apply prepared_writes_nil|].
    destruct (for_each_invariant
                (process_family (changed_files_list changed_files))
                (filter_by_changes (build_families walks) changed_files)
                prepared_writes (fun _ => True)) with (tr := @nil event)
      as [G _]; [|apply prepared_writes_nil|exact G].
    intros [prefix fm] tr _ Ptr. split; [|trivial].
    now apply process_family_prepared. }
  apply G.
Qed.




(* ===================================================================== *)
(** ** Strings and paths: splitting, joining, parsing and printing *)
(* ===================================================================== *)

Lemma append_nil_r (s : string) : (s ++ "")%string = s.
Proof. induction s as [|c r IH]; simpl; [reflexivity | now rewrite IH]. Qed.

Lemma append_assoc (a b c : string) :
  ((a ++ b) ++ c)%string = (a ++ (b ++ c))%string.
Proof. induction a as [|x r IH]; simpl; [reflexivity | now rewrite IH]. Qed.

Lemma length_append (a b : string) :
  String.length (a ++ b)%string = String.length a + String.length b.
Proof. induction a as [|x r IH]; simpl; [reflexivity | now rewrite IH]. Qed.

Lemma occurs_append (c : ascii) (a b : string) :
  occurs c (a ++ b)%string = occurs c a || occurs c b.
Proof.
  induction a as [|x r IH]; simpl; [reflexivity|].
  now rewrite IH, orb_assoc.
Qed.

Lemma free_of_append (c : ascii) (a b : string) :
  free_of c (a ++ b)%string <-> free_of c a /\ free_of c b.
Proof. unfold free_of. rewrite occurs_append. apply orb_false_iff. Qed.

Lemma free_of_cons (c x : ascii) (s : string) :
  free_of c (String x s) <-> x <> c /\ free_of c s.
Proof.
  unfold free_of. simpl. rewrite orb_false_iff.
  now rewrite Ascii.eqb_neq.
Qed.

(** A string without the separator is its own single segment. *)
Lemma split_free (sep : ascii) (s : string) :
  free_of sep s -> PyStr.split sep s = [s].
Proof.
  induction s as [|c r IH]; [reflexivity|].
  intros H. apply free_of_cons in H. destruct H as [Hc Hr].
  simpl. apply Ascii.eqb_neq in Hc. rewrite Hc, (IH Hr). reflexivity.
Qed.

(** Splitting cuts at a separator between two strings. *)
Lemma split_app_sep (sep : ascii) (a b : string) :
  PyStr.split sep (a ++ String sep b)%string
  = PyStr.split sep a ++ PyStr.split sep b.
Proof.
  induction a as [|c r IH]; simpl.
  - now rewrite Ascii.eqb_refl.
  - destruct (Ascii.eqb c sep) eqn:E; rewrite IH; [reflexivity|].
    destruct (PyStr.split sep r) as [|h t] eqn:S;
      [now apply split_not_nil in S | reflexivity].
Qed.

(** The segments of a split hold no separator. *)
Lemma split_In_free (sep : ascii) (s x : string) :
  In x (PyStr.split sep s) -> free_of sep x.
Proof.
  revert x. induction s as [|c r IH]; intros x; simpl.
  - intros [<-|[]]. reflexivity.
  - destruct (Ascii.eqb c sep) eqn:E.
    + intros [<-|H]; [reflexivity | now apply IH].
    + destruct (PyStr.split sep r) as [|h t] eqn:S;
        [now apply split_not_nil in S|].
      intros [<-|H].
      * apply free_of_cons. split; [now apply Ascii.eqb_neq|].
        apply IH. now left.
      * apply IH. now right.
Qed.

(** Splitting a join of separator-free segments gives the segments. *)
Lemma split_join (sep : ascii) (l : list string) :
  l <> [] -> Forall (free_of sep) l ->
  PyStr.split sep (PyStr.join (String sep EmptyString) l) = l.
Proof.
  unfold PyStr.join. induction l as [|x r IH]; [congruence|].
  intros _ Hf. inversion Hf as [|? ? Hx Hr]; subst.
  destruct r as [|y r'].
  - simpl. now apply split_free.
  - change (String.concat (String sep "") (x :: y :: r'))
      with (x ++ String sep (String.concat (String sep "") (y :: r')))%string.
    rewrite split_app_sep, (split_free _ _ Hx), IH; [reflexivity| |exact Hr].
    discriminate.
Qed.

Lemma rfind_free (c : ascii) (s : string) :
  free_of c s -> PyStr.rfind c s = None.
Proof.
  induction s as [|x r IH]; [reflexivity|].
  intros H. apply free_of_cons in H. destruct H as [Hx Hr].
  simpl. rewrite (IH Hr). apply Ascii.eqb_neq in Hx. now rewrite Hx.
Qed.

(** The last occurrence of a character is where the rest holds none. *)
Lemma rfind_app (c : ascii) (a e : string) :
  free_of c e ->
  PyStr.rfind c (a ++ String c e)%string = Some (String.length a).
Proof.
  intros He. induction a as [|x r IH]; simpl.
  - now rewrite (rfind_free _ _ He), Ascii.eqb_refl.
  - now rewrite IH.
Qed.

Lemma substring_all (s : string) : substring 0 (String.length s) s = s.
Proof. induction s as [|c r IH]; simpl; [reflexivity | now rewrite IH]. Qed.

Lemma substring_append_l (a b : string) :
  substring 0 (String.length a) (a ++ b)%string = a.
Proof.
  induction a as [|c r IH]; simpl; [now destruct b | now rewrite IH].
Qed.

Lemma substring_append_r (a b : string) :
  substring (String.length a) (String.length b) (a ++ b)%string = b.
Proof.
  induction a as [|c r IH]; simpl; [apply substring_all | exact IH].
Qed.

(** Where the suffix of a name with an extension starts. *)
Lemma suffix_index_ext (b e : string) :
  b <> "" -> e <> "" -> free_of "." e ->
  Path.suffix_index (b ++ String "." e)%string = Some (String.length b).
Proof.
  intros Hb He Hf. unfold Path.suffix_index. rewrite (rfind_app _ _ _ Hf).
  rewrite length_append. simpl String.length.
  assert (H1 : (0 <? String.length b) = true).
  { apply Nat.ltb_lt. destruct b; [congruence | simpl; lia]. }
  assert (H2 : (String.length b
                <? String.length b + S (String.length e) - 1) = true).
  { apply Nat.ltb_lt. destruct e; [congruence | simpl; lia]. }
  now rewrite H1, H2.
Qed.

Lemma root_of_cases (a : ascii) (r : string) :
  a <> "/"%char ->
  Path.root_of (String a r) = ""
  /\ Path.root_of (String "/" (String a r)) = "/"
  /\ Path.root_of (String "/" (String "/" (String a r))) = "//".
Proof.
  intros Ha.
  destruct a as [[] [] [] [] [] [] [] []];
    try (repeat split; reflexivity).
  now contradiction Ha.
Qed.

Lemma clean_part_head (c : string) :
  clean_part c -> exists a r, c = String a r /\ a <> "/"%char.
Proof.
  intros [Hn [_ Hf]]. destruct c as [|a r]; [congruence|].
  apply free_of_cons in Hf. now exists a, r.
Qed.

Lemma keep_clean_part (c : string) : clean_part c -> Path.keep_part c = true.
Proof.
  intros [Hn [Hd _]]. unfold Path.keep_part.
  apply String.eqb_neq in Hn, Hd. now rewrite Hn, Hd.
Qed.

Lemma filter_keep_clean (l : list string) :
  Forall clean_part l -> filter Path.keep_part l = l.
Proof.
  induction 1 as [|c r Hc Hr IH]; [reflexivity|].
  simpl. now rewrite (keep_clean_part _ Hc), IH.
Qed.

(** A clean component parses to the relative path made of it alone. *)
Lemma of_string_part (c : string) :
  clean_part c -> Path.of_string c = Path.mk "" [c].
Proof.
  intros Hc. unfold Path.of_string.
  destruct (clean_part_head _ Hc) as [a [r [-> Ha]]].
  rewrite (proj1 (root_of_cases a r Ha)).
  rewrite (split_free _ _ (proj2 (proj2 Hc))). simpl filter.
  now rewrite (keep_clean_part _ Hc).
Qed.

Lemma concat_cons (sep x : string) (l : list string) :
  l <> [] ->
  String.concat sep (x :: l) = (x ++ sep ++ String.concat sep l)%string.
Proof. destruct l; [congruence | reflexivity]. Qed.

Lemma join_clean_head (l : list string) :
  l <> [] -> Forall clean_part l ->
  exists a r, PyStr.join "/" l = String a r /\ a <> "/"%char.
Proof.
  intros Hne Hf. destruct l as [|c l']; [congruence|].
  inversion Hf as [|? ? Hc _]; subst.
  destruct (clean_part_head _ Hc) as [a [r [-> Ha]]].
  unfold PyStr.join. destruct l' as [|d l''].
  - now exists a, r.
  - rewrite concat_cons by discriminate. simpl. eauto.
Qed.

Lemma split_cons_sep (sep : ascii) (s : string) :
  PyStr.split sep (String sep s) = "" :: PyStr.split sep s.
Proof. simpl. now rewrite Ascii.eqb_refl. Qed.

(** Printing a path and parsing it again gives the path back. *)
Lemma of_string_to_string (p : Path.t) :
  clean_path p -> Path.of_string (Path.to_string p) = p.
Proof.
  destruct p as [root parts]. intros [Hroot Hparts]. simpl in Hroot, Hparts.
  assert (Hfree : Forall (free_of "/") parts).
  { eapply Forall_impl; [|exact Hparts]. now intros c [_ [_ H]]. }
  destruct parts as [|c l].
  - destruct Hroot as [->|[->| ->]]; reflexivity.
  - destruct (join_clean_head (c :: l)) as [a [r [Hj Ha]]];
      [discriminate | exact Hparts |].
    pose proof (split_join "/" (c :: l)) as Hs.
    change (String "/" "") with "/" in Hs.
    specialize (Hs ltac:(discriminate) Hfree).
    destruct (root_of_cases a r Ha) as [R0 [R1 R2]].
    destruct Hroot as [->|[->| ->]].
    + change (Path.to_string (Path.mk "" (c :: l)))
        with (PyStr.join "/" (c :: l)).
      unfold Path.of_string.
      rewrite Hs. rewrite (filter_keep_clean _ Hparts).
      rewrite Hj. rewrite R0. reflexivity.
    + change (Path.to_string (Path.mk "/" (c :: l)))
        with (String "/" (PyStr.join "/" (c :: l))).
      unfold Path.of_string.
      rewrite Hj, R1, <- Hj. rewrite split_cons_sep, Hs.
      change (filter Path.keep_part ("" :: c :: l))
        with (filter Path.keep_part (c :: l)).
      now rewrite (filter_keep_clean _ Hparts).
    + change (Path.to_string (Path.mk "//" (c :: l)))
        with (String "/" (String "/" (PyStr.join "/" (c :: l)))).
      unfold Path.of_string.
      rewrite Hj, R2, <- Hj. rewrite !split_cons_sep, Hs.
      change (filter Path.keep_part ("" :: "" :: c :: l))
        with (filter Path.keep_part (c :: l)).
      now rewrite (filter_keep_clean _ Hparts).
Qed.

(** Text without a slash appended to a printed path extends its last
    component. *)
Lemma to_string_append (root : string) (ds : list string) (base t : string) :
  (Path.to_string (Path.mk root (ds ++ [base])) ++ t)%string
  = Path.to_string (Path.mk root (ds ++ [base ++ t]%string)).
Proof.
  assert (J : forall ds,
             (PyStr.join "/" (ds ++ [base]) ++ t)%string
             = PyStr.join "/" (ds ++ [base ++ t]%string)).
  { unfold PyStr.join. induction ds0 as [|d ds' IH]; [reflexivity|].
    simpl app. rewrite !concat_cons by (now destruct ds').
    now rewrite !append_assoc, IH. }
  unfold Path.to_string, Path.absolute. simpl Path.root. simpl Path.parts.
  destruct (negb (String.eqb root "")).
  - now rewrite append_assoc, J.
  - destruct ds as [|d ds']; [reflexivity | apply (J (d :: ds'))].
Qed.

Lemma clean_part_append (base t : string) :
  clean_part base -> free_of "/" t -> clean_part (base ++ t)%string.
Proof.
  intros [Hn [Hd Hf]] Ht. split; [|split].
  - destruct base; [congruence | discriminate].
  - destruct base as [|a r]; [congruence|]. simpl. intros [= -> E].
    destruct r; [congruence | discriminate].
  - apply free_of_append. now split.
Qed.

Lemma path_name_last (root : string) (ds : list string) (x : string) :
  Path.name (Path.mk root (ds ++ [x])) = x.
Proof. unfold Path.name. simpl. apply last_last. Qed.

Lemma path_parent_last (root : string) (ds : list string) (x : string) :
  Path.parent (Path.mk root (ds ++ [x])) = Path.mk root ds.
Proof. unfold Path.parent. simpl. now rewrite removelast_last. Qed.

(** The stem and the suffix of a file whose name carries an extension. *)
Lemma stem_suffix_ext (root : string) (ds : list string) (b e : string) :
  b <> "" -> e <> "" -> free_of "." e ->
  let p := Path.mk root (ds ++ [b ++ String "." e]%string) in
  Path.stem p = b /\ Path.suffix p = String "." e.
Proof.
  intros Hb He Hf p. unfold Path.stem, Path.suffix, p.
  rewrite path_name_last, (suffix_index_ext _ _ Hb He Hf). split.
  - apply substring_append_l.
  - rewrite length_append.
    replace (String.length b + String.length (String "." e) - String.length b)
      with (String.length (String "." e)) by lia.
    apply substring_append_r.
Qed.

Lemma mem_true_In (x : string) (l : list string) :
  In x l -> PyStr.mem x l = true.
Proof. apply pystr_mem_In. Qed.

Lemma mem_false_not_In (x : string) (l : list string) :
  ~ In x l -> PyStr.mem x l = false.
Proof. apply pystr_mem_false. Qed.

Lemma clean_path_snoc (root : string) (ds : list string) (x y : string) :
  clean_path (Path.mk root (ds ++ [x])) -> clean_part y ->
  clean_path (Path.mk root (ds ++ [y])).
Proof.
  intros [Hr Hp] Hy. split; [exact Hr|]. simpl in *.
  apply Forall_app in Hp. destruct Hp as [Hd _].
  apply Forall_app. split; [exact Hd | now constructor].
Qed.

(** Joining a clean component to a path appends it. *)
Lemma join_part (p : Path.t) (c : string) :
  clean_part c -> Path.join p c = Path.mk (Path.root p) (Path.parts p ++ [c]).
Proof.
  intros Hc. unfold Path.join. now rewrite (of_string_part _ Hc).
Qed.

(** Classifying a printed path whose name is [stem.ext]: the rules are
    applied to the stem, in the directory of the file. *)
Lemma classify_name_ext (root : string) (ds : list string) (b e : string)
    (default : string) (supported : list string) :
  clean_path (Path.mk root (ds ++ [b ++ String "." e]%string)) ->
  b <> "" -> e <> "" -> free_of "." e ->
  get_path_prefix_and_lang
    (Path.to_string (Path.mk root (ds ++ [b ++ String "." e]%string)))
    default supported
  = let dir_path := Path.mk root ds in
    let segments := PyStr.split "." b in
    if (1 <? List.length segments)
       && PyStr.mem (PyStr.last_seg segments) supported
    then (Path.to_string
            (Path.join dir_path (PyStr.join "." (PyStr.init_segs segments))),
          PyStr.last_seg segments)
    else if PyStr.mem b supported then (Path.to_string dir_path, b)
    else (Path.to_string (Path.join dir_path b), default).
Proof.
  intros Hc Hb He Hf. unfold get_path_prefix_and_lang.
  rewrite (of_string_to_string _ Hc), path_parent_last.
  now rewrite (proj1 (stem_suffix_ext root ds b e Hb He Hf)).
Qed.

(** X12.  A created file comes back to its family.  Take a family whose
    key is a printed path, a source file with an extension, and a
    supported locale [L] written without dot or slash.  The destination
    computed for [L] is classified by the next scan under the same family
    key and the locale [L]:
    - always, when the stem of the source file is a supported locale (the
      bare-locale layout);
    - for a locale other than the default one otherwise, when the key
      names a file (it has a last component);
    - for the default locale, when moreover the last component of the key
      does not itself read as a locale marker: it is no supported locale
      and its last dot-segment, if it has several, is none either. *)
Theorem created_file_round_trip
    (prefix_path source_of_truth_path : Path.t) (e lang : string) :
  let prefix := Path.to_string prefix_path in
  let destination := target_path prefix source_of_truth_path lang in
  let bare := In (Path.stem source_of_truth_path) supported_locales in
  clean_path prefix_path ->
  Path.suffix source_of_truth_path = String "." e ->
  e <> "" -> free_of "." e -> free_of "/" e ->
  lang <> "" -> free_of "." lang -> free_of "/" lang ->
  (bare -> In lang supported_locales ->
   classify destination = (prefix, lang)) /\
  (~ bare -> lang <> default_locale -> In lang supported_locales ->
   Path.parts prefix_path <> [] ->
   classify destination = (prefix, lang)) /\
  (~ bare -> lang = default_locale ->
   forall ds base,
     Path.parts prefix_path = ds ++ [base] ->
     ~ (2 <= List.length (PyStr.split "." base)
        /\ In (PyStr.last_seg (PyStr.split "." base)) supported_locales) ->
     ~ In base supported_locales ->
     classify destination = (prefix, lang)).
Proof.
  intros prefix destination bare Hclean Hext He Hedot Heslash
         Hl Hldot Hlslash.
  assert (Hlang : clean_part lang).
  { split; [exact Hl|]. split; [|exact Hlslash].
    intros ->. discriminate. }
  assert (Hes : free_of "/" (String "." e)).
  { apply free_of_cons. split; [discriminate | exact Heslash]. }
  destruct prefix_path as [root parts].
  unfold destination, target_path, classify. rewrite Hext.
  fold prefix.
  split; [|split].
  - (* bare-locale layout *)
    intros Hbare Hsup. rewrite (mem_true_In _ _ Hbare).
    unfold prefix. rewrite (of_string_to_string _ Hclean).
    assert (Hname : clean_part (lang ++ String "." e)%string)
      by now apply clean_part_append.
    rewrite (join_part _ _ Hname). simpl Path.root. simpl Path.parts.
    rewrite classify_name_ext; try assumption.
    + cbv zeta. rewrite (split_free _ _ Hldot). simpl List.length.
      simpl andb. cbv iota. now rewrite (mem_true_In _ _ Hsup).
    + destruct Hclean as [Hr Hp]. split; [exact Hr|]. simpl in *.
      apply Forall_app. split; [exact Hp | now constructor].
  - (* dotted layout, another locale than the default *)
    intros Hbare Hne Hsup Hparts. rewrite (mem_false_not_In _ _ Hbare).
    apply String.eqb_neq in Hne. rewrite Hne.
    simpl Path.parts in Hparts.
    destruct parts as [|x l] using rev_ind; [congruence|]. clear IHl.
    rename x into base, l into ds.
    assert (Hbase : clean_part base).
    { destruct Hclean as [_ Hp]. simpl in Hp. apply Forall_app in Hp.
      destruct Hp as [_ Hp]. now inversion Hp. }
    unfold prefix. rewrite to_string_append.
    replace (base ++ "." ++ lang ++ String "." e)%string
      with ((base ++ String "." lang) ++ String "." e)%string
      by (now rewrite append_assoc).
    assert (Hstem : clean_part (base ++ String "." lang)%string).
    { apply clean_part_append; [exact Hbase|]. apply free_of_cons.
      split; [discriminate | exact Hlslash]. }
    assert (Hname : clean_part
                      ((base ++ String "." lang) ++ String "." e)%string)
      by now apply clean_part_append.
    assert (Hc' : clean_path
                    (Path.mk root
                       (ds ++ [((base ++ String "." lang)
                                ++ String "." e)%string])))
      by now apply (clean_path_snoc root ds base).
    rewrite (of_string_to_string _ Hc').
    rewrite classify_name_ext; try assumption; [|apply Hstem].
    cbv zeta. rewrite split_app_sep, (split_free _ _ Hldot).
    assert (Hlen : (1 <? List.length (PyStr.split "." base ++ [lang])) = true).
    { apply Nat.ltb_lt. rewrite length_app. simpl.
      destruct (PyStr.split "." base) eqn:S;
        [now apply split_not_nil in S | simpl; lia]. }
    rewrite Hlen. unfold PyStr.last_seg, PyStr.init_segs.
    rewrite last_last, removelast_last, (mem_true_In _ _ Hsup).
    simpl andb. cbv iota.
    pose proof (join_split "." base) as J.
    change (String "." "") with "." in J. rewrite J.
    now rewrite (join_part _ _ Hbase).
  - (* dotted layout, the default locale *)
    intros Hbare -> ds base Hparts Hnodot Hnobare.
    rewrite (mem_false_not_In _ _ Hbare), String.eqb_refl.
    simpl Path.parts in Hparts. subst parts.
    assert (Hbase : clean_part base).
    { destruct Hclean as [_ Hp]. simpl in Hp. apply Forall_app in Hp.
      destruct Hp as [_ Hp]. now inversion Hp. }
    unfold prefix. rewrite to_string_append.
    assert (Hname : clean_part (base ++ String "." e)%string)
      by now apply clean_part_append.
    assert (Hc' : clean_path
                    (Path.mk root (ds ++ [(base ++ String "." e)%string])))
      by now apply (clean_path_snoc root ds base).
    rewrite (of_string_to_string _ Hc').
    rewrite classify_name_ext; try assumption; [|apply Hbase].
    cbv zeta.
    assert (H1 : ((1 <? List.length (PyStr.split "." base))
                  && PyStr.mem (PyStr.last_seg (PyStr.split "." base))
                       supported_locales)%bool = false).
    { destruct (1 <? List.length (PyStr.split "." base)) eqn:L1;
        [|reflexivity].
      destruct (PyStr.mem (PyStr.last_seg (PyStr.split "." base))
                  supported_locales) eqn:M; [|reflexivity].
      exfalso. apply Hnodot. apply Nat.ltb_lt in L1.
      apply pystr_mem_In in M. split; [lia | exact M]. }
    rewrite H1, (mem_false_not_In _ _ Hnobare).
    now rewrite (join_part _ _ Hbase).
Qed.

(** X13.  A default-locale file that does not come back.  When the last
    component of a family key ends in a dot and a supported locale (as for
    the family of [notes.en.zh.md], whose key ends in [notes.en]), the file
    created for the default locale is named with that component and the
    source extension.  The next scan reads the trailing locale as its
    marker: it files the new file under the shorter key and that locale,
    which is another family, and the family it was created for still lacks
    its default-locale file. *)
Theorem created_default_file_lands_elsewhere
    (root : string) (ds : list string) (stem_head marker e : string)
    (source_of_truth_path : Path.t) :
  let base := (stem_head ++ String "." marker)%string in
  let prefix_path := Path.mk root (ds ++ [base]) in
  let prefix := Path.to_string prefix_path in
  let destination := target_path prefix source_of_truth_path default_locale in
  clean_path prefix_path ->
  clean_part stem_head ->
  free_of "." marker ->
  In marker supported_locales ->
  ~ In (Path.stem source_of_truth_path) supported_locales ->
  Path.suffix source_of_truth_path = String "." e ->
  e <> "" -> free_of "." e -> free_of "/" e ->
  classify destination
  = (Path.to_string (Path.mk root (ds ++ [stem_head])), marker)
  /\ fst (classify destination) <> prefix.
Proof.
  intros base prefix_path prefix destination Hclean Hhead Hmdot Hsup Hbare
         Hext He Hedot Heslash.
  assert (Hes : free_of "/" (String "." e)).
  { apply free_of_cons. split; [discriminate | exact Heslash]. }
  assert (Hbase : clean_part base).
  { destruct Hclean as [_ Hp]. simpl in Hp. apply Forall_app in Hp.
    destruct Hp as [_ Hp]. now inversion Hp. }
  assert (Hname : clean_part (base ++ String "." e)%string)
    by now apply clean_part_append.
  assert (Hc' : clean_path
                  (Path.mk root (ds ++ [(base ++ String "." e)%string])))
    by now apply (clean_path_snoc root ds base).
  assert (Hshort : clean_path (Path.mk root (ds ++ [stem_head])))
    by now apply (clean_path_snoc root ds base).
  assert (E : classify destination
              = (Path.to_string (Path.mk root (ds ++ [stem_head])), marker)).
  { unfold destination, target_path, classify. rewrite Hext.
    rewrite (mem_false_not_In _ _ Hbare), String.eqb_refl.
    unfold prefix, prefix_path. rewrite to_string_append.
    rewrite (of_string_to_string _ Hc').
    rewrite classify_name_ext; try assumption; [|apply Hbase].
    cbv zeta. unfold base.
    rewrite split_app_sep, (split_free _ _ Hmdot).
    assert (Hlen : (1 <? List.length (PyStr.split "." stem_head ++ [marker]))
                   = true).
    { apply Nat.ltb_lt. rewrite length_app. simpl.
      destruct (PyStr.split "." stem_head) eqn:S;
        [now apply split_not_nil in S | simpl; lia]. }
    rewrite Hlen. unfold PyStr.last_seg, PyStr.init_segs.
    rewrite last_last, removelast_last, (mem_true_In _ _ Hsup).
    simpl andb. cbv iota.
    pose proof (join_split "." stem_head) as J.
    change (String "." "") with "." in J. rewrite J.
    now rewrite (join_part _ _ Hhead). }
  split; [exact E|]. rewrite E. simpl fst. unfold prefix. intros Heq.
  apply (f_equal Path.of_string) in Heq.
  rewrite (of_string_to_string _ Hshort),
    (of_string_to_string _ Hclean) in Heq.
  injection Heq as Heq. apply app_inv_head in Heq. injection Heq as Heq.
  apply (f_equal String.length) in Heq. unfold base in Heq.
  rewrite length_append in Heq. simpl in Heq. lia.
Qed.

(* ===================================================================== *)
(** ** The change list *)
(* ===================================================================== *)

Lemma keep_part_clean (x s : string) :
  In x (filter Path.keep_part (PyStr.split "/" s)) -> clean_part x.
Proof.
  intros H. apply filter_In in H. destruct H as [Hin Hk].
  unfold Path.keep_part in Hk. apply andb_prop in Hk.
  destruct Hk as [H1 H2]. apply negb_true_iff in H1, H2.
  apply String.eqb_neq in H1, H2.
  split; [exact H1|]. split; [exact H2|]. now apply split_In_free in Hin.
Qed.

Lemma root_of_values (s : string) :
  Path.root_of s = "" \/ Path.root_of s = "/" \/ Path.root_of s = "//".
Proof.
  destruct s as [|a r]; [now left|].
  destruct (ascii_dec a "/") as [->|Ha];
    [|left; apply (root_of_cases a r Ha)].
  destruct r as [|b r']; [right; now left|].
  destruct (ascii_dec b "/") as [->|Hb];
    [|right; left; apply (root_of_cases b r' Hb)].
  destruct r' as [|c r'']; [right; now right|].
  destruct (ascii_dec c "/") as [->|Hc];
    [right; now left | right; right; apply (root_of_cases c r'' Hc)].
Qed.

(** Parsing always gives a clean path. *)
Lemma of_string_clean (s : string) : clean_path (Path.of_string s).
Proof.
  split; [apply root_of_values|]. simpl. apply Forall_forall.
  intros x. apply keep_part_clean.
Qed.

Lemma fold_join_clean (l : list string) (root : string) (ps : list string) :
  Forall clean_part l ->
  fold_left Path.join l (Path.mk root ps) = Path.mk root (ps ++ l).
Proof.
  revert ps. induction l as [|c r IH]; intros ps Hf; simpl.
  - now rewrite app_nil_r.
  - inversion Hf as [|? ? Hc Hr]; subst.
    rewrite (join_part _ _ Hc). simpl. rewrite (IH _ Hr).
    now rewrite <- app_assoc.
Qed.

Lemma py_parts_relative (p : Path.t) :
  Path.root p = "" -> Path.py_parts p = Path.parts p.
Proof. unfold Path.py_parts, Path.absolute. now intros ->. Qed.

Lemma py_parts_absolute (p : Path.t) :
  Path.root p <> "" -> Path.py_parts p = Path.root p :: Path.parts p.
Proof.
  unfold Path.py_parts, Path.absolute. intros H.
  apply String.eqb_neq in H. now rewrite H.
Qed.

Lemma join_path_relative (p q : Path.t) :
  Path.root q = "" ->
  Path.join_path p q = Path.mk (Path.root p) (Path.parts p ++ Path.parts q).
Proof. unfold Path.join_path, Path.absolute. now intros ->. Qed.

Lemma join_path_absolute (p q : Path.t) :
  Path.root q <> "" -> Path.join_path p q = q.
Proof.
  unfold Path.join_path, Path.absolute. intros H.
  apply String.eqb_neq in H. now rewrite H.
Qed.

(** X9.  The project directory name in front of a changed path is
    dropped, once.  For a project root whose name is an ordinary
    component, a path given as [name/s] resolves to the project root
    followed by the components of [s]; so it names the same file as the
    relative path [s] given alone, unless [s] itself starts with the
    project directory name, which is then dropped in its turn.  An
    absolute path is taken as it is. *)
Theorem changed_path_root_name_stripped (s : string) :
  let name := Path.name PROJECT_ROOT in
  let inside :=
    Path.mk (Path.root PROJECT_ROOT)
      (Path.parts PROJECT_ROOT ++ Path.parts (Path.of_string s)) in
  clean_part name ->
  absolute_path (name ++ String "/" s)%string = inside /\
  (Path.root (Path.of_string s) = "" ->
   (forall first rest,
       Path.parts (Path.of_string s) = first :: rest -> first <> name) ->
   absolute_path s = inside) /\
  (Path.root (Path.of_string s) = "" ->
   forall rest,
     Path.parts (Path.of_string s) = name :: rest ->
     absolute_path s
     = Path.mk (Path.root PROJECT_ROOT) (Path.parts PROJECT_ROOT ++ rest)) /\
  (Path.root (Path.of_string s) <> "" ->
   absolute_path s = Path.of_string s).
Proof.
  intros name inside Hname. subst name.
  set (name := Path.name PROJECT_ROOT) in *.
  assert (Hclean : Forall clean_part (Path.parts (Path.of_string s))).
  { apply (proj2 (of_string_clean s)). }
  split; [|split; [|split]].
  - assert (P : Path.of_string (name ++ String "/" s)%string
                = Path.mk "" (name :: Path.parts (Path.of_string s))).
    { unfold Path.of_string at 1.
      destruct (clean_part_head _ Hname) as [a [r [E Ha]]].
      rewrite split_app_sep, (split_free _ _ (proj2 (proj2 Hname))).
      change ([name] ++ PyStr.split "/" s) with (name :: PyStr.split "/" s).
      change (filter Path.keep_part (name :: PyStr.split "/" s))
        with (if Path.keep_part name
              then name :: filter Path.keep_part (PyStr.split "/" s)
              else filter Path.keep_part (PyStr.split "/" s)).
      rewrite (keep_clean_part _ Hname). rewrite E at 1.
      change (String a r ++ String "/" s)%string
        with (String a (r ++ String "/" s)%string).
      now rewrite (proj1 (root_of_cases a _ Ha)). }
    unfold absolute_path. cbv zeta. rewrite P.
    rewrite py_parts_relative by reflexivity. simpl Path.parts.
    cbv beta iota. rewrite String.eqb_refl.
    rewrite (fold_join_clean (filter Path.keep_part (PyStr.split "/" s))
               "" [] Hclean).
    now rewrite join_path_relative by reflexivity.
  - intros Hrel Hfirst. unfold absolute_path. cbv zeta.
    rewrite (py_parts_relative _ Hrel). fold name.
    destruct (Path.parts (Path.of_string s)) as [|first rest] eqn:E.
    + rewrite (join_path_relative _ _ Hrel). unfold inside. now rewrite E.
    + specialize (Hfirst first rest eq_refl).
      apply String.eqb_neq in Hfirst. rewrite Hfirst.
      rewrite (join_path_relative _ _ Hrel). unfold inside. now rewrite E.
  - intros Hrel rest E. unfold absolute_path. cbv zeta.
    rewrite (py_parts_relative _ Hrel). fold name.
    rewrite E, String.eqb_refl.
    rewrite E in Hclean. inversion Hclean as [|? ? _ Hrest]; subst.
    rewrite (fold_join_clean _ "" [] Hrest).
    now rewrite join_path_relative by reflexivity.
  - intros Habs. unfold absolute_path. cbv zeta.
    rewrite (py_parts_absolute _ Habs). fold name.
    assert (Hne : String.eqb (Path.root (Path.of_string s)) name = false).
    { apply String.eqb_neq. intros E.
      destruct Hname as [_ [_ Hf]]. rewrite <- E in Hf.
      simpl Path.root in Hf, Habs.
      destruct (root_of_values s) as [R|[R|R]];
        rewrite R in Hf, Habs; [congruence | discriminate | discriminate]. }
    rewrite Hne. now apply join_path_absolute.
Qed.





(* ===================================================================== *)
(** ** The locale registry *)
(* ===================================================================== *)

Lemma dict_get_app {V : Type} k (a b : Dict.t V) :
  Dict.get k (a ++ b)
  = match Dict.get k a with Some v => Some v | None => Dict.get k b end.
Proof.
  induction a as [|[k0 v0] r IH]; simpl; [reflexivity|].
  destruct (String.eqb k k0); [reflexivity | exact IH].
Qed.

(** In a dictionary built from items, a key has the value of its last
    item. *)
Lemma dict_of_items_get {V : Type} (items : list (string * V)) k :
  Dict.get k (Dict.of_items items) = Dict.get k (rev items).
Proof.
  unfold Dict.of_items.
  assert (G : forall (l : list (string * V)) d,
             Dict.get k
               (fold_left (fun d kv => Dict.set (fst kv) (snd kv) d) l d)
             = match Dict.get k (rev l) with
               | Some v => Some v
               | None => Dict.get k d
               end).
  { induction l as [|[k0 v0] r IH]; intros d; [reflexivity|].
    simpl fold_left. rewrite IH. simpl rev. rewrite dict_get_app.
    destruct (Dict.get k (rev r)); [reflexivity|]. simpl.
    destruct (String.eqb k k0) eqn:E.
    - apply String.eqb_eq in E. subst. apply dict_get_set_same.
    - apply String.eqb_neq in E. now apply dict_get_set_other. }
  rewrite G. now destruct (Dict.get k (rev items)).
Qed.

Lemma dict_of_items_keys {V : Type} (items : list (string * V)) k :
  In k (Dict.keys (Dict.of_items items)) <-> In k (map fst items).
Proof.
  rewrite <- dict_mem_keys. unfold Dict.mem. rewrite dict_of_items_get.
  split.
  - destruct (Dict.get k (rev items)) as [v|] eqn:G; [|discriminate].
    intros _. apply dict_get_In in G. apply in_rev in G.
    apply in_map_iff. now exists (k, v).
  - intros H. apply in_map_iff in H. destruct H as [[k' v] [E H]].
    simpl in E. subst k'. apply in_rev in H. apply dict_In_mem in H.
    unfold Dict.mem in H. now destruct (Dict.get k (rev items)).
Qed.

(** X11.  The locale registry built from the configuration.  Every
    declared code is a supported locale, once: a code declared several
    times is listed a single time, and its display name is the one of its
    last declaration.  Codes and names are taken without surrounding white
    space. *)
Theorem locales_map_last_declaration_wins :
  let declared :=
    map (fun kv => (PyStr.strip (fst kv), PyStr.strip (snd kv)))
      locale_pairs in
  NoDup supported_locales /\
  (forall code, In code supported_locales <-> In code (map fst declared)) /\
  (forall before code name after,
      declared = before ++ (code, name) :: after ->
      ~ In code (map fst after) ->
      Dict.get code locales_map = Some name).
Proof.
  intros declared. split; [apply locales_map_keys_nodup|]. split.
  - intros code. apply dict_of_items_keys.
  - intros before code name after Hd Hlast.
    unfold locales_map. fold declared. rewrite dict_of_items_get, Hd.
    rewrite rev_app_distr. simpl rev. rewrite <- app_assoc, dict_get_app.
    assert (N : Dict.get code (rev after) = None).
    { apply dict_get_none_keys. unfold Dict.keys. rewrite map_rev.
      intros H. apply in_rev in H. now apply Hlast. }
    rewrite N. simpl. now rewrite String.eqb_refl.
Qed.

(* ===================================================================== *)
(** ** The order of a run *)
(* ===================================================================== *)

Lemma announced_app (a b : list event) :
  announced (a ++ b) = announced a ++ announced b.
Proof. apply flat_map_app. Qed.

Lemma announced_creation_writes prefix path results :
  announced (creation_writes prefix path results) = [].
Proof.
  induction results as [|entry r IH]; [reflexivity | exact IH].
Qed.

Lemma create_missing_announced prefix files_map lang path tr :
  announced (fst (create_missing prefix files_map lang path tr))
  = announced tr.
Proof.
  destruct (create_missing_cases prefix files_map lang path tr)
    as [R|[[[_ R]|[[c [m [_ R]]]|[c [m [_ R]]]]]
          |[[c [res [_ R]]]
           |[c [res [done [entry [rest [_ [_ [_ R]]]]]]]]]]];
    cbv zeta in R; rewrite R; simpl fst; try reflexivity;
    rewrite announced_app; simpl; rewrite ?announced_creation_writes;
    apply app_nil_r.
Qed.

Lemma update_existing_announced files_map lang path tr :
  announced (fst (update_existing files_map lang path tr)) = announced tr.
Proof.
  destruct (update_existing_cases files_map lang path tr)
    as [R|[[[_ R]|[[c [m [_ R]]]|[c [m [_ R]]]]]|[c [res [_ R]]]]];
    cbv zeta in R; rewrite R; simpl fst; try reflexivity;
    rewrite announced_app; simpl; apply app_nil_r.
Qed.

(** One iteration announces its family, once. *)
Lemma process_family_announced changed prefix files_map tr :
  announced (fst (process_family changed (prefix, files_map) tr))
  = announced tr ++ [prefix].
Proof.
  rewrite process_family_unfold.
  destruct (source_of_truth files_map changed) as [lang path|langs|].
  - destruct (Path.is_relative_to path PROJECT_ROOT);
      [|simpl fst; apply announced_app].
    pose proof (create_missing_announced prefix files_map lang path
                  (tr ++ [Processing prefix])) as C.
    destruct (create_missing prefix files_map lang path
                (tr ++ [Processing prefix])) as [tr1 [[]|e]];
      simpl fst in C.
    + rewrite update_existing_announced, C. apply announced_app.
    + simpl fst. rewrite C. apply announced_app.
  - simpl fst. apply announced_app.
  - simpl fst. apply announced_app.
Qed.

(** A loop announces the families it runs over, in order, up to the one
    that raises. *)
Lemma for_each_announced changed (l : families) tr :
  exists rest,
    announced tr ++ Dict.keys l
    = announced (fst (for_each (process_family changed) l tr)) ++ rest
    /\ (snd (for_each (process_family changed) l tr) = inl tt -> rest = []).
Proof.
  revert tr. induction l as [|[prefix fm] r IH]; intros tr.
  - exists []. simpl. now split.
  - rewrite for_each_cons.
    pose proof (process_family_announced changed prefix fm tr) as P.
    destruct (process_family changed (prefix, fm) tr) as [tr1 [[]|e]];
      simpl fst in P.
    + destruct (IH tr1) as [rest [E S]]. exists rest. split; [|exact S].
      rewrite <- E, P. simpl. now rewrite <- app_assoc.
    + exists (Dict.keys r). simpl. split; [|discriminate].
      rewrite P. now rewrite <- app_assoc.
Qed.

(** X14.  The families are taken in order, each once.  The families a
    run announces are the first families of the map that step 2 hands
    over, in the order of the map and without repetition; when the run
    completes they are all of them. *)
Theorem families_processed_in_order
    (changed_files : string) (walks : list (list (string * list string))) :
  let run := main changed_files walks [] in
  let handed :=
    Dict.keys (filter_by_changes (build_families walks) changed_files) in
  exists rest,
    handed = announced (fst run) ++ rest
    /\ NoDup (announced (fst run))
    /\ (snd run = inl tt -> rest = []).
Proof.
  intros run handed.
  assert (G : exists rest,
             handed = announced (fst run) ++ rest
             /\ (snd run = inl tt -> rest = [])).
  { unfold run. rewrite main_unfold. cbv zeta.
    destruct (truthy changed_files && is_empty _) eqn:E.
    - exists handed. simpl. split; [reflexivity | discriminate].
    - destruct (for_each_announced (changed_files_list changed_files)
                  (filter_by_changes (build_families walks) changed_files)
                  []) as [rest [H S]].
      exists rest. split; [exact H | exact S]. }
  destruct G as [rest [H S]]. exists rest. split; [exact H|].
  split; [|exact S].
  assert (N : NoDup handed).
  { unfold handed, filter_by_changes, affected_families.
    destruct (truthy changed_files);
      [apply dict_of_items_keys_nodup | apply build_families_wf]. }
  rewrite H in N. now apply NoDup_app_remove_r in N.
Qed.

(* ===================================================================== *)
(** ** Files that differ by their extension only *)
(* ===================================================================== *)

(** X15.  The extension plays no part in the classification: two files
    of one directory whose names are one stem with two extensions have the
    same family key and the same locale.  So the scan keeps one of them
    only: once the second has been met after the last visit of the first,
    the first is in no family. *)
Theorem extension_collision
    (root : string) (ds : list string) (b e1 e2 : string)
    (walks : list (list (string * list string))) :
  let p1 := Path.mk root (ds ++ [b ++ String "." e1]%string) in
  let p2 := Path.mk root (ds ++ [b ++ String "." e2]%string) in
  clean_path p1 -> clean_path p2 ->
  b <> "" ->
  e1 <> "" -> free_of "." e1 ->
  e2 <> "" -> free_of "." e2 ->
  classify p1 = classify p2 /\
  (p1 <> p2 ->
   forall before after,
     scanned_paths walks = before ++ p2 :: after ->
     ~ In p1 after ->
     forall prefix files_map lang,
       In (prefix, files_map) (build_families walks) ->
       ~ In (lang, p1) files_map).
Proof.
  intros p1 p2 Hc1 Hc2 Hb He1 Hd1 He2 Hd2.
  assert (Hsame : classify p1 = classify p2).
  { unfold classify, p1, p2.
    rewrite (classify_name_ext root ds b e1); try assumption.
    now rewrite (classify_name_ext root ds b e2). }
  split; [exact Hsame|].
  intros Hne before after Hscan Hlast prefix files_map lang Hin Hmem.
  assert (Hs : slot (build_families walks) prefix lang = Some p1).
  { apply scanned_member_slot. now exists files_map. }
  rewrite build_families_fold in Hs. apply slot_fold in Hs.
  destruct Hs as [before' [after' [Hscan' [Hclass Hafter]]]].
  rewrite Hscan in Hscan'. apply app_eq_app in Hscan'.
  destruct Hscan' as [l [[E1 E2]|[E1 E2]]].
  - (* the slot's occurrence of p1 is before p2, which has the same
       classification *)
    destruct l as [|x l'].
    + apply Hne. exact (f_equal (fun l => hd p1 l) E2).
    + simpl in E2. injection E2 as _ E2.
      apply (Hafter p2); [|now rewrite <- Hsame].
      rewrite E2. apply in_or_app. right. now left.
  - (* it is after p2, where p1 does not occur *)
    destruct l as [|x l'].
    + apply Hne. exact (eq_sym (f_equal (fun l => hd p1 l) E2)).
    + simpl in E2. injection E2 as _ E2. apply Hlast. rewrite E2.
      apply in_or_app. right. now left.
Qed.

(* ===================================================================== *)
(** ** The path classifier, rule by rule *)
(* ===================================================================== *)

Lemma rfind_none (c : ascii) (s : string) :
  PyStr.rfind c s = None -> free_of c s.
Proof.
  induction s as [|x r IH]; [reflexivity|]. simpl.
  destruct (PyStr.rfind c r); [discriminate|].
  destruct (Ascii.eqb x c) eqn:E; [discriminate|]. intros _.
  apply free_of_cons. split; [now apply Ascii.eqb_neq | now apply IH].
Qed.

(** The last occurrence of a character cuts the string in two, the second
    half holding none. *)
Lemma rfind_some (c : ascii) (s : string) (i : nat) :
  PyStr.rfind c s = Some i ->
  exists a e,
    s = (a ++ String c e)%string /\ String.length a = i /\ free_of c e.
Proof.
  revert i. induction s as [|x r IH]; intros i; simpl; [discriminate|].
  destruct (PyStr.rfind c r) as [j|] eqn:R.
  - intros [= <-]. destruct (IH j eq_refl) as [a [e [-> [Hl He]]]].
    exists (String x a), e. simpl. now rewrite Hl.
  - destruct (Ascii.eqb x c) eqn:E; [|discriminate]. intros [= <-].
    apply Ascii.eqb_eq in E. subst x. exists "", r.
    split; [reflexivity|]. split; [reflexivity|]. now apply rfind_none.
Qed.

(** [stem] and [suffix] cut the name of a path at its extension. *)
Lemma stem_suffix_cut (p : Path.t) (stem ext : string) :
  cut_at_extension (List.last (Path.parts p) "") stem ext ->
  Path.stem p = stem /\ Path.suffix p = ext.
Proof.
  unfold Path.stem, Path.suffix, Path.name.
  generalize (List.last (Path.parts p) ""). intros name [Hn Hc].
  destruct Hc as [[e [-> [He [Hf Hs]]]] | [-> Hno]].
  - rewrite Hn, (suffix_index_ext _ _ Hs He Hf). split.
    + apply substring_append_l.
    + rewrite length_append.
      replace (String.length stem + String.length (String "." e)
               - String.length stem)
        with (String.length (String "." e)) by lia.
      apply substring_append_r.
  - rewrite append_nil_r in Hn. subst stem.
    assert (N : Path.suffix_index name = None).
    { unfold Path.suffix_index.
      destruct (PyStr.rfind "." name) as [i|] eqn:R; [|reflexivity].
      apply rfind_some in R. destruct R as [a [e [E [Hl He]]]].
      destruct (Hno a e E He) as [Ha|Hee].
      - subst a. simpl in Hl. subst i. reflexivity.
      - subst e. rewrite E, length_append. simpl String.length.
        replace (String.length a + 1 - 1) with i by lia.
        now rewrite Nat.ltb_irrefl, andb_false_r. }
    now rewrite N.
Qed.

(** Every name is cut in exactly that way by [stem] and [suffix]. *)
Lemma stem_suffix_cut_total (p : Path.t) :
  cut_at_extension (List.last (Path.parts p) "") (Path.stem p) (Path.suffix p).
Proof.
  unfold Path.stem, Path.suffix, Path.name.
  generalize (List.last (Path.parts p) ""). intros name.
  unfold cut_at_extension, Path.suffix_index.
  destruct (PyStr.rfind "." name) as [i|] eqn:R.
  - destruct (rfind_some _ _ _ R) as [a [e [E [Hl He]]]].
    destruct ((0 <? i) && (i <? String.length name - 1)) eqn:B.
    + apply andb_prop in B. destruct B as [B1 B2].
      apply Nat.ltb_lt in B1, B2.
      rewrite E, length_append in B2. simpl String.length in B2.
      assert (S1 : substring 0 i name = a).
      { rewrite E, <- Hl. apply substring_append_l. }
      assert (S2 : substring i (String.length name - i) name = String "." e).
      { rewrite E, length_append, <- Hl.
        replace (String.length a + String.length (String "." e)
                 - String.length a)
          with (String.length (String "." e)) by lia.
        apply substring_append_r. }
      rewrite S1, S2. split; [exact E|]. left. exists e.
      split; [reflexivity|]. split; [|split; [exact He|]].
      * intros ->. simpl in B2. lia.
      * intros ->. simpl in Hl. lia.
    + split; [now rewrite append_nil_r|]. right. split; [reflexivity|].
      intros b e' E' He'. rewrite E' in R. rewrite (rfind_app _ _ _ He') in R.
      injection R as <-. rewrite E', length_append in B.
      simpl String.length in B.
      apply andb_false_iff in B. destruct B as [B|B].
      * apply Nat.ltb_ge in B. left. destruct b; [reflexivity | simpl in B; lia].
      * apply Nat.ltb_ge in B. right.
        destruct e'; [reflexivity | simpl in B; lia].
  - split; [now rewrite append_nil_r|]. right. split; [reflexivity|].
    intros b e' E' He'. rewrite E' in R. rewrite (rfind_app _ _ _ He') in R.
    discriminate.
Qed.

(** A string without a slash parses to at most one component. *)
Lemma of_string_segment (c : string) :
  free_of "/" c ->
  Path.of_string c = Path.mk "" (if Path.keep_part c then [c] else []).
Proof.
  intros Hf. unfold Path.of_string. rewrite (split_free _ _ Hf).
  change (filter Path.keep_part [c])
    with (if Path.keep_part c then [c] else []).
  assert (R : Path.root_of c = "").
  { destruct c as [|a r]; [reflexivity|]. apply free_of_cons in Hf.
    destruct Hf as [Ha _]. apply (root_of_cases a r Ha). }
  now rewrite R.
Qed.

(** Joining it to a path appends it, unless it is empty or a lone dot. *)
Lemma join_segment (root : string) (ds : list string) (c : string) :
  free_of "/" c ->
  Path.join (Path.mk root ds) c
  = Path.mk root
      (if String.eqb c "" || String.eqb c "." then ds else ds ++ [c]).
Proof.
  intros Hf. unfold Path.join. rewrite (of_string_segment _ Hf).
  unfold Path.keep_part, Path.absolute. simpl.
  destruct (String.eqb c ""), (String.eqb c "."); simpl;
    now rewrite ?app_nil_r.
Qed.

Lemma join_snoc (sep : string) (l : list string) (x : string) :
  l <> [] ->
  PyStr.join sep (l ++ [x]) = (PyStr.join sep l ++ sep ++ x)%string.
Proof.
  unfold PyStr.join. induction l as [|a r IH]; [congruence|]. intros _.
  destruct r as [|b r']; [reflexivity|].
  change ((a :: b :: r') ++ [x]) with (a :: ((b :: r') ++ [x])).
  rewrite (concat_cons sep a ((b :: r') ++ [x])) by discriminate.
  rewrite IH by discriminate.
  rewrite (concat_cons sep a (b :: r')) by discriminate.
  now rewrite !append_assoc.
Qed.

(** A string with several segments is what comes before its last
    separator, the separator, and its last segment. *)
Lemma split_segments (sep : ascii) (s : string) :
  1 < List.length (PyStr.split sep s) ->
  s = (PyStr.join (String sep "") (PyStr.init_segs (PyStr.split sep s))
       ++ String sep (PyStr.last_seg (PyStr.split sep s)))%string
  /\ free_of sep (PyStr.last_seg (PyStr.split sep s)).
Proof.
  intros Hlen. pose proof (join_split sep s) as J.
  pose proof (split_In_free sep s) as F.
  unfold PyStr.init_segs, PyStr.last_seg.
  destruct (PyStr.split sep s) as [|x l] using rev_ind;
    [simpl in Hlen; lia|]. clear IHl.
  rewrite removelast_last, last_last. split.
  - rewrite <- J at 1. apply join_snoc.
    intros ->. simpl in Hlen. lia.
  - apply F. apply in_or_app. right. now left.
Qed.

(** The last component of a parsed path holds no slash. *)
Lemma last_part_free (s : string) (root : string) (parts : list string) :
  Path.of_string s = Path.mk root parts ->
  free_of "/" (List.last parts "").
Proof.
  intros H. pose proof (of_string_clean s) as [_ Hc]. rewrite H in Hc.
  simpl in Hc. destruct parts as [|x l] using rev_ind; [reflexivity|].
  rewrite last_last. apply Forall_app in Hc. destruct Hc as [_ Hc].
  inversion Hc as [|? ? [_ [_ Hx]] _]. exact Hx.
Qed.

(** C3.  For every file path, default locale and list of supported
    locales, [get_path_prefix_and_lang] applies three rules, the first that
    matches winning.  Let the path parse into a root and components, the
    last component being the file name and the others the directory, and
    let the file name be its stem followed by its extension.
    - dotted form: when the stem is [head.L] with [L] free of dots and a
      supported locale, the locale is [L] and the key is the directory
      joined with [head];
    - bare form: otherwise, when the stem is a supported locale, the stem
      is the locale and the key is the directory;
    - fallback: otherwise the locale is the default one and the key is the
      directory joined with the stem.
    Joining the directory with an empty segment or a lone dot gives the
    directory itself. *)
Theorem get_path_prefix_and_lang_rules
    (file_path_str default : string) (supported : list string)
    (root : string) (parts : list string) (stem ext : string) :
  Path.of_string file_path_str = Path.mk root parts ->
  cut_at_extension (List.last parts "") stem ext ->
  let directory := List.removelast parts in
  let key_under := fun segment : string =>
    Path.to_string
      (Path.mk root
         (if String.eqb segment "" || String.eqb segment "."
          then directory else directory ++ [segment])) in
  let dotted := fun head L : string =>
    stem = (head ++ String "." L)%string
    /\ free_of "." L /\ In L supported in
  (forall head L,
      dotted head L ->
      get_path_prefix_and_lang file_path_str default supported
      = (key_under head, L)) /\
  ((forall head L, ~ dotted head L) ->
   In stem supported ->
   get_path_prefix_and_lang file_path_str default supported
   = (Path.to_string (Path.mk root directory), stem)) /\
  ((forall head L, ~ dotted head L) ->
   ~ In stem supported ->
   get_path_prefix_and_lang file_path_str default supported
   = (key_under stem, default)).
Proof.
  intros Hparse Hcut directory key_under dotted.
  assert (Hstem : free_of "/" stem).
  { pose proof (last_part_free _ _ _ Hparse) as Hn.
    rewrite (proj1 Hcut) in Hn. now apply free_of_append in Hn. }
  unfold get_path_prefix_and_lang. rewrite Hparse.
  rewrite (proj1 (stem_suffix_cut (Path.mk root parts) stem ext Hcut)).
  change (Path.parent (Path.mk root parts)) with (Path.mk root directory).
  assert (Hno : (forall head L, ~ dotted head L) ->
                (1 <? List.length (PyStr.split "." stem))
                && PyStr.mem (PyStr.last_seg (PyStr.split "." stem)) supported
                = false).
  { intros Hnd. destruct (1 <? List.length (PyStr.split "." stem)) eqn:Hlen;
      [|reflexivity].
    apply Nat.ltb_lt in Hlen. destruct (split_segments "." stem Hlen) as [E F].
    apply pystr_mem_false. intros Hin. apply (Hnd _ _ (conj E (conj F Hin))). }
  split; [|split].
  - intros head L [E [F Hin]].
    assert (Hhead : free_of "/" head).
    { rewrite E in Hstem. now apply free_of_append in Hstem. }
    rewrite E, split_app_sep, (split_free _ _ F).
    assert (Hlen : (1 <? List.length (PyStr.split "." head ++ [L])) = true).
    { apply Nat.ltb_lt. rewrite length_app. simpl.
      destruct (PyStr.split "." head) eqn:S;
        [now apply split_not_nil in S | simpl; lia]. }
    rewrite Hlen. unfold PyStr.last_seg, PyStr.init_segs.
    rewrite last_last, removelast_last, (mem_true_In _ _ Hin).
    simpl andb. cbv iota.
    change "."%string with (String "." "") at 1. rewrite join_split.
    now rewrite (join_segment _ _ _ Hhead).
  - intros Hnd Hin. rewrite (Hno Hnd), (mem_true_In _ _ Hin). reflexivity.
  - intros Hnd Hnin. rewrite (Hno Hnd), (mem_false_not_In _ _ Hnin).
    now rewrite (join_segment _ _ _ Hstem).
Qed.

(* ===================================================================== *)
(** ** Where a created file goes *)
(* ===================================================================== *)

(** C4.  The destination of the file created for a locale [L], a
    component of a path (not empty, not a lone dot, without slash), from a
    source file whose name is a stem followed by an extension [ext].
    - When the stem of the source file is a supported locale, the family
      key names a directory and the destination is the file [L ext] of that
      directory.
    - Otherwise the family key [P] names a file of a directory: the
      destination is the file of that directory printed [P ext] when [L] is
      the default locale, and [P.L ext] when it is not ([ext] carries its
      own dot).
    In the three cases the file is written right after the creation of that
    directory and of its parents; the report that follows the write raises
    [ValueError] when the destination is not below the project root. *)
Theorem target_path_synthesis
    (root : string) (ds : list string) (base : string)
    (source_of_truth_path : Path.t) (stem ext L content : string)
    (tr : list event) :
  let family_directory := Path.mk root ds in
  let family_file := Path.mk root (ds ++ [base]) in
  let created := fun name : string => Path.mk root (ds ++ [name]) in
  let written := fun (prefix : string) (destination : Path.t) =>
    write_created prefix source_of_truth_path (L, content) tr
    = (tr ++ [Mkdir family_directory; WriteFile destination content],
       if Path.is_relative_to destination PROJECT_ROOT
       then inl tt else inr ValueError) in
  cut_at_extension (List.last (Path.parts source_of_truth_path) "") stem ext ->
  free_of "/" ext ->
  clean_part L ->
  (clean_path family_directory ->
   In stem supported_locales ->
   let prefix := Path.to_string family_directory in
   target_path prefix source_of_truth_path L = created (L ++ ext)%string
   /\ written prefix (created (L ++ ext)%string)) /\
  (clean_path family_file ->
   ~ In stem supported_locales ->
   L = default_locale ->
   let prefix := Path.to_string family_file in
   target_path prefix source_of_truth_path L = created (base ++ ext)%string
   /\ Path.to_string (created (base ++ ext)%string) = (prefix ++ ext)%string
   /\ written prefix (created (base ++ ext)%string)) /\
  (clean_path family_file ->
   ~ In stem supported_locales ->
   L <> default_locale ->
   let prefix := Path.to_string family_file in
   target_path prefix source_of_truth_path L
   = created (base ++ "." ++ L ++ ext)%string
   /\ Path.to_string (created (base ++ "." ++ L ++ ext)%string)
      = (prefix ++ "." ++ L ++ ext)%string
   /\ written prefix (created (base ++ "." ++ L ++ ext)%string)).
Proof.
  intros family_directory family_file created written Hcut Hext HL.
  destruct (stem_suffix_cut source_of_truth_path stem ext Hcut) as [Hs Hx].
  assert (W : forall prefix name,
             target_path prefix source_of_truth_path L = created name ->
             written prefix (created name)).
  { intros prefix name E. unfold written.
    rewrite write_created_trace. unfold creation_writes. simpl.
    rewrite E. unfold created. now rewrite path_parent_last. }
  assert (Hfile : forall t,
             clean_path family_file -> free_of "/" t ->
             Path.of_string (Path.to_string family_file ++ t)%string
             = created (base ++ t)%string).
  { intros t Hc Ht. unfold family_file. rewrite to_string_append.
    apply of_string_to_string. apply (clean_path_snoc root ds base);
      [exact Hc|].
    apply clean_part_append; [|exact Ht].
    destruct Hc as [_ Hp]. simpl in Hp. apply Forall_app in Hp.
    destruct Hp as [_ Hp]. now inversion Hp. }
  split; [|split].
  - intros Hc Hin prefix.
    assert (E : target_path prefix source_of_truth_path L
                = created (L ++ ext)%string).
    { unfold target_path. rewrite Hs, Hx, (mem_true_In _ _ Hin).
      unfold prefix. rewrite (of_string_to_string _ Hc).
      apply join_part. now apply clean_part_append. }
    split; [exact E | now apply W].
  - intros Hc Hnin Hd prefix.
    assert (E : target_path prefix source_of_truth_path L
                = created (base ++ ext)%string).
    { unfold target_path. rewrite Hs, Hx, (mem_false_not_In _ _ Hnin).
      apply String.eqb_eq in Hd. rewrite Hd. now apply Hfile. }
    split; [exact E|]. split; [|now apply W].
    unfold created, prefix, family_file. now rewrite to_string_append.
  - intros Hc Hnin Hd prefix.
    assert (Ht : free_of "/" ("." ++ L ++ ext)%string).
    { apply free_of_cons. split; [discriminate|]. apply free_of_append.
      split; [apply HL | exact Hext]. }
    assert (E : target_path prefix source_of_truth_path L
                = created (base ++ "." ++ L ++ ext)%string).
    { unfold target_path. rewrite Hs, Hx, (mem_false_not_In _ _ Hnin).
      apply String.eqb_neq in Hd. rewrite Hd. now apply Hfile. }
    split; [exact E|]. split; [|now apply W].
    unfold created, prefix, family_file. now rewrite to_string_append.
Qed.

End Bootstrap.

(** C10.  When the default locale is a key of the supported-locale
    mapping, the source of truth elected for any family that reaches the
    loop has a locale that is a key of the mapping and of the family, so
    its display name is found and no run ends in a [KeyError].  Nothing in
    the script checks the precondition: with a default locale outside the
    mapping a run reaches the lookup and fails there. *)
Theorem source_locale_lookup_precondition :
  (forall PROJECT_ROOT default_locale locale_pairs translate_files
          walks changed_files,
      In default_locale (supported_locales locale_pairs) ->
      (forall prefix files_map lang path,
          In (prefix, files_map)
             (filter_by_changes PROJECT_ROOT
                (build_families default_locale locale_pairs walks)
                changed_files) ->
          source_of_truth default_locale files_map
            (changed_files_list PROJECT_ROOT changed_files)
          = Selected lang path ->
          In lang (supported_locales locale_pairs)
          /\ In lang (Dict.keys files_map)
          /\ exists full,
              Dict.get lang (locales_map locale_pairs) = Some full)
      /\ (forall tr key,
             snd (main PROJECT_ROOT default_locale locale_pairs
                    translate_files changed_files walks tr)
             <> inr (KeyError key))) /\
  (exists PROJECT_ROOT default_locale locale_pairs translate_files
          walks changed_files,
      ~ In default_locale (supported_locales locale_pairs)
      /\ snd (main PROJECT_ROOT default_locale locale_pairs translate_files
                changed_files walks [])
         = inr (KeyError default_locale)).
Proof.
  split.
  - intros PROJECT_ROOT default_locale locale_pairs translate_files
           walks changed_files Hd.
    split.
    + intros prefix files_map lang path Hin Hs.
      exact (selected_locale_supported PROJECT_ROOT default_locale
               locale_pairs walks changed_files prefix files_map lang path
               Hd Hin Hs).
    + intros tr key. now apply main_no_key_error.
  - exists Sample.root, "fr", [("zh", "Chinese")], Sample.echo_client,
      [[(Sample.docs, ["index.mdx"])]], "".
    split; [|vm_compute; reflexivity].
    vm_compute. intros [H|[]]. discriminate.
Qed.


(* ===================================================================== *)
(** ** The properties on the sample tree *)
(* ===================================================================== *)

Ltac by_evaluation := vm_compute; reflexivity.

Ltac distinct_keys :=
  vm_compute; repeat (constructor; [simpl; intuition discriminate|]);
  constructor.

Example classify_dotted :
  get_path_prefix_and_lang "docs/index.en.mdx" "en" ["en"; "zh"]
  = ("docs/index", "en").
Proof. by_evaluation. Qed.

Example classify_bare :
  get_path_prefix_and_lang "messages/en.json" "en" ["en"; "zh"]
  = ("messages", "en").
Proof. by_evaluation. Qed.

Example classify_fallback :
  get_path_prefix_and_lang "docs/index.mdx" "en" ["en"; "zh"]
  = ("docs/index", "en").
Proof. by_evaluation. Qed.

Example scan_of_sample :
  build_families "en" Sample.pairs Sample.walks = Sample.scanned.
Proof. by_evaluation. Qed.

Example created_bare_destination :
  target_path "en" Sample.pairs "messages"
    (Path.of_string "messages/en.json") "ko"
  = Path.of_string "messages/ko.json".
Proof. by_evaluation. Qed.

Example created_dotted_destination :
  target_path "en" Sample.pairs "docs/index"
    (Path.of_string "docs/index.en.mdx") "zh"
  = Path.of_string "docs/index.zh.mdx"
  /\ target_path "en" Sample.pairs "docs/index"
       (Path.of_string "docs/index.zh.mdx") "en"
     = Path.of_string "docs/index.mdx".
Proof. split; by_evaluation. Qed.

Example full_scan_of_sample :
  main Sample.root "en" Sample.pairs Sample.echo_client "" Sample.walks []
  = ([Processing "/srv/crater-website/content/docs/index";
      Translate
        (mk_call ["/srv/crater-website/content/docs/index.mdx"] "en"
           "English" ["ko"] ["Korean"] false);
      Mkdir (Path.of_string "/srv/crater-website/content/docs");
      WriteFile
        (Path.of_string "/srv/crater-website/content/docs/index.ko.mdx")
        "translated";
      Translate
        (mk_call
           ["/srv/crater-website/content/docs/index.mdx";
            "/srv/crater-website/content/docs/index.zh.mdx"]
           "en" "English" ["zh"] ["Chinese"] true);
      Processing "/srv/crater-website/messages";
      Translate
        (mk_call ["/srv/crater-website/messages/en.json"] "en" "English"
           ["ko"] ["Korean"] false);
      Mkdir (Path.of_string "/srv/crater-website/messages");
      WriteFile (Path.of_string "/srv/crater-website/messages/ko.json")
        "translated";
      Translate
        (mk_call
           ["/srv/crater-website/messages/en.json";
            "/srv/crater-website/messages/zh.json"]
           "en" "English" ["zh"] ["Chinese"] true)],
     inl tt).
Proof. by_evaluation. Qed.

(** C1 on the family [{en: A, zh: B}] with both files changed: the
    default-locale file wins. *)
Lemma source_of_truth_decision_order_witness :
  NoDup (Dict.keys Sample.family_en_zh)
  /\ source_of_truth "en" Sample.family_en_zh
       [Sample.index_en; Sample.index_zh]
     = Selected "en" Sample.index_en.
Proof.
  assert (H : NoDup (Dict.keys Sample.family_en_zh)) by distinct_keys.
  split; [exact H|].
  apply (proj1 (proj2 (source_of_truth_decision_order "en"
                         Sample.family_en_zh
                         [Sample.index_en; Sample.index_zh] H))).
  - by_evaluation.
  - left. reflexivity.
Defined.

(** C2 on the family [{zh: B, fr: C}] with both files changed and default
    locale ["en"]: neither is picked. *)
Lemma ambiguous_family_is_skipped_witness :
  NoDup (Dict.keys Sample.family_zh_fr)
  /\ (forall path,
         Dict.get "en" Sample.family_zh_fr = Some path ->
         ~ In path [Sample.index_zh; Sample.index_fr])
  /\ 2 <= List.length
            (family_changed_files Sample.family_zh_fr
               [Sample.index_zh; Sample.index_fr])
  /\ source_of_truth "en" Sample.family_zh_fr
       [Sample.index_zh; Sample.index_fr]
     = SkipAmbiguous
         (Dict.keys
            (family_changed_files Sample.family_zh_fr
               [Sample.index_zh; Sample.index_fr])).
Proof.
  assert (H1 : NoDup (Dict.keys Sample.family_zh_fr)) by distinct_keys.
  assert (H2 : forall path,
             Dict.get "en" Sample.family_zh_fr = Some path ->
             ~ In path [Sample.index_zh; Sample.index_fr])
    by (vm_compute; discriminate).
  assert (H3 : 2 <= List.length
                      (family_changed_files Sample.family_zh_fr
                         [Sample.index_zh; Sample.index_fr]))
    by (vm_compute; lia).
  split; [exact H1|]. split; [exact H2|]. split; [exact H3|].
  exact (proj1 (ambiguous_family_is_skipped Sample.root "en" Sample.pairs
                  Sample.echo_client "/srv/crater-website/content/docs/index"
                  Sample.family_zh_fr [Sample.index_zh; Sample.index_fr]
                  H1 H2 H3)).
Defined.

Example ambiguous_locales :
  Dict.keys
    (family_changed_files Sample.family_zh_fr
       [Sample.index_zh; Sample.index_fr])
  = ["zh"; "fr"].
Proof. by_evaluation. Qed.

(** C3 on [docs/index.en.mdx]: the dotted form. *)
Lemma get_path_prefix_and_lang_rules_witness :
  Path.of_string "docs/index.en.mdx" = Path.mk "" ["docs"; "index.en.mdx"]
  /\ cut_at_extension (List.last ["docs"; "index.en.mdx"] "")
       "index.en" ".mdx"
  /\ ("index.en" = ("index" ++ String "." "en")%string
      /\ free_of "." "en" /\ In "en" ["en"; "zh"])
  /\ get_path_prefix_and_lang "docs/index.en.mdx" "en" ["en"; "zh"]
     = ("docs/index", "en").
Proof.
  assert (H1 : Path.of_string "docs/index.en.mdx"
               = Path.mk "" ["docs"; "index.en.mdx"]) by by_evaluation.
  assert (H2 : cut_at_extension (List.last ["docs"; "index.en.mdx"] "")
                 "index.en" ".mdx").
  { split; [reflexivity|]. left. exists "mdx".
    split; [reflexivity|]. split; [discriminate|].
    split; [reflexivity | discriminate]. }
  assert (H3 : "index.en" = ("index" ++ String "." "en")%string
               /\ free_of "." "en" /\ In "en" ["en"; "zh"]).
  { split; [reflexivity|]. split; [reflexivity | left; reflexivity]. }
  split; [exact H1|]. split; [exact H2|]. split; [exact H3|].
  refine (eq_trans
            (proj1 (get_path_prefix_and_lang_rules "docs/index.en.mdx" "en"
                      ["en"; "zh"] "" ["docs"; "index.en.mdx"]
                      "index.en" ".mdx" H1 H2)
               "index" "en" H3) _).
  by_evaluation.
Defined.

(** The three rules on names that start with a dot or hold nothing else
    than a marker. *)
Example classify_marker_only :
  get_path_prefix_and_lang "docs/.en.mdx" "en" ["en"; "zh"] = ("docs", "en")
  /\ get_path_prefix_and_lang "docs/..zh.mdx" "en" ["en"; "zh"]
     = ("docs", "zh")
  /\ get_path_prefix_and_lang "en.zh" "en" ["en"; "zh"] = (".", "en")
  /\ get_path_prefix_and_lang "docs/.hidden" "en" ["en"; "zh"]
     = ("docs/.hidden", "en").
Proof. repeat split; by_evaluation. Qed.

(** C4 on the bare-locale family [messages]: the Korean file made from
    [en.json]. *)
Lemma target_path_synthesis_witness :
  let directory := Path.mk "/" ["srv"; "crater-website"; "messages"] in
  let destination :=
    Path.mk "/" ["srv"; "crater-website"; "messages"; "ko.json"] in
  cut_at_extension (List.last (Path.parts Sample.messages_en) "") "en" ".json"
  /\ free_of "/" ".json"
  /\ clean_part "ko"
  /\ clean_path directory
  /\ In "en" (supported_locales Sample.pairs)
  /\ target_path "en" Sample.pairs "/srv/crater-website/messages"
       Sample.messages_en "ko"
     = destination
  /\ write_created Sample.root "en" Sample.pairs
       "/srv/crater-website/messages" Sample.messages_en
       ("ko", "translated") []
     = ([Mkdir directory; WriteFile destination "translated"], inl tt).
Proof.
  intros directory destination.
  assert (H1 : cut_at_extension
                 (List.last (Path.parts Sample.messages_en) "") "en" ".json").
  { split; [by_evaluation|]. left. exists "json".
    split; [reflexivity|]. split; [discriminate|].
    split; [reflexivity | discriminate]. }
  assert (H2 : free_of "/" ".json") by reflexivity.
  assert (H3 : clean_part "ko").
  { split; [discriminate|]. split; [discriminate | reflexivity]. }
  assert (H4 : clean_path directory).
  { split; [right; left; reflexivity|]. unfold directory. simpl.
    repeat constructor; try discriminate; try reflexivity. }
  assert (H5 : In "en" (supported_locales Sample.pairs))
    by (vm_compute; tauto).
  repeat (split; [assumption|]).
  pose proof (proj1 (target_path_synthesis Sample.root "en" Sample.pairs
                       "/" ["srv"; "crater-website"; "messages"] "en"
                       Sample.messages_en "en" ".json" "ko" "translated" []
                       H1 H2 H3)
                H4 H5) as T.
  vm_compute in T. vm_compute. exact T.
Defined.

(** C4 on the family of the index page: the Korean file and the file of
    the default locale. *)
Example created_beside_the_source :
  target_path "en" Sample.pairs "/srv/crater-website/content/docs/index"
    Sample.index_zh "ko"
  = Path.mk "/" ["srv"; "crater-website"; "content"; "docs"; "index.ko.mdx"]
  /\ target_path "en" Sample.pairs "/srv/crater-website/content/docs/index"
       Sample.index_zh "en"
     = Path.mk "/" ["srv"; "crater-website"; "content"; "docs"; "index.mdx"].
Proof. split; by_evaluation. Qed.

(** A created file that is not below the project root is written, and the
    report of the write then raises. *)
Example created_outside_the_root :
  write_created Sample.root "en" Sample.pairs "/srv/crater-website/messages"
    Sample.messages_en ("/tmp/ko", "translated") []
  = ([Mkdir (Path.mk "/" ["tmp"]);
      WriteFile (Path.mk "/" ["tmp"; "ko.json"]) "translated"],
     inr ValueError).
Proof. by_evaluation. Qed.

(** C5 on the family [{en: A, zh: B}] in full-scan mode. *)
Lemma targets_partition_witness :
  source_of_truth "en" Sample.family_en_zh [] = Selected "en" Sample.index_en
  /\ In "en" (supported_locales Sample.pairs)
  /\ Permutation (supported_locales Sample.pairs)
       (targets_to_create Sample.pairs Sample.family_en_zh
        ++ targets_to_update Sample.pairs Sample.family_en_zh "en" ++ ["en"]).
Proof.
  assert (H1 : source_of_truth "en" Sample.family_en_zh []
               = Selected "en" Sample.index_en) by by_evaluation.
  assert (H2 : In "en" (supported_locales Sample.pairs))
    by (vm_compute; tauto).
  split; [exact H1|]. split; [exact H2|].
  exact (proj2 (proj2 (proj2 (proj2 (proj2
           (targets_partition "en" Sample.pairs Sample.family_en_zh []
              "en" Sample.index_en H1 H2)))))).
Defined.

Example partition_of_sample :
  targets_to_create Sample.pairs Sample.family_en_zh = ["ko"]
  /\ targets_to_update Sample.pairs Sample.family_en_zh "en" = ["zh"].
Proof. split; by_evaluation. Qed.

(** C6 as stated fails: the argument [","] holds no path, so the change
    set is empty, yet the filter drops every family and the run ends at
    once instead of scanning everything. *)
Lemma filter_empty_change_set_counterexample :
  changed_files_list Sample.root "," = []
  /\ filter_by_changes Sample.root Sample.scanned "," = []
  /\ filter_by_changes Sample.root Sample.scanned "," <> Sample.scanned
  /\ main Sample.root "en" Sample.pairs Sample.echo_client "," Sample.walks []
     = ([], inr (SystemExit 0)).
Proof.
  split; [by_evaluation|]. split; [by_evaluation|].
  split; [vm_compute; discriminate|]. by_evaluation.
Qed.

(** C6 as amended, on a change list naming one file of the sample. *)
Lemma filter_by_changes_gate_witness :
  NoDup (Dict.keys Sample.scanned)
  /\ "content/docs/index.zh.mdx" <> ""
  /\ filter_by_changes Sample.root Sample.scanned "content/docs/index.zh.mdx"
     = filter
         (fun entry =>
            family_is_affected
              (parse_changed_files Sample.root "content/docs/index.zh.mdx")
              (snd entry))
         Sample.scanned.
Proof.
  assert (H1 : NoDup (Dict.keys Sample.scanned)) by distinct_keys.
  assert (H2 : "content/docs/index.zh.mdx" <> "") by discriminate.
  split; [exact H1|]. split; [exact H2|].
  exact (proj1 (proj2 (proj2 (filter_by_changes_gate Sample.root
                                Sample.scanned "content/docs/index.zh.mdx"
                                H1)
                         H2))).
Defined.

Example filter_of_sample :
  filter_by_changes Sample.root Sample.scanned
    "crater-website/content/docs/index.zh.mdx"
  = [("/srv/crater-website/content/docs/index", Sample.family_en_zh)].
Proof. by_evaluation. Qed.

(** C7 as stated fails: with a client that raises, the full scan of the
    sample stops in the first family; the second one, [messages], is in the
    family map and is never attempted. *)
Lemma backend_failure_counterexample :
  let run :=
    main Sample.root "en" Sample.pairs Sample.failing_client ""
      Sample.walks [] in
  In "/srv/crater-website/messages"
     (Dict.keys
        (filter_by_changes Sample.root
           (build_families "en" Sample.pairs Sample.walks) ""))
  /\ ~ In (Processing "/srv/crater-website/messages") (fst run)
  /\ (forall call,
         In (Translate call) (fst run) ->
         file_paths call = ["/srv/crater-website/content/docs/index.mdx"])
  /\ snd run = inr (BackendError "backend unavailable")
  /\ exit_status (snd run) = 1.
Proof.
  vm_compute. split; [tauto|]. split; [intuition discriminate|].
  split; [|split; reflexivity].
  intros call [H|[H|[]]]; [discriminate|]. injection H as <-. reflexivity.
Qed.

(** C7 as amended, on the same run. *)
Lemma backend_failure_stops_the_run_witness :
  let body :=
    process_family Sample.root "en" Sample.pairs Sample.failing_client [] in
  let prefix := "/srv/crater-website/content/docs/index" in
  let failed :=
    [Processing prefix;
     Translate
       (mk_call ["/srv/crater-website/content/docs/index.mdx"] "en"
          "English" ["ko"] ["Korean"] false)] in
  for_each body [] [] = ([], inl tt)
  /\ body (prefix, Sample.family_en_zh) []
     = (failed, inr (BackendError "backend unavailable"))
  /\ for_each body ([] ++ (prefix, Sample.family_en_zh) :: tl Sample.scanned) []
     = (failed, inr (BackendError "backend unavailable")).
Proof.
  intros body prefix failed.
  assert (H1 : for_each body [] [] = ([], inl tt)) by reflexivity.
  assert (H2 : body (prefix, Sample.family_en_zh) []
               = (failed, inr (BackendError "backend unavailable")))
    by by_evaluation.
  split; [exact H1|]. split; [exact H2|].
  exact (proj1 (backend_failure_stops_the_run Sample.root "en" Sample.pairs
                  Sample.failing_client [] [] (tl Sample.scanned)
                  prefix Sample.family_en_zh [] [] failed
                  "backend unavailable" H1 H2)).
Defined.

(** C8 on a change list that names no file of any family. *)
Lemma empty_filter_short_circuit_witness :
  filter_by_changes Sample.root
    (build_families "en" Sample.pairs Sample.walks) "README.md" = []
  /\ exit_status
       (snd (main Sample.root "en" Sample.pairs Sample.echo_client
               "README.md" Sample.walks [])) = 0.
Proof.
  assert (H : filter_by_changes Sample.root
                (build_families "en" Sample.pairs Sample.walks) "README.md"
              = []) by by_evaluation.
  split; [exact H|].
  exact (proj1 (proj2 (empty_filter_short_circuit Sample.root "en"
                         Sample.pairs Sample.echo_client "README.md"
                         Sample.walks H))).
Defined.

(** C9 on the [messages] family of the sample. *)
Lemma scanned_families_nonempty_witness :
  In ("/srv/crater-website/messages",
      [("en", Sample.messages_en); ("zh", Sample.messages_zh)])
     (build_families "en" Sample.pairs Sample.walks)
  /\ [("en", Sample.messages_en); ("zh", Sample.messages_zh)] <> [].
Proof.
  assert (H : In ("/srv/crater-website/messages",
                  [("en", Sample.messages_en); ("zh", Sample.messages_zh)])
                (build_families "en" Sample.pairs Sample.walks))
    by (vm_compute; tauto).
  split; [exact H|].
  exact (proj1 (proj1 (scanned_families_nonempty Sample.root "en"
                         Sample.pairs Sample.echo_client Sample.walks)
                  _ _ H)).
Defined.

(** C10 on the sample, whose default locale is supported. *)
Lemma source_locale_lookup_precondition_witness :
  In "en" (supported_locales Sample.pairs)
  /\ forall tr key,
      snd (main Sample.root "en" Sample.pairs Sample.echo_client ""
             Sample.walks tr)
      <> inr (KeyError key).
Proof.
  assert (H : In "en" (supported_locales Sample.pairs))
    by (vm_compute; tauto).
  split; [exact H|].
  exact (proj2 (proj1 source_locale_lookup_precondition Sample.root "en"
                  Sample.pairs Sample.echo_client Sample.walks "" H)).
Defined.

(* ===================================================================== *)
(** ** More properties on the sample tree *)
(* ===================================================================== *)

Example project_root_of_sample :
  find_project_root Fixture.resolve Fixture.is_dir Fixture.start_point
  = Found Sample.root
  /\ find_project_root Fixture.resolve Fixture.is_dir Fixture.script_directory
     = Found Sample.root
  /\ find_project_root (fun p => p) Fixture.is_dir Fixture.script_directory
     = FileNotFound.
Proof. repeat split; by_evaluation. Qed.

(** X1 on the sample tree, from the directory of the script given as a
    relative path: the root found is an ancestor of the resolved path. *)
Lemma find_project_root_nearest_witness :
  find_project_root Fixture.resolve Fixture.is_dir Fixture.script_directory
  = Found Sample.root
  /\ ancestor_or_self Sample.root (Fixture.resolve Fixture.script_directory)
  /\ Fixture.is_dir (Path.join Sample.root "messages") = true.
Proof.
  assert (H : find_project_root Fixture.resolve Fixture.is_dir
                Fixture.script_directory
              = Found Sample.root) by by_evaluation.
  split; [exact H|].
  pose proof (proj1 (proj2 (find_project_root_nearest Fixture.resolve
                              Fixture.is_dir Fixture.script_directory))
                Sample.root H) as [H1 [_ [_ [H4 _]]]].
  split; [exact H1 | exact H4].
Defined.

(** X2 on the two formats of one page: the later one holds the slot. *)
Lemma scan_last_write_wins_witness :
  (exists before after,
      scanned_paths Fixture.two_formats
      = before ++ Fixture.page_mdx :: after
      /\ classify "en" Sample.pairs Fixture.page_mdx
         = ("/srv/crater-website/content/docs/page", "en")
      /\ forall q,
          In q after ->
          classify "en" Sample.pairs q
          <> ("/srv/crater-website/content/docs/page", "en"))
  /\ exists files_map,
      In ("/srv/crater-website/content/docs/page", files_map)
         (build_families "en" Sample.pairs Fixture.two_formats)
      /\ In ("en", Fixture.page_mdx) files_map.
Proof.
  assert (H : exists before after,
             scanned_paths Fixture.two_formats
             = before ++ Fixture.page_mdx :: after
             /\ classify "en" Sample.pairs Fixture.page_mdx
                = ("/srv/crater-website/content/docs/page", "en")
             /\ forall q,
                 In q after ->
                 classify "en" Sample.pairs q
                 <> ("/srv/crater-website/content/docs/page", "en")).
  { exists [Fixture.page_md], [].
    split; [by_evaluation|]. split; [by_evaluation | intros q []]. }
  split; [exact H|].
  exact (proj2 (scan_last_write_wins "en" Sample.pairs Fixture.two_formats
                  "/srv/crater-website/content/docs/page" "en"
                  Fixture.page_mdx) H).
Defined.

(** X3 on the Chinese index page of the sample. *)
Lemma scan_sound_and_complete_witness :
  In ("/srv/crater-website/content/docs/index", Sample.family_en_zh)
     (build_families "en" Sample.pairs Sample.walks)
  /\ In ("zh", Sample.index_zh) Sample.family_en_zh
  /\ classify "en" Sample.pairs Sample.index_zh
     = ("/srv/crater-website/content/docs/index", "zh").
Proof.
  assert (H1 : In ("/srv/crater-website/content/docs/index",
                   Sample.family_en_zh)
                 (build_families "en" Sample.pairs Sample.walks))
    by (vm_compute; tauto).
  assert (H2 : In ("zh", Sample.index_zh) Sample.family_en_zh)
    by (vm_compute; tauto).
  split; [exact H1|]. split; [exact H2|].
  exact (proj1 (proj1 (scan_sound_and_complete "en" Sample.pairs Sample.walks)
                  _ _ _ _ H1 H2)).
Defined.

(** X4 on the family [{en: A, zh: B}] when only the Chinese file
    changed. *)
Lemma source_of_truth_prefers_changed_witness :
  NoDup (Dict.keys Sample.family_en_zh)
  /\ source_of_truth "en" Sample.family_en_zh [Sample.index_zh]
     = Selected "zh" Sample.index_zh
  /\ In ("zh", Sample.index_zh) Sample.family_en_zh.
Proof.
  assert (H1 : NoDup (Dict.keys Sample.family_en_zh)) by distinct_keys.
  assert (H2 : source_of_truth "en" Sample.family_en_zh [Sample.index_zh]
               = Selected "zh" Sample.index_zh) by by_evaluation.
  split; [exact H1|]. split; [exact H2|].
  exact (proj1 (source_of_truth_prefers_changed "en" Sample.family_en_zh
                  [Sample.index_zh] "zh" Sample.index_zh H1 H2)).
Defined.

(** X5 on the family [{zh: B, fr: C}] in full-scan mode: not skipped. *)
Lemma source_of_truth_skip_reasons_witness :
  NoDup (Dict.keys Sample.family_zh_fr)
  /\ filter (fun entry : string * Path.t => Path.mem (snd entry) [])
       Sample.family_zh_fr = []
  /\ Sample.family_zh_fr <> []
  /\ exists lang path,
      source_of_truth "en" Sample.family_zh_fr [] = Selected lang path.
Proof.
  assert (H1 : NoDup (Dict.keys Sample.family_zh_fr)) by distinct_keys.
  assert (H2 : filter (fun entry : string * Path.t => Path.mem (snd entry) [])
                 Sample.family_zh_fr = []) by by_evaluation.
  assert (H3 : Sample.family_zh_fr <> []) by discriminate.
  split; [exact H1|]. split; [exact H2|]. split; [exact H3|].
  exact (proj2 (proj2 (source_of_truth_skip_reasons "en" Sample.family_zh_fr
                         [] H1)) H2 H3).
Defined.

(** X6 on the first call of the full scan of the sample. *)
Lemma calls_are_well_formed_witness :
  In (Translate Fixture.first_call)
     (fst (main Sample.root "en" Sample.pairs Sample.echo_client ""
             Sample.walks []))
  /\ exists prefix files_map,
      In (prefix, files_map)
         (filter_by_changes Sample.root
            (build_families "en" Sample.pairs Sample.walks) "")
      /\ call_for_family "en" Sample.pairs
           (changed_files_list Sample.root "") files_map Fixture.first_call
      /\ target_languages Fixture.first_call <> []
      /\ NoDup (target_languages Fixture.first_call)
      /\ ~ In (source_language Fixture.first_call)
             (target_languages Fixture.first_call)
      /\ forall lang,
          In lang (target_languages Fixture.first_call) ->
          In lang (supported_locales Sample.pairs).
Proof.
  assert (H : In (Translate Fixture.first_call)
                (fst (main Sample.root "en" Sample.pairs Sample.echo_client
                        "" Sample.walks [])))
    by (vm_compute; tauto).
  split; [exact H|].
  exact (calls_are_well_formed Sample.root "en" Sample.pairs
           Sample.echo_client "" Sample.walks Fixture.first_call H).
Defined.

(** X7 on the first write of the full scan of the sample. *)
Lemma writes_follow_mkdir_witness :
  let written :=
    Path.of_string "/srv/crater-website/content/docs/index.ko.mdx" in
  let l1 :=
    [Processing "/srv/crater-website/content/docs/index";
     Translate Fixture.first_call;
     Mkdir (Path.of_string "/srv/crater-website/content/docs")] in
  let l2 :=
    skipn 4
      (fst (main Sample.root "en" Sample.pairs Sample.echo_client ""
              Sample.walks [])) in
  fst (main Sample.root "en" Sample.pairs Sample.echo_client ""
         Sample.walks [])
  = l1 ++ WriteFile written "translated" :: l2
  /\ exists l0, l1 = l0 ++ [Mkdir (Path.parent written)].
Proof.
  intros written l1 l2.
  assert (H : fst (main Sample.root "en" Sample.pairs Sample.echo_client ""
                     Sample.walks [])
              = l1 ++ WriteFile written "translated" :: l2)
    by by_evaluation.
  split; [exact H|].
  exact (writes_follow_mkdir Sample.root "en" Sample.pairs
           Sample.echo_client "" Sample.walks written "translated" l1 l2 H).
Defined.

(** X9 on a path given with the project directory in front. *)
Lemma changed_path_root_name_stripped_witness :
  clean_part (Path.name Sample.root)
  /\ absolute_path Sample.root
       (Path.name Sample.root ++ String "/" "content/docs/index.mdx")%string
     = Path.mk (Path.root Sample.root)
         (Path.parts Sample.root
          ++ Path.parts (Path.of_string "content/docs/index.mdx")).
Proof.
  assert (H : clean_part (Path.name Sample.root)).
  { vm_compute. split; [discriminate|]. split; [discriminate|reflexivity]. }
  split; [exact H|].
  exact (proj1 (changed_path_root_name_stripped Sample.root
                  "content/docs/index.mdx" H)).
Defined.

Example stripped_path_of_sample :
  absolute_path Sample.root "crater-website/content/docs/index.mdx"
  = Sample.index_en
  /\ absolute_path Sample.root "content/docs/index.mdx" = Sample.index_en.
Proof. split; by_evaluation. Qed.



(** X11 on a configuration that declares [en] twice. *)
Lemma locales_map_last_declaration_wins_witness :
  map (fun kv : string * string =>
         (PyStr.strip (fst kv), PyStr.strip (snd kv)))
    Fixture.repeated_pairs
  = [("en", "English"); ("zh", "Chinese")]
    ++ ("en", "British English") :: []
  /\ ~ In "en" (map (@fst string string) [])
  /\ Dict.get "en" (locales_map Fixture.repeated_pairs)
     = Some "British English".
Proof.
  assert (H1 : map (fun kv : string * string =>
                      (PyStr.strip (fst kv), PyStr.strip (snd kv)))
                 Fixture.repeated_pairs
               = [("en", "English"); ("zh", "Chinese")]
                 ++ ("en", "British English") :: []) by by_evaluation.
  assert (H2 : ~ In "en" (map (@fst string string) [])) by (intros []).
  split; [exact H1|]. split; [exact H2|].
  exact (proj2 (proj2 (locales_map_last_declaration_wins
                         Fixture.repeated_pairs))
           _ _ _ _ H1 H2).
Defined.

Example repeated_code_listed_once :
  supported_locales Fixture.repeated_pairs = ["en"; "zh"].
Proof. by_evaluation. Qed.

Ltac clean_components :=
  repeat constructor; try discriminate; try reflexivity.


Example run_without_configuration :
  get_i18n_config Fixture.search_default_locale
    Fixture.search_supported_locales Fixture.findall_locale_pairs None []
  = ([], inr (SystemExit 1))
  /\ get_i18n_config Fixture.search_default_locale
       Fixture.search_supported_locales Fixture.findall_locale_pairs
       (Some "") []
     = ([], inr (SystemExit 1)).
Proof. split; by_evaluation. Qed.

Example run_left_by_the_client :
  main Sample.root "en" Sample.pairs Sample.leaving_client "" Sample.walks []
  = ([Processing "/srv/crater-website/content/docs/index";
      Translate Fixture.first_call],
     inr (SystemExit 3)).
Proof. by_evaluation. Qed.

Example run_stopped_by_a_stray_file :
  main Sample.root "en" Sample.pairs Sample.straying_client
    "messages/en.json" Sample.walks []
  = ([Processing "/srv/crater-website/messages";
      Translate
        (mk_call ["/srv/crater-website/messages/en.json"] "en" "English"
           ["ko"] ["Korean"] false);
      Mkdir (Path.mk "/" ["tmp"]);
      WriteFile (Path.mk "/" ["tmp"; "ko.json"]) "translated"],
     inr ValueError).
Proof. by_evaluation. Qed.

Example strip_of_wide_blanks :
  PyStr.strip Fixture.padded_name = "English"
  /\ PyStr.strip "  en " = "en"
  /\ locales_map [(" en", Fixture.padded_name)] = [("en", "English")].
Proof. repeat split; by_evaluation. Qed.

(** X12 on the [messages] family: the Korean file created from [en.json]
    is found again under the same family. *)
Lemma created_file_round_trip_witness :
  let prefix_path := Path.of_string Sample.messages in
  clean_path prefix_path
  /\ Path.suffix Sample.messages_en = String "." "json"
  /\ "json" <> "" /\ free_of "." "json" /\ free_of "/" "json"
  /\ "ko" <> "" /\ free_of "." "ko" /\ free_of "/" "ko"
  /\ In (Path.stem Sample.messages_en) (supported_locales Sample.pairs)
  /\ In "ko" (supported_locales Sample.pairs)
  /\ classify "en" Sample.pairs
       (target_path "en" Sample.pairs (Path.to_string prefix_path)
          Sample.messages_en "ko")
     = (Path.to_string prefix_path, "ko").
Proof.
  intros prefix_path.
  assert (H1 : clean_path prefix_path) by apply of_string_clean.
  assert (H2 : Path.suffix Sample.messages_en = String "." "json")
    by by_evaluation.
  assert (H3 : "json" <> "") by discriminate.
  assert (H4 : free_of "." "json") by reflexivity.
  assert (H5 : free_of "/" "json") by reflexivity.
  assert (H6 : "ko" <> "") by discriminate.
  assert (H7 : free_of "." "ko") by reflexivity.
  assert (H8 : free_of "/" "ko") by reflexivity.
  assert (H9 : In (Path.stem Sample.messages_en)
                 (supported_locales Sample.pairs)) by (vm_compute; tauto).
  assert (H10 : In "ko" (supported_locales Sample.pairs))
    by (vm_compute; tauto).
  repeat (split; [assumption|]).
  exact (proj1 (created_file_round_trip "en" Sample.pairs prefix_path
                  Sample.messages_en "json" "ko" H1 H2 H3 H4 H5 H6 H7 H8)
           H9 H10).
Defined.

(** X13 on the family of [notes.en.zh.md]: the English file created for
    it is filed under [notes]. *)
Lemma created_default_file_lands_elsewhere_witness :
  let ds := ["srv"; "crater-website"; "content"; "docs"] in
  let prefix_path := Path.mk "/" (ds ++ [("notes" ++ String "." "en")%string]) in
  clean_path prefix_path
  /\ clean_part "notes"
  /\ free_of "." "en"
  /\ In "en" (supported_locales Sample.pairs)
  /\ ~ In (Path.stem Fixture.notes_zh) (supported_locales Sample.pairs)
  /\ Path.suffix Fixture.notes_zh = String "." "md"
  /\ "md" <> "" /\ free_of "." "md" /\ free_of "/" "md"
  /\ classify "en" Sample.pairs
       (target_path "en" Sample.pairs (Path.to_string prefix_path)
          Fixture.notes_zh "en")
     = (Path.to_string (Path.mk "/" (ds ++ ["notes"])), "en").
Proof.
  intros ds prefix_path.
  assert (H1 : clean_path prefix_path).
  { split; [right; left; reflexivity|]. unfold prefix_path, ds. simpl.
    clean_components. }
  assert (H2 : clean_part "notes") by clean_components.
  assert (H3 : free_of "." "en") by reflexivity.
  assert (H4 : In "en" (supported_locales Sample.pairs))
    by (vm_compute; tauto).
  assert (H5 : ~ In (Path.stem Fixture.notes_zh)
                 (supported_locales Sample.pairs))
    by (vm_compute; intuition discriminate).
  assert (H6 : Path.suffix Fixture.notes_zh = String "." "md")
    by by_evaluation.
  assert (H7 : "md" <> "") by discriminate.
  assert (H8 : free_of "." "md") by reflexivity.
  assert (H9 : free_of "/" "md") by reflexivity.
  repeat (split; [assumption|]).
  exact (proj1 (created_default_file_lands_elsewhere "en" Sample.pairs "/" ds
                  "notes" "en" "md" Fixture.notes_zh
                  H1 H2 H3 H4 H5 H6 H7 H8 H9)).
Defined.

Example notes_family_of_sample :
  classify "en" Sample.pairs Fixture.notes_zh
  = ("/srv/crater-website/content/docs/notes.en", "zh").
Proof. by_evaluation. Qed.

(** X14 on the full scan of the sample. *)
Lemma families_processed_in_order_witness :
  exists rest,
    Dict.keys
      (filter_by_changes Sample.root
         (build_families "en" Sample.pairs Sample.walks) "")
    = announced
        (fst (main Sample.root "en" Sample.pairs Sample.echo_client ""
                Sample.walks [])) ++ rest
    /\ NoDup
         (announced
            (fst (main Sample.root "en" Sample.pairs Sample.echo_client ""
                    Sample.walks [])))
    /\ (snd (main Sample.root "en" Sample.pairs Sample.echo_client ""
               Sample.walks []) = inl tt -> rest = []).
Proof.
  exact (families_processed_in_order Sample.root "en" Sample.pairs
           Sample.echo_client "" Sample.walks).
Defined.

(** X15 on one page kept as [page.md] and as [page.mdx]. *)
Lemma extension_collision_witness :
  let ds := ["srv"; "crater-website"; "content"; "docs"] in
  let p1 := Path.mk "/" (ds ++ [("page" ++ String "." "md")%string]) in
  let p2 := Path.mk "/" (ds ++ [("page" ++ String "." "mdx")%string]) in
  clean_path p1 /\ clean_path p2
  /\ "page" <> ""
  /\ "md" <> "" /\ free_of "." "md"
  /\ "mdx" <> "" /\ free_of "." "mdx"
  /\ classify "en" Sample.pairs p1 = classify "en" Sample.pairs p2.
Proof.
  intros ds p1 p2.
  assert (H1 : clean_path p1).
  { split; [right; left; reflexivity|]. unfold p1, ds. simpl.
    clean_components. }
  assert (H2 : clean_path p2).
  { split; [right; left; reflexivity|]. unfold p2, ds. simpl.
    clean_components. }
  assert (H3 : "page" <> "") by discriminate.
  assert (H4 : "md" <> "") by discriminate.
  assert (H5 : free_of "." "md") by reflexivity.
  assert (H6 : "mdx" <> "") by discriminate.
  assert (H7 : free_of "." "mdx") by reflexivity.
  repeat (split; [assumption|]).
  exact (proj1 (extension_collision "en" Sample.pairs "/" ds "page" "md"
                  "mdx" Fixture.two_formats H1 H2 H3 H4 H5 H6 H7)).
Defined.

Example one_format_kept :
  build_families "en" Sample.pairs Fixture.two_formats
  = [("/srv/crater-website/content/docs/page", [("en", Fixture.page_mdx)])].
Proof. by_evaluation. Qed.
